(** * TinyPkg: a shallow embedding of the package manager's core

    The development follows the C sources: [package.c] (installed-packages
    database and lifecycle), [dependency.c] (resolver), [security.c]
    (checksum verification) and [build.c] (build runner).

    C strings are lists of characters (the bytes before the terminating
    NUL); C integers are [Z]; the process-wide globals of the C program
    are gathered in one [state] record that every operation threads. *)

From Stdlib Require Import String Ascii.
From Stdlib Require Import List ZArith NArith Lia Bool.
Import ListNotations.
Local Open Scope Z_scope.

(** ** C strings *)

Definition cstring := list ascii.

Definition cstr (s : string) : cstring := list_ascii_of_string s.
Arguments cstr _%_string.

(** [strcmp(a, b) == 0], also the macro [TINYPKG_STREQ]. *)
Fixpoint TINYPKG_STREQ (a b : cstring) : bool :=
  match a, b with
  | [], [] => true
  | x :: a', y :: b' => Ascii.eqb x y && TINYPKG_STREQ a' b'
  | _, _ => false
  end.

(** [strncpy(dst, src, n)] into a zeroed buffer of [n + 1] bytes: the
    first [n] characters of [src]. *)
Definition strncpy (n : nat) (src : cstring) : cstring := firstn n src.

(** [snprintf(dst, size, ...)]: the formatted text cut to [size - 1]
    characters. *)
Definition snprintf (size : nat) (text : cstring) : cstring :=
  firstn (size - 1) text.

Arguments strncpy : simpl never.
Arguments snprintf : simpl never.

Definition MAX_PATH : nat := N.to_nat 4096.
Definition MAX_CMD : nat := N.to_nat 8192.
Definition MAX_NAME : nat := N.to_nat 256.
Definition MAX_VERSION : nat := N.to_nat 64.
Definition MAX_DESCRIPTION : nat := N.to_nat 512.

Definition CACHE_DIR : cstring := cstr "/var/cache/tinypkg".
Definition LIB_DIR : cstring := cstr "/var/lib/tinypkg".

(** Return codes. *)
Definition TINYPKG_SUCCESS : Z := 0.
Definition TINYPKG_ERROR : Z := -1.
Definition TINYPKG_ERROR_MEMORY : Z := -2.
Definition TINYPKG_ERROR_FILE : Z := -3.
Definition TINYPKG_ERROR_NETWORK : Z := -4.
Definition TINYPKG_ERROR_BUILD : Z := -5.
Definition TINYPKG_ERROR_DEPENDENCY : Z := -6.

(** [package_state_t] ordinals; the field is read back from the
    database file with [%d], so it is kept as the integer it is. *)
Definition PKG_STATE_UNKNOWN : Z := 0.
Definition PKG_STATE_AVAILABLE : Z := 1.
Definition PKG_STATE_DOWNLOADING : Z := 2.
Definition PKG_STATE_BUILDING : Z := 3.
Definition PKG_STATE_INSTALLING : Z := 4.
Definition PKG_STATE_INSTALLED : Z := 5.
Definition PKG_STATE_FAILED : Z := 6.
Definition PKG_STATE_BROKEN : Z := 7.

(** ** Character classes of <ctype.h> in the C locale *)

Definition code (c : ascii) : N := N_of_ascii c.

Definition isspace (c : ascii) : bool :=
  ((code c =? 32) || ((9 <=? code c) && (code c <=? 13)))%N.

Definition isdigit (c : ascii) : bool :=
  ((48 <=? code c) && (code c <=? 57))%N.

Definition isxdigit (c : ascii) : bool :=
  (isdigit c
   || ((65 <=? code c) && (code c <=? 70))
   || ((97 <=? code c) && (code c <=? 102)))%N.

Definition tolower (c : ascii) : ascii :=
  if ((65 <=? code c) && (code c <=? 90))%N
  then ascii_of_N (code c + 32) else c.

Definition TAB : ascii := ascii_of_N 9.
Definition NEWLINE : ascii := ascii_of_N 10.
Definition HASH : ascii := ascii_of_N 35.
Definition MINUS : ascii := ascii_of_N 45.
Definition PLUS : ascii := ascii_of_N 43.

(** [strcasecmp(a, b) == 0]. *)
Fixpoint strcasecmp_eq (a b : cstring) : bool :=
  match a, b with
  | [], [] => true
  | x :: a', y :: b' => Ascii.eqb (tolower x) (tolower y) && strcasecmp_eq a' b'
  | _, _ => false
  end.

(** ** Decimal output ([%ld], [%zu], [%d]) and input *)

Definition digit_char (d : N) : ascii := ascii_of_N (48 + d).

(** Digits of [n], least significant first; [fuel] bounds their number. *)
Fixpoint rdigits (fuel : nat) (n : N) : list ascii :=
  match fuel with
  | O => []
  | S f =>
      digit_char (n mod 10) ::
      (if (n / 10 =? 0)%N then [] else rdigits f (n / 10))
  end.

Definition fmt_u (n : N) : cstring := rev (rdigits (S (N.to_nat (N.log2 n))) n).

Definition LONG_BITS : Z := 64.
Definition INT_BITS : Z := 32.

(** Two's complement reading of [z] on [w] bits. *)
Definition wrap_signed (w : Z) (z : Z) : Z :=
  let m := z mod 2 ^ w in
  if m <? 2 ^ (w - 1) then m else m - 2 ^ w.

Definition wrap_unsigned (w : Z) (z : Z) : Z := z mod 2 ^ w.

(** [%ld] and [%d] of a signed value. *)
Definition fmt_d (z : Z) : cstring :=
  if z <? 0 then MINUS :: fmt_u (Z.to_N (- z)) else fmt_u (Z.to_N z).

(** [%zu] of a [size_t]. *)
Definition fmt_zu (z : Z) : cstring := fmt_u (Z.to_N (wrap_unsigned LONG_BITS z)).

(** ** [sscanf] directives used by the database loader *)

(** A white-space directive, and the skip that [%s] and [%d] do first. *)
Fixpoint skip_space (l : cstring) : cstring :=
  match l with
  | c :: r => if isspace c then skip_space r else l
  | [] => []
  end.

(** The longest prefix of at most [w] characters that satisfy [p], and
    the unread rest. *)
Fixpoint scan_set (p : ascii -> bool) (w : nat) (l : cstring) : cstring * cstring :=
  match w, l with
  | S w', c :: r =>
      if p c then let '(t, rest) := scan_set p w' r in (c :: t, rest)
      else ([], l)
  | _, _ => ([], l)
  end.

(** [%<w>s]. *)
Definition conv_s (w : nat) (l : cstring) : option (cstring * cstring) :=
  match scan_set (fun c => negb (isspace c)) w (skip_space l) with
  | ([], _) => None
  | (t, rest) => Some (t, rest)
  end.

(** [%<w>[^\t]]: no white space is skipped. *)
Definition conv_not_tab (w : nat) (l : cstring) : option (cstring * cstring) :=
  match scan_set (fun c => negb (Ascii.eqb c TAB)) w l with
  | ([], _) => None
  | (t, rest) => Some (t, rest)
  end.

Fixpoint scan_digits (acc : N) (l : cstring) : N * cstring :=
  match l with
  | c :: r => if isdigit c then scan_digits (acc * 10 + (code c - 48)) r else (acc, l)
  | [] => (acc, [])
  end.

(** An optionally signed decimal integer after optional white space, as
    [%ld], [%zu] and [%d] read it; the mathematical value is returned and
    the caller stores it in an object of its width. *)
Definition conv_int (l : cstring) : option (Z * cstring) :=
  let l1 := skip_space l in
  let '(neg, l2) :=
    match l1 with
    | c :: r => if Ascii.eqb c MINUS then (true, r)
                else if Ascii.eqb c PLUS then (false, r) else (false, l1)
    | [] => (false, [])
    end in
  match l2 with
  | c :: _ =>
      if isdigit c
      then let '(n, rest) := scan_digits 0 l2 in
           Some (if neg then - Z.of_N n else Z.of_N n, rest)
      else None
  | [] => None
  end.

(** ** The installed-packages database ([package.c]) *)

Record package_db_entry_t := mk_entry {
  entry_name : cstring;
  entry_version : cstring;
  entry_description : cstring;
  entry_install_time : Z;
  entry_installed_size : Z;
  entry_state : Z
}.

(** What [calloc] hands out. *)
Definition entry_zero : package_db_entry_t := mk_entry [] [] [] 0 0 0.

(** [fprintf(fp, "%s\t%s\t%s\t%ld\t%zu\t%d\n", ...)]. *)
Definition entry_line (e : package_db_entry_t) : cstring :=
  entry_name e ++ TAB :: entry_version e ++ TAB :: entry_description e ++
  TAB :: fmt_d (entry_install_time e) ++
  TAB :: fmt_zu (entry_installed_size e) ++
  TAB :: fmt_d (entry_state e) ++ [NEWLINE].

Definition db_header : cstring :=
  cstr "# TinyPkg Installed Packages Database" ++ [NEWLINE] ++
  cstr "# Format: name" ++ TAB :: cstr "version" ++ TAB :: cstr "description" ++
  TAB :: cstr "install_time" ++ TAB :: cstr "installed_size" ++
  TAB :: cstr "state" ++ [NEWLINE].

(** The text [package_db_save] writes for a list of rows. *)
Definition db_file_content (rows : list package_db_entry_t) : cstring :=
  db_header ++ concat (map entry_line rows).

(** [sscanf(line, "%255s\t%63s\t%511[^\t]\t%ld\t%zu\t%d", ...)] into
    a zeroed entry: the number of fields converted ([-1] is [EOF]) and the
    entry as far as it was filled.  A number that does not fit its object
    is undefined in C; the model stores it wrapped to the object's width. *)
Definition sscanf_entry (line : cstring) : Z * package_db_entry_t :=
  match conv_s 255 line with
  | None => (-1, entry_zero)
  | Some (n, l1) =>
    match conv_s 63 (skip_space l1) with
    | None => (1, mk_entry n [] [] 0 0 0)
    | Some (v, l2) =>
      match conv_not_tab 511 (skip_space l2) with
      | None => (2, mk_entry n v [] 0 0 0)
      | Some (d, l3) =>
        match conv_int (skip_space l3) with
        | None => (3, mk_entry n v d 0 0 0)
        | Some (t, l4) =>
          let t := wrap_signed LONG_BITS t in
          match conv_int (skip_space l4) with
          | None => (4, mk_entry n v d t 0 0)
          | Some (sz, l5) =>
            let sz := wrap_unsigned LONG_BITS sz in
            match conv_int (skip_space l5) with
            | None => (5, mk_entry n v d t sz 0)
            | Some (s, _) => (6, mk_entry n v d t sz (wrap_signed INT_BITS s))
            end
          end
        end
      end
    end
  end.

(** The successive results of [fgets(line, cap + 1, fp)]: a line ends
    after its newline or when [cap] characters are in the buffer. *)
Fixpoint read_lines (cap : nat) (acc : cstring) (room : nat) (l : cstring)
  : list cstring :=
  match l with
  | [] => match acc with [] => [] | _ => [rev acc] end
  | c :: r =>
      if Ascii.eqb c NEWLINE then rev (c :: acc) :: read_lines cap [] cap r
      else match room with
           | S (S k) => read_lines cap (c :: acc) (S k) r
           | _ => rev (c :: acc) :: read_lines cap [] cap r
           end
  end.

Definition fgets_lines (content : cstring) : list cstring :=
  read_lines 1023 [] 1023 content.

(** One turn of the loop of [package_db_load]. *)
Definition load_line (head : list package_db_entry_t) (line : cstring)
  : list package_db_entry_t :=
  match line with
  | c :: _ =>
      if Ascii.eqb c HASH || Ascii.eqb c NEWLINE then head
      else let '(fields, entry) := sscanf_entry line in
           if 3 <=? fields then entry :: head else head
  | [] => head
  end.

Definition load_rows (head : list package_db_entry_t) (content : cstring)
  : list package_db_entry_t :=
  fold_left load_line (fgets_lines content) head.

(** ** Records of the C program *)

Inductive build_type_t :=
| BUILD_TYPE_AUTOTOOLS
| BUILD_TYPE_CMAKE
| BUILD_TYPE_MAKE
| BUILD_TYPE_CUSTOM.

(** [package_t], the fields the modelled functions read or write.  The
    string arrays are [NULL] exactly when they are empty
    ([json_parser_array_to_strings]). *)
Record package_t := mk_package {
  pkg_name : cstring;
  pkg_version : cstring;
  pkg_description : cstring;
  pkg_source_url : cstring;
  pkg_checksum : cstring;
  pkg_build_system : build_type_t;
  pkg_build_cmd : cstring;
  pkg_install_cmd : cstring;
  pkg_post_install_cmd : cstring;
  pkg_configure_args : cstring;
  pkg_dependencies : list cstring;
  pkg_conflicts : list cstring;
  pkg_size_estimate : Z;
  pkg_state : Z;
  pkg_install_time : Z
}.

Definition set_build_system (pkg : package_t) (b : build_type_t) : package_t :=
  mk_package (pkg_name pkg) (pkg_version pkg) (pkg_description pkg)
    (pkg_source_url pkg) (pkg_checksum pkg) b (pkg_build_cmd pkg)
    (pkg_install_cmd pkg) (pkg_post_install_cmd pkg) (pkg_configure_args pkg)
    (pkg_dependencies pkg) (pkg_conflicts pkg) (pkg_size_estimate pkg)
    (pkg_state pkg) (pkg_install_time pkg).

Definition set_install_time (pkg : package_t) (t : Z) : package_t :=
  mk_package (pkg_name pkg) (pkg_version pkg) (pkg_description pkg)
    (pkg_source_url pkg) (pkg_checksum pkg) (pkg_build_system pkg)
    (pkg_build_cmd pkg) (pkg_install_cmd pkg) (pkg_post_install_cmd pkg)
    (pkg_configure_args pkg) (pkg_dependencies pkg) (pkg_conflicts pkg)
    (pkg_size_estimate pkg) (pkg_state pkg) t.

(** [config_t], the settings the modelled functions consult. *)
Record config_t := mk_config {
  keep_build_dir : bool;
  force_mode : bool;
  skip_dependencies : bool;
  debug_symbols : bool;
  parallel_jobs : Z;
  install_prefix : cstring
}.

Inductive build_status_t :=
| BUILD_STATUS_INIT
| BUILD_STATUS_DOWNLOADING
| BUILD_STATUS_EXTRACTING
| BUILD_STATUS_CONFIGURING
| BUILD_STATUS_BUILDING
| BUILD_STATUS_INSTALLING
| BUILD_STATUS_COMPLETE
| BUILD_STATUS_FAILED.

(** [build_context_t]; [ctx_addr] is the address [calloc] returned, the
    identity that [remove_active_build] compares. *)
Record build_context_t := mk_ctx {
  ctx_addr : nat;
  ctx_package : package_t;
  ctx_build_dir : cstring;
  ctx_source_dir : cstring;
  ctx_install_dir : cstring;
  ctx_status : build_status_t;
  ctx_start_time : Z;
  ctx_end_time : Z
}.

Definition set_status (ctx : build_context_t) (s : build_status_t) : build_context_t :=
  mk_ctx (ctx_addr ctx) (ctx_package ctx) (ctx_build_dir ctx) (ctx_source_dir ctx)
    (ctx_install_dir ctx) s (ctx_start_time ctx) (ctx_end_time ctx).

Definition set_start_time (ctx : build_context_t) (t : Z) : build_context_t :=
  mk_ctx (ctx_addr ctx) (ctx_package ctx) (ctx_build_dir ctx) (ctx_source_dir ctx)
    (ctx_install_dir ctx) (ctx_status ctx) t (ctx_end_time ctx).

Definition set_end_time (ctx : build_context_t) (t : Z) : build_context_t :=
  mk_ctx (ctx_addr ctx) (ctx_package ctx) (ctx_build_dir ctx) (ctx_source_dir ctx)
    (ctx_install_dir ctx) (ctx_status ctx) (ctx_start_time ctx) t.

Definition set_ctx_package (ctx : build_context_t) (pkg : package_t) : build_context_t :=
  mk_ctx (ctx_addr ctx) pkg (ctx_build_dir ctx) (ctx_source_dir ctx)
    (ctx_install_dir ctx) (ctx_status ctx) (ctx_start_time ctx) (ctx_end_time ctx).

(** ** The outside world

    What the program does to its surroundings is recorded, in order, in a
    trace; what the surroundings answer is given by oracles that may
    depend on everything done so far. *)

Inductive event :=
| EvRun (cmd : cstring) (work_dir : option cstring)
| EvRunOutput (cmd : cstring)
| EvSystem (cmd : cstring)
| EvMkdir (path : cstring)
| EvRmdir (path : cstring)
| EvUnlink (path : cstring)
| EvDbSave (rows : list package_db_entry_t) (opened : bool).

Record env := mk_env {
  global_config : config_t;
  (** the catalogue: [json_parser_load_package] *)
  json_parser_load_package : cstring -> option package_t;
  (** [package_get_file_list], declared in [package.h] *)
  package_get_file_list : cstring -> option (list cstring);
  (** [basename(3)] behind [utils_get_basename] *)
  utils_get_basename : cstring -> option cstring;
  (** [stat] behind [utils_file_exists] *)
  file_exists : list event -> cstring -> bool;
  (** did the shell command exit with status 0 *)
  command_ok : list event -> cstring -> option cstring -> bool;
  (** [utils_run_command_with_output]: return code, output, exit code *)
  command_output : list event -> cstring -> Z * option cstring * Z;
  (** the status [system] returns *)
  system_status : list event -> cstring -> Z;
  mkdir_ok : list event -> cstring -> bool;
  rmdir_ok : list event -> cstring -> bool;
  (** can [installed.txt] be opened for writing *)
  fopen_w_ok : list event -> bool;
  (** [time(NULL)] *)
  time_now : list event -> Z
}.

(** The globals of the process: the database list and its flag
    ([package.c]), the file behind it, the table of running builds
    ([build.c]), the security context ([security.c]), and the trace. *)
Record state := mk_state {
  package_db_head : list package_db_entry_t;
  package_db_loaded : bool;
  installed_txt : option cstring;
  active_builds : list build_context_t;
  verify_checksums : bool;
  security_initialized : bool;
  trace : list event
}.

Definition emit (ev : event) (st : state) : state :=
  mk_state (package_db_head st) (package_db_loaded st) (installed_txt st)
    (active_builds st) (verify_checksums st) (security_initialized st)
    (trace st ++ [ev]).

Definition set_db (head : list package_db_entry_t) (st : state) : state :=
  mk_state head (package_db_loaded st) (installed_txt st)
    (active_builds st) (verify_checksums st) (security_initialized st) (trace st).

Definition set_db_loaded (head : list package_db_entry_t) (st : state) : state :=
  mk_state head true (installed_txt st)
    (active_builds st) (verify_checksums st) (security_initialized st) (trace st).

Definition set_installed_txt (content : cstring) (st : state) : state :=
  mk_state (package_db_head st) (package_db_loaded st) (Some content)
    (active_builds st) (verify_checksums st) (security_initialized st) (trace st).

Definition set_active_builds (tbl : list build_context_t) (st : state) : state :=
  mk_state (package_db_head st) (package_db_loaded st) (installed_txt st)
    tbl (verify_checksums st) (security_initialized st) (trace st).

Definition set_security (verify init : bool) (st : state) : state :=
  mk_state (package_db_head st) (package_db_loaded st) (installed_txt st)
    (active_builds st) verify init (trace st).

(** How a call that may recurse without bound, or leave the defined
    behaviour of C, ends in the model. *)
Inductive outcome :=
| Returns (code : Z)
| OutOfFuel
| Undefined.

Section Model.

Variable E : env.

(** ** Wrappers of the operating system ([utils.c]) *)

Definition utils_file_exists (path : cstring) (st : state) : bool :=
  file_exists E (trace st) path.

Definition utils_run_command (cmd : cstring) (work_dir : option cstring)
    (st : state) : Z * state :=
  ((if command_ok E (trace st) cmd work_dir then TINYPKG_SUCCESS else TINYPKG_ERROR),
   emit (EvRun cmd work_dir) st).

Definition utils_run_command_with_output (cmd : cstring) (st : state)
  : (Z * option cstring * Z) * state :=
  (command_output E (trace st) cmd, emit (EvRunOutput cmd) st).

Definition system (cmd : cstring) (st : state) : Z * state :=
  (system_status E (trace st) cmd, emit (EvSystem cmd) st).

Definition utils_create_directory_recursive (path : cstring) (st : state)
  : Z * state :=
  match path with
  | [] => (TINYPKG_ERROR, st)
  | _ => ((if mkdir_ok E (trace st) path then TINYPKG_SUCCESS else TINYPKG_ERROR),
          emit (EvMkdir path) st)
  end.

Definition utils_remove_directory_recursive (path : cstring) (st : state)
  : Z * state :=
  ((if rmdir_ok E (trace st) path then TINYPKG_SUCCESS else TINYPKG_ERROR),
   emit (EvRmdir path) st).

Definition unlink (path : cstring) (st : state) : state :=
  emit (EvUnlink path) st.

Definition utils_string_ends_with (str suffix : cstring) : bool :=
  if (length str <? length suffix)%nat then false
  else TINYPKG_STREQ (skipn (length str - length suffix) str) suffix.

(** ** Database operations ([package.c]) *)

Fixpoint package_db_find (package_name : cstring)
    (head : list package_db_entry_t) : option package_db_entry_t :=
  match head with
  | [] => None
  | entry :: next =>
      if TINYPKG_STREQ (entry_name entry) package_name then Some entry
      else package_db_find package_name next
  end.

Definition package_db_save (st : state) : Z * state :=
  if fopen_w_ok E (trace st)
  then (TINYPKG_SUCCESS,
        emit (EvDbSave (package_db_head st) true)
          (set_installed_txt (db_file_content (package_db_head st)) st))
  else (TINYPKG_ERROR_FILE, emit (EvDbSave (package_db_head st) false) st).

Definition package_db_load (st : state) : Z * state :=
  if package_db_loaded st then (TINYPKG_SUCCESS, st)
  else match installed_txt st with
       | None => (TINYPKG_SUCCESS, set_db_loaded (package_db_head st) st)
       | Some content =>
           (TINYPKG_SUCCESS,
            set_db_loaded (load_rows (package_db_head st) content) st)
       end.

(** The list without its first row named [package_name], or [None] when
    there is no such row. *)
Fixpoint unlink_entry (package_name : cstring)
    (head : list package_db_entry_t) : option (list package_db_entry_t) :=
  match head with
  | [] => None
  | entry :: next =>
      if TINYPKG_STREQ (entry_name entry) package_name then Some next
      else match unlink_entry package_name next with
           | Some next' => Some (entry :: next')
           | None => None
           end
  end.

Definition package_db_remove (package_name : cstring) (st : state) : Z * state :=
  match unlink_entry package_name (package_db_head st) with
  | Some head' => package_db_save (set_db head' st)
  | None => (TINYPKG_SUCCESS, st)
  end.

(** The row [package_db_add] fills in for a package. *)
Definition entry_of_package (pkg : package_t) : package_db_entry_t :=
  mk_entry (strncpy (MAX_NAME - 1) (pkg_name pkg))
           (strncpy (MAX_VERSION - 1) (pkg_version pkg))
           (strncpy (MAX_DESCRIPTION - 1) (pkg_description pkg))
           (pkg_install_time pkg)
           (pkg_size_estimate pkg)
           PKG_STATE_INSTALLED.

Definition package_db_add (pkg : package_t) (st : state) : Z * state :=
  let '(_, st1) := package_db_remove (pkg_name pkg) st in
  package_db_save (set_db (entry_of_package pkg :: package_db_head st1) st1).

(** Modelled from the spec: [package_db_get_all] is declared in
    [package.h] and has no definition in the sources; the spec's [all()]
    "returns an ordered sequence of all rows", here the list from its
    head. *)
Definition package_db_get_all (st : state) : list package_db_entry_t :=
  package_db_head st.

Definition package_is_installed (package_name : cstring) (st : state)
  : bool * state :=
  let '(r, st1) := package_db_load st in
  if negb (r =? TINYPKG_SUCCESS) then (false, st1)
  else (match package_db_find package_name (package_db_head st1) with
        | Some _ => true
        | None => false
        end, st1).

(** [entry->state = state] on the first row named [package_name]. *)
Fixpoint store_state (package_name : cstring) (s : Z)
    (head : list package_db_entry_t) : list package_db_entry_t :=
  match head with
  | [] => []
  | entry :: next =>
      if TINYPKG_STREQ (entry_name entry) package_name
      then mk_entry (entry_name entry) (entry_version entry)
             (entry_description entry) (entry_install_time entry)
             (entry_installed_size entry) s :: next
      else entry :: store_state package_name s next
  end.

Definition package_set_state (package_name : cstring) (s : Z) (st : state)
  : Z * state :=
  match package_db_find package_name (package_db_head st) with
  | Some _ =>
      package_db_save (set_db (store_state package_name s (package_db_head st)) st)
  | None => (TINYPKG_SUCCESS, st)
  end.

Definition package_load_info (package_name : cstring) : option package_t :=
  json_parser_load_package E package_name.

Definition package_validate (pkg : package_t) : Z :=
  match pkg_name pkg, pkg_version pkg, pkg_source_url pkg with
  | [], _, _ => TINYPKG_ERROR
  | _, [], _ => TINYPKG_ERROR
  | _, _, [] => TINYPKG_ERROR
  | _, _, _ => TINYPKG_SUCCESS
  end.

Fixpoint check_conflicts_from (conflicts : list cstring) (st : state)
  : Z * state :=
  match conflicts with
  | [] => (TINYPKG_SUCCESS, st)
  | c :: rest =>
      let '(inst, st1) := package_is_installed c st in
      if inst then (TINYPKG_ERROR_DEPENDENCY, st1)
      else check_conflicts_from rest st1
  end.

Definition package_check_conflicts (pkg : package_t) (st : state) : Z * state :=
  check_conflicts_from (pkg_conflicts pkg) st.

(** ** The dependency resolver ([dependency.c]) *)

Record dependency_node_t := mk_node {
  node_package_name : cstring;
  (** [NULL] exactly when empty: only non-empty arrays are stored *)
  node_dependencies : list cstring;
  node_visited : bool;
  node_in_stack : bool
}.

(** The linked list of nodes from [graph->nodes]; a node is identified
    by its position in it. *)
Record dependency_graph_t := mk_graph {
  nodes : list dependency_node_t;
  node_count : nat;
  has_cycles : bool
}.

Definition dependency_graph_create : dependency_graph_t := mk_graph [] 0 false.

Definition dependency_node_create (package_name : cstring) : dependency_node_t :=
  mk_node (strncpy (MAX_NAME - 1) package_name) [] false false.

(** Position of the first node named [package_name]. *)
Fixpoint find_node_from (ns : list dependency_node_t) (package_name : cstring)
  : option nat :=
  match ns with
  | [] => None
  | node :: next =>
      if TINYPKG_STREQ (node_package_name node) package_name then Some O
      else option_map S (find_node_from next package_name)
  end.

Definition dependency_graph_find_node (graph : dependency_graph_t)
    (package_name : cstring) : option nat :=
  find_node_from (nodes graph) package_name.

Definition dependency_graph_add_package (graph : dependency_graph_t)
    (package_name : cstring) : Z * dependency_graph_t :=
  match dependency_graph_find_node graph package_name with
  | Some _ => (TINYPKG_SUCCESS, graph)
  | None =>
      (TINYPKG_SUCCESS,
       mk_graph (dependency_node_create package_name :: nodes graph)
                (S (node_count graph)) (has_cycles graph))
  end.

(** Change the node at position [idx]. *)
Fixpoint update_node (f : dependency_node_t -> dependency_node_t) (idx : nat)
    (ns : list dependency_node_t) : list dependency_node_t :=
  match ns, idx with
  | [], _ => []
  | node :: next, O => f node :: next
  | node :: next, S i => node :: update_node f i next
  end.

Definition set_dependencies (deps : list cstring) (node : dependency_node_t) :=
  mk_node (node_package_name node) deps (node_visited node) (node_in_stack node).

Definition set_flags (visited in_stack : bool) (node : dependency_node_t) :=
  mk_node (node_package_name node) (node_dependencies node) visited in_stack.

Definition with_nodes (graph : dependency_graph_t) (ns : list dependency_node_t) :=
  mk_graph ns (node_count graph) (has_cycles graph).

(** The loop of [dependency_graph_build]: [todo] is the list from the
    cursor [node] on.  New nodes are linked in at the head of
    [graph->nodes], in front of the cursor, so the cursor stays
    [length rest] places before the end and never reaches them. *)
Fixpoint graph_build_walk (graph : dependency_graph_t)
    (todo : list dependency_node_t) : dependency_graph_t :=
  match todo with
  | [] => graph
  | node :: rest =>
      let graph' :=
        match node_dependencies node with
        | _ :: _ => graph
        | [] =>
            match package_load_info (node_package_name node) with
            | Some pkg =>
                match pkg_dependencies pkg with
                | [] => graph
                | deps =>
                    let idx := (length (nodes graph) - S (length rest))%nat in
                    fold_left
                      (fun g dep => snd (dependency_graph_add_package g dep))
                      deps
                      (with_nodes graph
                         (update_node (set_dependencies deps) idx (nodes graph)))
                end
            | None => graph
            end
        end in
      graph_build_walk graph' rest
  end.

Definition dependency_graph_build (graph : dependency_graph_t)
  : Z * dependency_graph_t :=
  (TINYPKG_SUCCESS, graph_build_walk graph (nodes graph)).

(** The first [j < node_count] whose node is named [name]: the inner
    search of both loops of the topological sort. *)
Definition first_named (graph : dependency_graph_t) (name : cstring) : option nat :=
  find_node_from (firstn (node_count graph) (nodes graph)) name.

(** [a[j] = f(a[j])]. *)
Fixpoint update_at (f : Z -> Z) (j : nat) (a : list Z) : list Z :=
  match a, j with
  | [], _ => []
  | x :: r, O => f x :: r
  | x :: r, S i => x :: update_at f i r
  end.

(** In-degrees: one more for the node each dependency string names. *)
Definition count_in_degrees (graph : dependency_graph_t) : list Z :=
  fold_left
    (fun in_degree node =>
       fold_left
         (fun in_degree dep =>
            match first_named graph dep with
            | Some j => update_at (fun d => d + 1) j in_degree
            | None => in_degree
            end)
         (node_dependencies node) in_degree)
    (nodes graph) (repeat 0 (node_count graph)).

(** Indices [i < n] with [in_degree[i] == 0], ascending. *)
Definition zero_in_degree (in_degree : list Z) (n : nat) : list nat :=
  filter (fun i => nth i in_degree 0 =? 0) (seq 0 n).

(** The loop over the dependencies of the node just emitted.  [queue]
    holds [queue[0 .. queue_end)]; the array has [node_count] slots and
    a store past its end is undefined ([None]). *)
Fixpoint release_dependencies (graph : dependency_graph_t) (deps : list cstring)
    (in_degree : list Z) (queue : list nat) : option (list Z * list nat) :=
  match deps with
  | [] => Some (in_degree, queue)
  | dep :: rest =>
      match first_named graph dep with
      | None => release_dependencies graph rest in_degree queue
      | Some j =>
          let in_degree' := update_at (fun d => d - 1) j in_degree in
          if nth j in_degree' 0 =? 0
          then if (length queue <? node_count graph)%nat
               then release_dependencies graph rest in_degree' (queue ++ [j])
               else None
          else release_dependencies graph rest in_degree' queue
      end
  end.

(** [while (queue_start < queue_end)].  Every turn advances
    [queue_start], which cannot pass the [node_count] slots of the queue:
    [fuel] starts at [node_count]. *)
Fixpoint kahn_loop (fuel : nat) (graph : dependency_graph_t)
    (in_degree : list Z) (queue : list nat) (queue_start : nat)
    (result : list cstring) : option (list cstring) :=
  match nth_error queue queue_start with
  | None => Some result
  | Some current_idx =>
      match fuel, nth_error (nodes graph) current_idx with
      | S fuel', Some current =>
          match release_dependencies graph (node_dependencies current)
                  in_degree queue with
          | Some (in_degree', queue') =>
              kahn_loop fuel' graph in_degree' queue' (S queue_start)
                (result ++ [node_package_name current])
          | None => None
          end
      | _, _ => None
      end
  end.

Definition dependency_graph_topological_sort (graph : dependency_graph_t)
  : option (Z * list cstring) :=
  match node_count graph with
  | O => Some (TINYPKG_SUCCESS, [])
  | _ =>
      let in_degree := count_in_degrees graph in
      match kahn_loop (node_count graph) graph in_degree
              (zero_in_degree in_degree (node_count graph)) 0 [] with
      | Some result =>
          if (length result =? node_count graph)%nat
          then Some (TINYPKG_SUCCESS, result)
          else Some (TINYPKG_ERROR_DEPENDENCY, [])
      | None => None
      end
  end.

(** The loop of [dfs_cycle_check] over the dependencies of the node at
    [idx]; [descend] is the recursive call. *)
Fixpoint dfs_visit
    (descend : nat -> list dependency_node_t -> option (bool * list dependency_node_t))
    (idx : nat) (deps : list cstring) (ns : list dependency_node_t)
  : option (bool * list dependency_node_t) :=
  match deps with
  | [] =>
      Some (false, update_node (fun n => set_flags (node_visited n) false n) idx ns)
  | dep :: rest =>
      match find_node_from ns dep with
      | None => dfs_visit descend idx rest ns
      | Some j =>
          match nth_error ns j with
          | None => dfs_visit descend idx rest ns
          | Some dep_node =>
              if node_in_stack dep_node then Some (true, ns)
              else if negb (node_visited dep_node)
              then match descend j ns with
                   | Some (true, ns') => Some (true, ns')
                   | Some (false, ns') => dfs_visit descend idx rest ns'
                   | None => None
                   end
              else dfs_visit descend idx rest ns
          end
      end
  end.

(** [dfs_cycle_check]: nodes are marked in the graph itself.  A call
    descends only into a node not yet visited and marks it, so the depth
    is bounded by the number of nodes, which is what [fuel] starts at. *)
Fixpoint dfs_cycle_check (fuel : nat) (idx : nat) (ns : list dependency_node_t)
  : option (bool * list dependency_node_t) :=
  match fuel with
  | O => None
  | S fuel' =>
      dfs_visit (dfs_cycle_check fuel') idx
        (match nth_error ns idx with
         | Some node => node_dependencies node
         | None => []
         end)
        (update_node (set_flags true true) idx ns)
  end.

(** The second loop of [dependency_detect_cycles], over positions
    [idx, idx + 1, ...] of the list. *)
Fixpoint detect_from (fuel : nat) (idx : nat) (count : nat)
    (ns : list dependency_node_t) : option (bool * list dependency_node_t) :=
  match count with
  | O => Some (false, ns)
  | S count' =>
      match nth_error ns idx with
      | None => Some (false, ns)
      | Some node =>
          if node_visited node then detect_from fuel (S idx) count' ns
          else match dfs_cycle_check fuel idx ns with
               | Some (true, ns') => Some (true, ns')
               | Some (false, ns') => detect_from fuel (S idx) count' ns'
               | None => None
               end
      end
  end.

Definition dependency_detect_cycles (graph : dependency_graph_t)
  : option (Z * dependency_graph_t) :=
  let ns := map (set_flags false false) (nodes graph) in
  match detect_from (S (length ns)) 0 (length ns) ns with
  | Some (true, ns') =>
      Some (TINYPKG_ERROR_DEPENDENCY, mk_graph ns' (node_count graph) true)
  | Some (false, ns') => Some (TINYPKG_SUCCESS, with_nodes graph ns')
  | None => None
  end.

(** [dependency_resolve]: the return code and [install_order] (its
    length is [*count]); [None] where the C program would leave defined
    behaviour. *)
Definition dependency_resolve (package_name : cstring)
  : option (Z * list cstring) :=
  let '(result, graph) :=
    dependency_graph_add_package dependency_graph_create package_name in
  if negb (result =? TINYPKG_SUCCESS) then Some (result, [])
  else
    let '(result, graph) := dependency_graph_build graph in
    if negb (result =? TINYPKG_SUCCESS) then Some (result, [])
    else
      match dependency_detect_cycles graph with
      | None => None
      | Some (result, graph) =>
          if negb (result =? TINYPKG_SUCCESS)
          then Some (TINYPKG_ERROR_DEPENDENCY, [])
          else dependency_graph_topological_sort graph
      end.

(** [dependency_find_dependents]: the names of the database rows whose
    catalogue entry lists [package_name] among its dependencies. *)
Definition dependency_find_dependents (package_name : cstring) (st : state)
  : (Z * list cstring) * state :=
  let '(r, st1) := package_db_load st in
  if negb (r =? TINYPKG_SUCCESS) then ((TINYPKG_ERROR, []), st1)
  else
    ((TINYPKG_SUCCESS,
      flat_map
        (fun entry =>
           match package_load_info (entry_name entry) with
           | Some pkg =>
               if existsb (fun dep => TINYPKG_STREQ dep package_name)
                    (pkg_dependencies pkg)
               then [entry_name entry] else []
           | None => []
           end)
        (package_db_get_all st1)),
     st1).

(** ** Checksum verification ([security.c]) *)

Inductive hash_type_t :=
| HASH_TYPE_MD5
| HASH_TYPE_SHA1
| HASH_TYPE_SHA256.

Definition security_init (st : state) : Z * state :=
  if security_initialized st then (TINYPKG_SUCCESS, st)
  else (TINYPKG_SUCCESS, set_security true true st).

Definition hash_command (type : hash_type_t) : cstring :=
  match type with
  | HASH_TYPE_MD5 => cstr "md5sum"
  | HASH_TYPE_SHA1 => cstr "sha1sum"
  | HASH_TYPE_SHA256 => cstr "sha256sum"
  end.

(** [strtok(result, " \t\n")]: the first token, if any. *)
Definition is_delimiter (c : ascii) : bool :=
  ((code c =? 32) || (code c =? 9) || (code c =? 10))%N.

Fixpoint skip_delimiters (l : cstring) : cstring :=
  match l with
  | c :: r => if is_delimiter c then skip_delimiters r else l
  | [] => []
  end.

Fixpoint take_token (l : cstring) : cstring :=
  match l with
  | c :: r => if is_delimiter c then [] else c :: take_token r
  | [] => []
  end.

Definition strtok_first (s : cstring) : option cstring :=
  match skip_delimiters s with
  | [] => None
  | l => Some (take_token l)
  end.

Definition run_hash_command (file_path hash_cmd : cstring) (output_size : nat)
    (st : state) : (Z * cstring) * state :=
  let cmd := snprintf MAX_CMD (hash_cmd ++ cstr " '" ++ file_path ++ cstr "'") in
  let '((r, result, exit_code), st1) := utils_run_command_with_output cmd st in
  if (r =? TINYPKG_SUCCESS) && (exit_code =? 0)
  then match result with
       | Some out =>
           match strtok_first out with
           | Some token => ((TINYPKG_SUCCESS, strncpy (output_size - 1) token), st1)
           | None => ((TINYPKG_ERROR, []), st1)
           end
       | None => ((TINYPKG_ERROR, []), st1)
       end
  else ((TINYPKG_ERROR, []), st1).

(** The return code and, on success, the digest written to
    [hash_output]. *)
Definition security_calculate_checksum (file_path : cstring) (hash_size : nat)
    (type : hash_type_t) (st : state) : (Z * cstring) * state :=
  match hash_size with
  | O => ((TINYPKG_ERROR, []), st)
  | _ =>
      if negb (utils_file_exists file_path st) then ((TINYPKG_ERROR, []), st)
      else
        let hash_cmd := hash_command type in
        let check_cmd :=
          snprintf MAX_CMD (cstr "which " ++ hash_cmd ++ cstr " >/dev/null 2>&1") in
        let '(status, st1) := system check_cmd st in
        if negb (status =? 0) then ((TINYPKG_ERROR, []), st1)
        else run_hash_command file_path hash_cmd hash_size st1
  end.

Definition security_verify_checksum (file_path expected_hash : cstring)
    (type : hash_type_t) (st : state) : Z * state :=
  if negb (verify_checksums st) then (TINYPKG_SUCCESS, st)
  else
    let '((result, calculated_hash), st1) :=
      security_calculate_checksum file_path 256 type st in
    if negb (result =? TINYPKG_SUCCESS) then (result, st1)
    else if strcasecmp_eq calculated_hash expected_hash
         then (TINYPKG_SUCCESS, st1)
         else (TINYPKG_ERROR, st1).

Definition security_detect_hash_type (hash_string : cstring) : hash_type_t :=
  if negb (forallb isxdigit hash_string) then HASH_TYPE_SHA256
  else match length hash_string with
       | 32%nat => HASH_TYPE_MD5
       | 40%nat => HASH_TYPE_SHA1
       | 64%nat => HASH_TYPE_SHA256
       | _ => HASH_TYPE_SHA256
       end.

Definition security_verify_package_integrity (pkg : package_t)
    (file_path : cstring) (st : state) : Z * state :=
  if negb (verify_checksums st) then (TINYPKG_SUCCESS, st)
  else match pkg_checksum pkg with
       | [] => (TINYPKG_SUCCESS, st)
       | _ =>
           security_verify_checksum file_path (pkg_checksum pkg)
             (security_detect_hash_type (pkg_checksum pkg)) st
       end.

(** ** The build runner ([build.c]) *)

(** [add_active_build]: the table [active_builds] has 16 slots, of which
    the first [active_build_count] are in use. *)
Definition add_active_build (ctx : build_context_t) (st : state) : Z * state :=
  if (16 <=? length (active_builds st))%nat then (TINYPKG_ERROR, st)
  else (TINYPKG_SUCCESS, set_active_builds (active_builds st ++ [ctx]) st).

Fixpoint remove_first_addr (addr : nat) (tbl : list build_context_t)
  : list build_context_t :=
  match tbl with
  | [] => []
  | c :: rest =>
      if (ctx_addr c =? addr)%nat then rest
      else c :: remove_first_addr addr rest
  end.

Definition remove_active_build (ctx : build_context_t) (st : state) : state :=
  set_active_builds (remove_first_addr (ctx_addr ctx) (active_builds st)) st.

(** A store through the pointer [ctx]: the table holds pointers, so a
    context that is in the table changes there too. *)
Definition write_ctx (ctx : build_context_t) (st : state) : state :=
  set_active_builds
    (map (fun c => if (ctx_addr c =? ctx_addr ctx)%nat then ctx else c)
       (active_builds st)) st.

Definition build_is_running (package_name : cstring) (st : state) : bool :=
  existsb (fun c => TINYPKG_STREQ (pkg_name (ctx_package c)) package_name)
    (active_builds st).

(** An address [calloc] can return: different from every live context. *)
Definition fresh_addr (st : state) : nat :=
  S (fold_right Nat.max O (map ctx_addr (active_builds st))).

Definition build_context_setup_directories (ctx : build_context_t) (st : state)
  : Z * state :=
  let '(r1, st1) := utils_create_directory_recursive (ctx_build_dir ctx) st in
  let '(r2, st2) := utils_create_directory_recursive (ctx_source_dir ctx) st1 in
  let '(r3, st3) := utils_create_directory_recursive (ctx_install_dir ctx) st2 in
  ((if Z.lor (Z.lor (Z.lor 0 r1) r2) r3 =? 0 then TINYPKG_SUCCESS else TINYPKG_ERROR),
   st3).

Definition build_context_create (pkg : package_t) (st : state)
  : option build_context_t * state :=
  let build_dir :=
    snprintf MAX_PATH
      (CACHE_DIR ++ cstr "/builds/" ++ pkg_name pkg ++ cstr "-" ++ pkg_version pkg) in
  let source_dir := snprintf MAX_PATH (build_dir ++ cstr "/source") in
  let install_dir := snprintf MAX_PATH (build_dir ++ cstr "/install") in
  let ctx := mk_ctx (fresh_addr st) pkg build_dir source_dir install_dir
               BUILD_STATUS_INIT 0 0 in
  let '(r, st1) := build_context_setup_directories ctx st in
  if negb (r =? TINYPKG_SUCCESS) then (None, st1) else (Some ctx, st1).

Definition build_context_cleanup (ctx : build_context_t) (st : state) : Z * state :=
  utils_remove_directory_recursive (ctx_build_dir ctx) st.

Definition sources_path (basename : cstring) : cstring :=
  snprintf MAX_PATH (CACHE_DIR ++ cstr "/sources/" ++ basename).

Definition build_download_source (ctx : build_context_t) (st : state) : Z * state :=
  let pkg := ctx_package ctx in
  match utils_get_basename E (pkg_source_url pkg) with
  | None => (TINYPKG_ERROR, st)
  | Some basename =>
      let download_path := sources_path basename in
      if utils_file_exists download_path st then (TINYPKG_SUCCESS, st)
      else
        let sources_dir := snprintf MAX_PATH (CACHE_DIR ++ cstr "/sources") in
        let '(_, st1) := utils_create_directory_recursive sources_dir st in
        let cmd :=
          snprintf MAX_CMD
            (cstr "wget -O '" ++ download_path ++ cstr "' '" ++ pkg_source_url pkg
             ++ cstr "' || curl -o '" ++ download_path ++ cstr "' -L '"
             ++ pkg_source_url pkg ++ cstr "'") in
        utils_run_command cmd None st1
  end.

Definition extract_command (basename archive_path source_dir : cstring)
  : option cstring :=
  if utils_string_ends_with basename (cstr ".tar.gz")
     || utils_string_ends_with basename (cstr ".tgz")
  then Some (snprintf MAX_CMD
               (cstr "tar -xzf '" ++ archive_path ++ cstr "' -C '" ++ source_dir
                ++ cstr "' --strip-components=1"))
  else if utils_string_ends_with basename (cstr ".tar.bz2")
          || utils_string_ends_with basename (cstr ".tbz2")
  then Some (snprintf MAX_CMD
               (cstr "tar -xjf '" ++ archive_path ++ cstr "' -C '" ++ source_dir
                ++ cstr "' --strip-components=1"))
  else if utils_string_ends_with basename (cstr ".tar.xz")
  then Some (snprintf MAX_CMD
               (cstr "tar -xJf '" ++ archive_path ++ cstr "' -C '" ++ source_dir
                ++ cstr "' --strip-components=1"))
  else if utils_string_ends_with basename (cstr ".zip")
  then Some (snprintf MAX_CMD
               (cstr "unzip -q '" ++ archive_path ++ cstr "' -d '" ++ source_dir
                ++ cstr "'"))
  else None.

Definition build_extract_source (ctx : build_context_t) (st : state) : Z * state :=
  let pkg := ctx_package ctx in
  match utils_get_basename E (pkg_source_url pkg) with
  | None => (TINYPKG_ERROR, st)
  | Some basename =>
      let archive_path := sources_path basename in
      if negb (utils_file_exists archive_path st) then (TINYPKG_ERROR, st)
      else match extract_command basename archive_path (ctx_source_dir ctx) with
           | Some cmd => utils_run_command cmd None st
           | None => (TINYPKG_ERROR, st)
           end
  end.

Definition build_detect_system (source_dir : cstring) (st : state) : build_type_t :=
  if utils_file_exists (snprintf MAX_PATH (source_dir ++ cstr "/CMakeLists.txt")) st
  then BUILD_TYPE_CMAKE
  else if utils_file_exists (snprintf MAX_PATH (source_dir ++ cstr "/configure")) st
  then BUILD_TYPE_AUTOTOOLS
  else if utils_file_exists (snprintf MAX_PATH (source_dir ++ cstr "/Makefile")) st
  then BUILD_TYPE_MAKE
  else BUILD_TYPE_AUTOTOOLS.

Definition build_run_autotools (ctx : build_context_t) (st : state) : Z * state :=
  let configure_path := snprintf MAX_PATH (ctx_source_dir ctx ++ cstr "/configure") in
  let st1 :=
    if negb (utils_file_exists configure_path st)
    then snd (utils_run_command
                (snprintf MAX_CMD (cstr "./autogen.sh || autoreconf -fiv || ./bootstrap"))
                (Some (ctx_source_dir ctx)) st)
    else st in
  let prefix := install_prefix (global_config E) in
  let args := pkg_configure_args (ctx_package ctx) in
  let cmd :=
    match args with
    | [] => snprintf MAX_CMD (cstr "./configure --prefix=" ++ prefix)
    | _ => snprintf MAX_CMD (cstr "./configure --prefix=" ++ prefix ++ cstr " " ++ args)
    end in
  utils_run_command cmd (Some (ctx_source_dir ctx)) st1.

Definition build_run_cmake (ctx : build_context_t) (st : state) : Z * state :=
  let prefix := install_prefix (global_config E) in
  let build_type :=
    if debug_symbols (global_config E) then cstr "Debug" else cstr "Release" in
  let cmd :=
    snprintf MAX_CMD
      (cstr "cmake -DCMAKE_BUILD_TYPE=" ++ build_type
       ++ cstr " -DCMAKE_INSTALL_PREFIX=" ++ prefix ++ cstr " "
       ++ pkg_configure_args (ctx_package ctx) ++ cstr " .") in
  utils_run_command cmd (Some (ctx_source_dir ctx)) st.

Definition build_run_custom (ctx : build_context_t) : Z :=
  match pkg_build_cmd (ctx_package ctx) with
  | [] => TINYPKG_ERROR
  | _ => TINYPKG_SUCCESS
  end.

(** The configure step may rewrite [pkg->build_system]; the package is
    the caller's object, so the changed context is returned. *)
Definition build_configure_package (ctx : build_context_t) (st : state)
  : Z * build_context_t * state :=
  let pkg := ctx_package ctx in
  let pkg' :=
    match pkg_build_system pkg, pkg_build_cmd pkg with
    | BUILD_TYPE_AUTOTOOLS, [] =>
        set_build_system pkg (build_detect_system (ctx_source_dir ctx) st)
    | _, _ => pkg
    end in
  let ctx' := set_ctx_package ctx pkg' in
  let st' := write_ctx ctx' st in
  match pkg_build_system pkg' with
  | BUILD_TYPE_AUTOTOOLS =>
      let '(r, st1) := build_run_autotools ctx' st' in (r, ctx', st1)
  | BUILD_TYPE_CMAKE =>
      let '(r, st1) := build_run_cmake ctx' st' in (r, ctx', st1)
  | BUILD_TYPE_MAKE => (TINYPKG_SUCCESS, ctx', st')
  | BUILD_TYPE_CUSTOM => (build_run_custom ctx', ctx', st')
  end.

Definition build_compile_package (ctx : build_context_t) (st : state) : Z * state :=
  let pkg := ctx_package ctx in
  let cmd :=
    match pkg_build_cmd pkg with
    | [] => snprintf MAX_CMD
              (cstr "make -j" ++ fmt_d (wrap_signed INT_BITS (parallel_jobs (global_config E))))
    | _ => strncpy (MAX_CMD - 1) (pkg_build_cmd pkg)
    end in
  utils_run_command cmd (Some (ctx_source_dir ctx)) st.

Definition build_install_files (ctx : build_context_t) (st : state) : Z * state :=
  let pkg := ctx_package ctx in
  let cmd :=
    match pkg_install_cmd pkg with
    | [] => snprintf MAX_CMD
              (cstr "make install DESTDIR='" ++ ctx_install_dir ctx
               ++ cstr "' PREFIX='" ++ install_prefix (global_config E) ++ cstr "'")
    | _ => strncpy (MAX_CMD - 1) (pkg_install_cmd pkg)
    end in
  let '(result, st1) := utils_run_command cmd (Some (ctx_source_dir ctx)) st in
  if result =? TINYPKG_SUCCESS
  then utils_run_command
         (snprintf MAX_CMD
            (cstr "cp -a '" ++ ctx_install_dir ctx ++ cstr "'/* / 2>/dev/null || true"))
         None st1
  else (result, st1).

(** A status store [ctx->status = s]. *)
Definition enter (s : build_status_t) (ctx : build_context_t) (st : state)
  : build_context_t * state :=
  let ctx' := set_status ctx s in (ctx', write_ctx ctx' st).

(** The four steps of [build_package], from the first status store to
    the label [cleanup]. *)
Definition build_steps (ctx : build_context_t) (st : state)
  : Z * build_context_t * state :=
  let '(ctx, st) := enter BUILD_STATUS_DOWNLOADING ctx st in
  let '(result, st) := build_download_source ctx st in
  if negb (result =? TINYPKG_SUCCESS) then (result, ctx, st)
  else
    let '(ctx, st) := enter BUILD_STATUS_EXTRACTING ctx st in
    let '(result, st) := build_extract_source ctx st in
    if negb (result =? TINYPKG_SUCCESS) then (result, ctx, st)
    else
      let '(ctx, st) := enter BUILD_STATUS_CONFIGURING ctx st in
      let '(result, ctx, st) := build_configure_package ctx st in
      if negb (result =? TINYPKG_SUCCESS) then (result, ctx, st)
      else
        let '(ctx, st) := enter BUILD_STATUS_BUILDING ctx st in
        let '(result, st) := build_compile_package ctx st in
        if negb (result =? TINYPKG_SUCCESS) then (result, ctx, st)
        else
          let '(ctx, st) := enter BUILD_STATUS_COMPLETE ctx st in
          let ctx := set_end_time ctx (time_now E (trace st)) in
          (result, ctx, write_ctx ctx st).

(** [build_package]: the return code, the package as the build left it,
    and the state. *)
Definition build_package (pkg : package_t) (st : state) : Z * package_t * state :=
  match build_context_create pkg st with
  | (None, st) => (TINYPKG_ERROR_MEMORY, pkg, st)
  | (Some ctx, st) =>
      let ctx := set_start_time ctx (time_now E (trace st)) in
      let '(_, st) := add_active_build ctx st in
      let '(result, ctx, st) := build_steps ctx st in
      let '(ctx, st) :=
        if negb (result =? TINYPKG_SUCCESS)
        then let ctx := set_end_time (set_status ctx BUILD_STATUS_FAILED)
                          (time_now E (trace st)) in
             (ctx, write_ctx ctx st)
        else (ctx, st) in
      let st := remove_active_build ctx st in
      let st :=
        if negb (keep_build_dir (global_config E)) || negb (result =? TINYPKG_SUCCESS)
        then snd (build_context_cleanup ctx st)
        else st in
      (result, ctx_package ctx, st)
  end.

Definition build_install_package (pkg : package_t) (st : state) : Z * state :=
  match build_context_create pkg st with
  | (None, st) => (TINYPKG_ERROR_MEMORY, st)
  | (Some ctx, st) => build_install_files (set_status ctx BUILD_STATUS_INSTALLING) st
  end.

(** ** The lifecycle orchestrator ([package.c]) *)

(** The loop of [package_install] over [install_order]: every entry
    that is not installed is installed by [install], the recursive call;
    a failure marks [package_name] failed. *)
Fixpoint install_each (install : cstring -> state -> outcome * state)
    (package_name : cstring) (order : list cstring) (st : state)
  : outcome * state :=
  match order with
  | [] => (Returns TINYPKG_SUCCESS, st)
  | dep :: rest =>
      let '(installed, st) := package_is_installed dep st in
      if installed then install_each install package_name rest st
      else
        match install dep st with
        | (Returns result, st) =>
            if negb (result =? TINYPKG_SUCCESS)
            then let '(_, st) := package_set_state package_name PKG_STATE_FAILED st in
                 (Returns result, st)
            else install_each install package_name rest st
        | unfinished => unfinished
        end
  end.

(** The dependency block of [package_install]. *)
Definition install_dependencies (install : cstring -> state -> outcome * state)
    (package_name : cstring) (pkg : package_t) (st : state) : outcome * state :=
  match skip_dependencies (global_config E), pkg_dependencies pkg with
  | false, _ :: _ =>
      match dependency_resolve package_name with
      | None => (Undefined, st)
      | Some (result, install_order) =>
          if negb (result =? TINYPKG_SUCCESS)
          then let '(_, st) := package_set_state package_name PKG_STATE_FAILED st in
               (Returns result, st)
          else install_each install package_name
                 (firstn (length install_order - 1) install_order) st
      end
  | _, _ => (Returns TINYPKG_SUCCESS, st)
  end.

(** The rest of [package_install], from "Build and install the
    package" on. *)
Definition build_and_register (package_name : cstring) (pkg : package_t)
    (st : state) : outcome * state :=
  let '(_, st) := package_set_state package_name PKG_STATE_BUILDING st in
  let '(result, pkg, st) := build_package pkg st in
  if negb (result =? TINYPKG_SUCCESS)
  then let '(_, st) := package_set_state package_name PKG_STATE_FAILED st in
       (Returns result, st)
  else
  let '(_, st) := package_set_state package_name PKG_STATE_INSTALLING st in
  let '(result, st) := build_install_package pkg st in
  if negb (result =? TINYPKG_SUCCESS)
  then let '(_, st) := package_set_state package_name PKG_STATE_FAILED st in
       (Returns result, st)
  else
  let pkg := set_install_time pkg (time_now E (trace st)) in
  let '(_, st) := package_set_state package_name PKG_STATE_INSTALLED st in
  let '(_, st) := package_db_add pkg st in
  let st :=
    match pkg_post_install_cmd pkg with
    | [] => st
    | cmd => snd (utils_run_command cmd None st)
    end in
  (Returns TINYPKG_SUCCESS, st).

(** [package_install] calls itself for every dependency that is not
    installed; [fuel] bounds the depth of these calls, and a call that
    would go deeper ends as [OutOfFuel] in the state reached so far. *)
Fixpoint package_install (fuel : nat) (package_name : cstring) (st : state)
  : outcome * state :=
  match fuel with
  | O => (OutOfFuel, st)
  | S fuel' =>
    let '(installed, st) := package_is_installed package_name st in
    if installed && negb (force_mode (global_config E))
    then (Returns TINYPKG_SUCCESS, st)
    else
    match package_load_info package_name with
    | None => (Returns TINYPKG_ERROR, st)
    | Some pkg =>
      let result := package_validate pkg in
      if negb (result =? TINYPKG_SUCCESS) then (Returns result, st)
      else
      let '(result, st) := package_check_conflicts pkg st in
      if negb (result =? TINYPKG_SUCCESS) then (Returns result, st)
      else
      let '(_, st) := package_set_state package_name PKG_STATE_DOWNLOADING st in
      match install_dependencies (package_install fuel') package_name pkg st with
      | (Returns 0, st) => build_and_register package_name pkg st
      | stopped => stopped
      end
    end
  end.

Definition package_remove (package_name : cstring) (st : state) : Z * state :=
  let '(installed, st) := package_is_installed package_name st in
  if negb installed then (TINYPKG_SUCCESS, st)
  else
  match package_db_find package_name (package_db_head st) with
  | None => (TINYPKG_ERROR, st)
  | Some db_entry =>
    let '(blocked, st) :=
      if negb (force_mode (global_config E))
      then let '((result, dependents), st) :=
             dependency_find_dependents package_name st in
           ((result =? TINYPKG_SUCCESS) && (0 <? length dependents)%nat, st)
      else (false, st) in
    if blocked then (TINYPKG_ERROR_DEPENDENCY, st)
    else
      let st :=
        match package_get_file_list E package_name with
        | Some file_list => fold_left (fun st f => unlink f st) (rev file_list) st
        | None => st
        end in
      let '(_, st) := package_db_remove package_name st in
      (TINYPKG_SUCCESS, st)
  end.

End Model.

(** * More of the program *)

(** ** Package states ([package.c]) *)

Definition package_state_to_string (state : Z) : cstring :=
  if state =? PKG_STATE_UNKNOWN then cstr "unknown"
  else if state =? PKG_STATE_AVAILABLE then cstr "available"
  else if state =? PKG_STATE_DOWNLOADING then cstr "downloading"
  else if state =? PKG_STATE_BUILDING then cstr "building"
  else if state =? PKG_STATE_INSTALLING then cstr "installing"
  else if state =? PKG_STATE_INSTALLED then cstr "installed"
  else if state =? PKG_STATE_FAILED then cstr "failed"
  else if state =? PKG_STATE_BROKEN then cstr "broken"
  else cstr "invalid".

Definition package_state_from_string (state_str : cstring) : Z :=
  if TINYPKG_STREQ state_str (cstr "available") then PKG_STATE_AVAILABLE
  else if TINYPKG_STREQ state_str (cstr "downloading") then PKG_STATE_DOWNLOADING
  else if TINYPKG_STREQ state_str (cstr "building") then PKG_STATE_BUILDING
  else if TINYPKG_STREQ state_str (cstr "installing") then PKG_STATE_INSTALLING
  else if TINYPKG_STREQ state_str (cstr "installed") then PKG_STATE_INSTALLED
  else if TINYPKG_STREQ state_str (cstr "failed") then PKG_STATE_FAILED
  else if TINYPKG_STREQ state_str (cstr "broken") then PKG_STATE_BROKEN
  else PKG_STATE_UNKNOWN.

Definition package_get_state (package_name : cstring) (st : state) : Z :=
  match package_db_find package_name (package_db_head st) with
  | Some entry => entry_state entry
  | None => PKG_STATE_UNKNOWN
  end.

(** ** Log levels and filters ([logging.c]) *)

Definition LOG_DEBUG : Z := 0.
Definition LOG_INFO : Z := 1.
Definition LOG_WARN : Z := 2.
Definition LOG_ERROR : Z := 3.
Definition LOG_FATAL : Z := 4.

Definition LOG_LEVEL_STRINGS : list cstring :=
  [cstr "DEBUG"; cstr "INFO"; cstr "WARN"; cstr "ERROR"; cstr "FATAL"].

Definition log_level_to_string (level : Z) : cstring :=
  if (0 <=? level) && (level <? Z.of_nat (length LOG_LEVEL_STRINGS))
  then nth (Z.to_nat level) LOG_LEVEL_STRINGS []
  else cstr "UNKNOWN".

Definition log_level_from_string (level_str : cstring) : Z :=
  if strcasecmp_eq level_str (cstr "debug") then LOG_DEBUG
  else if strcasecmp_eq level_str (cstr "info") then LOG_INFO
  else if strcasecmp_eq level_str (cstr "warn") then LOG_WARN
  else if strcasecmp_eq level_str (cstr "error") then LOG_ERROR
  else if strcasecmp_eq level_str (cstr "fatal") then LOG_FATAL
  else LOG_INFO.

(** The table [g_filters] of 8 slots: the list holds the first
    [g_filter_count] of them, a function pointer being its address and
    0 the null pointer. *)
Definition MAX_FILTERS : nat := 8.

Definition logging_add_filter (filter : Z) (g_filters : list Z) : Z * list Z :=
  if (filter =? 0) || (MAX_FILTERS <=? length g_filters)%nat then (-1, g_filters)
  else (0, g_filters ++ [filter]).

(** The search of [logging_remove_filter] with the shift of the slots
    behind the one found. *)
Fixpoint remove_filter_from (filter : Z) (g_filters : list Z) : option (list Z) :=
  match g_filters with
  | [] => None
  | f :: rest =>
      if f =? filter then Some rest
      else match remove_filter_from filter rest with
           | Some rest' => Some (f :: rest')
           | None => None
           end
  end.

Definition logging_remove_filter (filter : Z) (g_filters : list Z) : Z * list Z :=
  if filter =? 0 then (-1, g_filters)
  else match remove_filter_from filter g_filters with
       | Some g_filters' => (0, g_filters')
       | None => (-1, g_filters)
       end.

Definition logging_clear_filters (g_filters : list Z) : list Z := [].

(** [apply_filters]: [verdict f] is what the filter at address [f]
    returns for the message at hand. *)
Fixpoint apply_filters (verdict : Z -> bool) (g_filters : list Z) : bool :=
  match g_filters with
  | [] => true
  | f :: rest =>
      if negb (f =? 0) && negb (verdict f) then false
      else apply_filters verdict rest
  end.

(** ** String and path helpers ([utils.c]) *)

Definition NUL : ascii := ascii_of_N 0.
Definition SLASH : ascii := ascii_of_N 47.

(** The second loop of [utils_string_trim]: [end_] walks down from the
    last character while it is above the first and on white space. *)
Fixpoint trim_end (end_ : nat) (str : cstring) : nat :=
  match end_ with
  | O => O
  | S e => if isspace (nth (S e) str NUL) then trim_end e str else S e
  end.

Definition utils_string_trim (str : cstring) : cstring :=
  match skip_space str with
  | [] => []
  | s => firstn (S (trim_end (length s - 1) s)) s
  end.

(** [strncmp(a, b, n) == 0]. *)
Fixpoint strncmp_eq (n : nat) (a b : cstring) : bool :=
  match n with
  | O => true
  | S n' =>
      match a, b with
      | [], [] => true
      | x :: a', y :: b' => Ascii.eqb x y && strncmp_eq n' a' b'
      | _, _ => false
      end
  end.

Definition utils_string_starts_with (str prefix : cstring) : bool :=
  strncmp_eq (length prefix) str prefix.

(** [c] is one of the characters of the string [set]. *)
Definition in_set (set : cstring) (c : ascii) : bool :=
  existsb (Ascii.eqb c) set.

(** The two scans of one [strtok] call: over the delimiters in front,
    then over the token, whose end is overwritten; the second component
    is where the next call resumes. *)
Fixpoint strtok_skip (delimiter s : cstring) : cstring :=
  match s with
  | c :: r => if in_set delimiter c then strtok_skip delimiter r else s
  | [] => []
  end.

Fixpoint strtok_token (delimiter s : cstring) : cstring * cstring :=
  match s with
  | [] => ([], [])
  | c :: r =>
      if in_set delimiter c then ([], r)
      else let '(t, rest) := strtok_token delimiter r in (c :: t, rest)
  end.

Definition strtok (delimiter s : cstring) : option (cstring * cstring) :=
  match strtok_skip delimiter s with
  | [] => None
  | l => Some (strtok_token delimiter l)
  end.

(** [strtok] until it returns NULL; every call consumes a character, so
    [fuel] above the length of the string is never used up. *)
Fixpoint strtok_loop (fuel : nat) (delimiter s : cstring) : list cstring :=
  match fuel with
  | O => []
  | S f =>
      match strtok delimiter s with
      | None => []
      | Some (t, rest) => t :: strtok_loop f delimiter rest
      end
  end.

(** [utils_string_split]: a first pass counts the tokens, a second one
    stores at most that many; [None] is the NULL returned with a count
    of 0. *)
Definition utils_string_split (str delimiter : cstring) : option (list cstring) :=
  let count := length (strtok_loop (S (length str)) delimiter str) in
  if (count =? 0)%nat then None
  else Some (firstn count (strtok_loop (S (length str)) delimiter str)).

(** [utils_join_path]: the text, and the size of the buffer it is
    written to. *)
Definition utils_join_path (dir file : cstring) : cstring * nat :=
  (dir ++
   (if (0 <? length dir)%nat && negb (Ascii.eqb (nth (length dir - 1) dir NUL) SLASH)
    then [SLASH] else []) ++
   file,
   length dir + length file + 2)%nat.

(** ** Path validation ([security.c]) *)

(** [strstr(haystack, needle)]: the rest of [haystack] from the first
    occurrence on. *)
Fixpoint strstr (haystack needle : cstring) : option cstring :=
  if strncmp_eq (length needle) haystack needle then Some haystack
  else match haystack with
       | [] => None
       | _ :: r => strstr r needle
       end.

(** [strcspn(s, reject)]. *)
Fixpoint strcspn (s reject : cstring) : nat :=
  match s with
  | [] => O
  | c :: r => if in_set reject c then O else S (strcspn r reject)
  end.

Definition security_validate_path (path : cstring) : Z :=
  if (length path =? 0)%nat then TINYPKG_ERROR
  else match strstr path (cstr "..") with
       | Some _ => TINYPKG_ERROR
       | None =>
           if negb (length path =? strcspn path [])%nat then TINYPKG_ERROR
           else if (MAX_PATH - 1 <? length path)%nat then TINYPKG_ERROR
           else TINYPKG_SUCCESS
       end.

(** ** The configuration parser ([config.c]) *)

(** [config_entry_t] and [config_section_t]: [key] has 128 bytes,
    [value] 512 and a section's [name] 128; the lists are the chains
    through [next], head first. *)
Record config_entry_t := mk_config_entry {
  cfg_key : cstring;
  cfg_value : cstring
}.

Record config_section_t := mk_config_section {
  cfg_name : cstring;
  cfg_entries : list config_entry_t
}.

Definition CFG_KEY_SIZE : nat := 128.
Definition CFG_VALUE_SIZE : nat := 512.
Definition CFG_NAME_SIZE : nat := 128.

(** The static [trim_whitespace] of [config.c], the same code as
    [utils_string_trim]. *)
Definition trim_whitespace (str : cstring) : cstring :=
  match skip_space str with
  | [] => []
  | s => firstn (S (trim_end (length s - 1) s)) s
  end.

Fixpoint find_entry (key : cstring) (entries : list config_entry_t)
  : option cstring :=
  match entries with
  | [] => None
  | entry :: next =>
      if TINYPKG_STREQ (cfg_key entry) key then Some (cfg_value entry)
      else find_entry key next
  end.

(** [config_parser_get_value]: only the first section of that name is
    searched. *)
Fixpoint config_parser_get_value (sections : list config_section_t)
    (section_name key : cstring) : option cstring :=
  match sections with
  | [] => None
  | section :: next =>
      if TINYPKG_STREQ (cfg_name section) section_name
      then find_entry key (cfg_entries section)
      else config_parser_get_value next section_name key
  end.

(** The entries after the store of [config_parser_set_value]: the first
    entry with that key gets the value, or a new entry is linked in
    front. *)
Fixpoint overwrite_entry (key value : cstring) (entries : list config_entry_t)
  : option (list config_entry_t) :=
  match entries with
  | [] => None
  | entry :: next =>
      if TINYPKG_STREQ (cfg_key entry) key
      then Some (mk_config_entry (cfg_key entry) (strncpy (CFG_VALUE_SIZE - 1) value)
                   :: next)
      else match overwrite_entry key value next with
           | Some next' => Some (entry :: next')
           | None => None
           end
  end.

Definition store_entry (key value : cstring) (entries : list config_entry_t)
  : list config_entry_t :=
  match overwrite_entry key value entries with
  | Some entries' => entries'
  | None =>
      mk_config_entry (strncpy (CFG_KEY_SIZE - 1) key)
        (strncpy (CFG_VALUE_SIZE - 1) value) :: entries
  end.

Fixpoint store_in_section (section_name key value : cstring)
    (sections : list config_section_t) : option (list config_section_t) :=
  match sections with
  | [] => None
  | section :: next =>
      if TINYPKG_STREQ (cfg_name section) section_name
      then Some (mk_config_section (cfg_name section)
                   (store_entry key value (cfg_entries section)) :: next)
      else match store_in_section section_name key value next with
           | Some next' => Some (section :: next')
           | None => None
           end
  end.

Definition config_parser_set_value (sections : list config_section_t)
    (section_name key value : cstring) : Z * list config_section_t :=
  match store_in_section section_name key value sections with
  | Some sections' => (0, sections')
  | None =>
      (0, mk_config_section (strncpy (CFG_NAME_SIZE - 1) section_name)
            (store_entry key value []) :: sections)
  end.

(** [strchr(s, c)]: the text before the first [c] and the text after
    it. *)
Fixpoint strchr (s : cstring) (c : ascii) : option (cstring * cstring) :=
  match s with
  | [] => None
  | x :: r =>
      if Ascii.eqb x c then Some ([], r)
      else match strchr r c with
           | Some (before, after) => Some (x :: before, after)
           | None => None
           end
  end.

(** [strrchr(s, c)] followed by a terminator stored there: the text
    before the last [c], or [s] when there is none. *)
Fixpoint cut_at_last (s : cstring) (c : ascii) : option cstring :=
  match s with
  | [] => None
  | x :: r =>
      match cut_at_last r c with
      | Some before => Some (x :: before)
      | None => if Ascii.eqb x c then Some [] else None
      end
  end.

Definition DQUOTE : ascii := ascii_of_N 34.
Definition SQUOTE : ascii := ascii_of_N 39.
Definition LBRACKET : ascii := ascii_of_N 91.
Definition RBRACKET : ascii := ascii_of_N 93.
Definition EQUALS : ascii := ascii_of_N 61.

(** Quotes around a value are taken away. *)
Definition remove_quotes (value : cstring) : cstring :=
  match value with
  | q :: rest =>
      if Ascii.eqb q DQUOTE || Ascii.eqb q SQUOTE
      then match cut_at_last rest q with
           | Some inner => inner
           | None => rest
           end
      else value
  | [] => []
  end.

(** The loop of [config_parser_load_file] over the lines [fgets]
    returns.  [current_section] is the section the last header made,
    which that header linked in front of [sections]: the chain of the
    parser is [current_section] followed by [sections]. *)
Fixpoint config_parse_lines (lines : list cstring)
    (current_section : option config_section_t)
    (sections : list config_section_t)
  : Z * (option config_section_t * list config_section_t) :=
  match lines with
  | [] => (0, (current_section, sections))
  | line :: rest =>
      match trim_whitespace line with
      | [] => config_parse_lines rest current_section sections
      | c :: body =>
          if Ascii.eqb c HASH then config_parse_lines rest current_section sections
          else if Ascii.eqb c LBRACKET then
            match strchr (c :: body) RBRACKET with
            | None => (-1, (current_section, sections))
            | Some (before, _) =>
                config_parse_lines rest
                  (Some (mk_config_section (strncpy (CFG_NAME_SIZE - 1) (tl before)) []))
                  (match current_section with
                   | Some s => s :: sections
                   | None => sections
                   end)
            end
          else
            match strchr (c :: body) EQUALS with
            | None => (-1, (current_section, sections))
            | Some (before, after) =>
                match current_section with
                | None => (-1, (current_section, sections))
                | Some s =>
                    let key := trim_whitespace before in
                    let value := remove_quotes (trim_whitespace after) in
                    config_parse_lines rest
                      (Some (mk_config_section (cfg_name s)
                               (mk_config_entry (strncpy (CFG_KEY_SIZE - 1) key)
                                  (strncpy (CFG_VALUE_SIZE - 1) value)
                                :: cfg_entries s)))
                      sections
                end
            end
      end
  end.

(** [config_parser_load_file] on a parser with the chain [sections];
    [file] is the content of the file, [None] when it cannot be
    opened. *)
Definition config_parser_load_file (sections : list config_section_t)
    (file : option cstring) : Z * list config_section_t :=
  match file with
  | None => (-1, sections)
  | Some content =>
      let '(r, (current_section, sections')) :=
        config_parse_lines (fgets_lines content) None sections in
      (r, match current_section with
          | Some s => s :: sections'
          | None => sections'
          end)
  end.

(** ** Loading the configuration ([config.c], [main.c]) *)

Definition DEFAULT_PARALLEL_JOBS : Z := 4.

(** [config_detect_cpu_count]; [online] is what [sysconf] answers. *)
Definition config_detect_cpu_count (online : Z) : Z :=
  let cpu_count := if online <=? 0 then 1 else online in
  if 32 <? cpu_count then 32 else cpu_count.

(** [atoi] as glibc computes it: the value [strtol] reads, kept within
    [long], converted to [int]. *)
Definition atoi (s : cstring) : Z :=
  match conv_int s with
  | Some (z, _) =>
      wrap_signed INT_BITS (Z.max (- 2 ^ (LONG_BITS - 1))
                              (Z.min (2 ^ (LONG_BITS - 1) - 1) z))
  | None => 0
  end.

(** [config_create_default], for the fields of [config_t] kept here. *)
Definition config_create_default (online : Z) : config_t :=
  let jobs := config_detect_cpu_count online in
  mk_config false false false false
    (if jobs <=? 0 then DEFAULT_PARALLEL_JOBS else jobs)
    (strncpy 255 (cstr "/usr/local")).

(** [config_load_file], for the fields of [config_t] kept here: the
    defaults, then the values the file gives.  A file that does not
    parse leaves the defaults. *)
Definition config_load_file (online : Z) (file : option cstring) : config_t :=
  let config := config_create_default online in
  let '(r, g_parser) := config_parser_load_file [] file in
  if negb (r =? 0) then config
  else
    let jobs :=
      match config_parser_get_value g_parser (cstr "general") (cstr "parallel_jobs") with
      | Some value =>
          if atoi value <=? 0 then DEFAULT_PARALLEL_JOBS else atoi value
      | None => parallel_jobs config
      end in
    let force :=
      match config_parser_get_value g_parser (cstr "general") (cstr "force_mode") with
      | Some value => strcasecmp_eq value (cstr "true")
      | None => force_mode config
      end in
    let skip :=
      match config_parser_get_value g_parser (cstr "general") (cstr "skip_dependencies") with
      | Some value => strcasecmp_eq value (cstr "true")
      | None => skip_dependencies config
      end in
    let prefix :=
      match config_parser_get_value g_parser (cstr "build") (cstr "install_prefix") with
      | Some value => strncpy 255 value
      | None => install_prefix config
      end in
    mk_config (keep_build_dir config) force skip (debug_symbols config) jobs prefix.



(** ** Repositories ([repository.c]) *)

(** [repository_t]: [name] has 128 bytes, [url] 512, [branch] 64 and
    [local_path] 256. *)
Record repository_t := mk_repository {
  repo_name : cstring;
  repo_url : cstring;
  repo_branch : cstring;
  repo_local_path : cstring;
  repo_priority : Z;
  repo_enabled : bool;
  repo_last_sync : Z;
  repo_last_commit : cstring
}.

Definition REPO_DIR : cstring := cstr "/var/lib/tinypkg/repo".
Definition DEFAULT_REPO_URL : cstring :=
  cstr "https://github.com/user7210unix/tinypkg-repo.git".
Definition REPO_BRANCH : cstring := cstr "main".

Definition default_repo : repository_t :=
  mk_repository (cstr "main") DEFAULT_REPO_URL REPO_BRANCH REPO_DIR 100 true 0 [].

(** The globals [repositories] (with [repository_count], its length)
    and [repositories_loaded]. *)
Record repository_state := mk_repository_state {
  repositories : list repository_t;
  repositories_loaded : bool
}.

Definition load_repositories (rs : repository_state) : Z * repository_state :=
  if repositories_loaded rs then (TINYPKG_SUCCESS, rs)
  else (TINYPKG_SUCCESS, mk_repository_state [default_repo] true).

Fixpoint find_repository (name : cstring) (repos : list repository_t)
  : option repository_t :=
  match repos with
  | [] => None
  | repo :: rest =>
      if TINYPKG_STREQ (repo_name repo) name then Some repo
      else find_repository name rest
  end.

Definition repository_get_by_name (name : cstring) (rs : repository_state)
  : option repository_t * repository_state :=
  let '(r, rs1) := load_repositories rs in
  if negb (r =? TINYPKG_SUCCESS) then (None, rs1)
  else (find_repository name (repositories rs1), rs1).

(** [repository_add]; [branch] is [None] for a null pointer. *)
Definition repository_add (name url : cstring) (branch : option cstring)
    (rs : repository_state) : Z * repository_state :=
  match repository_get_by_name name rs with
  | (Some _, rs1) => (TINYPKG_ERROR, rs1)
  | (None, rs1) =>
      let new_repo :=
        mk_repository (strncpy 127 name) (strncpy 511 url)
          (strncpy 63 (match branch with Some b => b | None => cstr "main" end))
          (snprintf 256 (REPO_DIR ++ cstr "/" ++ name))
          50 true 0 [] in
      (TINYPKG_SUCCESS,
       mk_repository_state (repositories rs1 ++ [new_repo]) (repositories_loaded rs1))
  end.

(** The repositories without the first one named [name]; that one is
    returned with them. *)
Fixpoint take_repository (name : cstring) (repos : list repository_t)
  : option (repository_t * list repository_t) :=
  match repos with
  | [] => None
  | repo :: rest =>
      if TINYPKG_STREQ (repo_name repo) name then Some (repo, rest)
      else match take_repository name rest with
           | Some (found, rest') => Some (found, repo :: rest')
           | None => None
           end
  end.

(** The two places [repository_get_package_path] looks at in a
    repository. *)
Definition nested_package_file (repo : repository_t) (package_name : cstring) : cstring :=
  fst (utils_join_path (repo_local_path repo)
         (fst (utils_join_path package_name
                 (fst (utils_join_path package_name (cstr ".json")))))).

Definition flat_package_file (repo : repository_t) (package_name : cstring) : cstring :=
  fst (utils_join_path (repo_local_path repo) package_name) ++ cstr ".json".

Section Repository.

Variable E : env.

(** [repository_remove]; [is_directory] is what [utils_directory_exists]
    answers. *)
Definition repository_remove (is_directory : cstring -> bool) (name : cstring)
    (rs : repository_state) (st : state) : Z * repository_state * state :=
  match take_repository name (repositories rs) with
  | None => (TINYPKG_ERROR, rs, st)
  | Some (found, rest) =>
      let st1 :=
        if is_directory (repo_local_path found)
        then snd (utils_remove_directory_recursive E (repo_local_path found) st)
        else st in
      (TINYPKG_SUCCESS, mk_repository_state rest (repositories_loaded rs), st1)
  end.

(** The loop of [repository_get_package_path] over the repositories. *)
Fixpoint search_package_file (repos : list repository_t) (package_name : cstring)
    (st : state) : option cstring :=
  match repos with
  | [] => None
  | repo :: rest =>
      if negb (repo_enabled repo) then search_package_file rest package_name st
      else if utils_file_exists E (nested_package_file repo package_name) st
      then Some (nested_package_file repo package_name)
      else if utils_file_exists E (flat_package_file repo package_name) st
      then Some (flat_package_file repo package_name)
      else search_package_file rest package_name st
  end.

Definition repository_get_package_path (package_name : cstring)
    (rs : repository_state) (st : state) : option cstring * repository_state :=
  let '(r, rs1) := load_repositories rs in
  if negb (r =? TINYPKG_SUCCESS) then (None, rs1)
  else (search_package_file (repositories rs1) package_name st, rs1).

Definition repository_is_available (package_name : cstring)
    (rs : repository_state) (st : state) : bool * repository_state :=
  match repository_get_package_path package_name rs st with
  | (Some package_path, rs1) => (utils_file_exists E package_path st, rs1)
  | (None, rs1) => (false, rs1)
  end.

End Repository.

(** ** Package definitions in JSON ([json_parser.c]) *)

(** The values of the JSON library.  An object is the list of its
    members; the library keeps one member per key. *)
#[warnings="-register-all"] Inductive json_t :=
| JsonNull
| JsonTrue
| JsonFalse
| JsonInteger (value : Z)
| JsonReal
| JsonString (value : cstring)
| JsonArray (items : list json_t)
| JsonObject (members : list (cstring * json_t)).

Fixpoint member_get (key : cstring) (members : list (cstring * json_t))
  : option json_t :=
  match members with
  | [] => None
  | (k, v) :: rest => if TINYPKG_STREQ k key then Some v else member_get key rest
  end.

Fixpoint member_set (key : cstring) (value : json_t)
    (members : list (cstring * json_t)) : list (cstring * json_t) :=
  match members with
  | [] => [(key, value)]
  | (k, v) :: rest =>
      if TINYPKG_STREQ k key then (k, value) :: rest
      else (k, v) :: member_set key value rest
  end.

(** [json_object_get]: NULL for a missing key and for a value that is
    no object. *)
Definition json_object_get (obj : json_t) (key : cstring) : option json_t :=
  match obj with
  | JsonObject members => member_get key members
  | _ => None
  end.

(** [json_object_set_new]: nothing is set when the value is NULL. *)
Definition json_object_set_new (obj : json_t) (key : cstring)
    (value : option json_t) : json_t :=
  match obj, value with
  | JsonObject members, Some v => JsonObject (member_set key v members)
  | _, _ => obj
  end.

Definition json_parser_get_string (obj : json_t) (key default_value : cstring)
  : cstring :=
  match json_object_get obj key with
  | Some (JsonString str) => str
  | _ => default_value
  end.

(** The value is converted from [json_int_t] to [int]. *)
Definition json_parser_get_int (obj : json_t) (key : cstring) (default_value : Z) : Z :=
  match json_object_get obj key with
  | Some (JsonInteger value) => wrap_signed INT_BITS value
  | _ => default_value
  end.

Definition json_parser_get_array (obj : json_t) (key : cstring)
  : option (list json_t) :=
  match json_object_get obj key with
  | Some (JsonArray items) => Some items
  | _ => None
  end.

(** [json_parser_array_to_strings] on the items of an array: the
    strings that are not empty; the empty list is the NULL returned
    with a count of 0. *)
Fixpoint json_parser_array_to_strings (items : list json_t) : list cstring :=
  match items with
  | [] => []
  | JsonString (c :: str) :: rest => (c :: str) :: json_parser_array_to_strings rest
  | _ :: rest => json_parser_array_to_strings rest
  end.

Definition json_parser_validate_package_json (root : json_t) : Z :=
  match root with
  | JsonObject _ =>
      let required field :=
        match json_object_get root field with
        | Some (JsonString (_ :: _)) => true
        | _ => false
        end in
      let array_or_absent field :=
        match json_object_get root field with
        | Some (JsonArray _) | None => true
        | Some _ => false
        end in
      if negb (required (cstr "name")) then TINYPKG_ERROR
      else if negb (required (cstr "version")) then TINYPKG_ERROR
      else if negb (required (cstr "source_url")) then TINYPKG_ERROR
      else if negb (array_or_absent (cstr "dependencies")) then TINYPKG_ERROR
      else if negb (array_or_absent (cstr "build_dependencies")) then TINYPKG_ERROR
      else if negb (array_or_absent (cstr "conflicts")) then TINYPKG_ERROR
      else if negb (array_or_absent (cstr "provides")) then TINYPKG_ERROR
      else TINYPKG_SUCCESS
  | _ => TINYPKG_ERROR
  end.

Definition MAX_URL : nat := N.to_nat 512.

(** [version_t] and the fields of [package_t] that the package record
    above leaves out. *)
Record version_t := mk_version {
  major : Z;
  minor : Z;
  patch : Z;
  prerelease : cstring;
  build_metadata : cstring
}.

Record package_more_t := mk_package_more {
  pkg_maintainer : cstring;
  pkg_homepage : cstring;
  pkg_license : cstring;
  pkg_source_type : cstring;
  pkg_signature : cstring;
  pkg_pre_build_cmd : cstring;
  pkg_build_dependencies : list cstring;
  pkg_provides : list cstring;
  pkg_category : cstring;
  pkg_build_time_estimate : Z;
  pkg_parsed_version : version_t;
  pkg_json_file : cstring;
  pkg_ref_count : Z
}.

Definition build_system_of_string (build_system : cstring) : build_type_t :=
  if TINYPKG_STREQ build_system (cstr "cmake") then BUILD_TYPE_CMAKE
  else if TINYPKG_STREQ build_system (cstr "make") then BUILD_TYPE_MAKE
  else if TINYPKG_STREQ build_system (cstr "custom") then BUILD_TYPE_CUSTOM
  else BUILD_TYPE_AUTOTOOLS.

(** The strings of an array member, none for a member that is absent
    or no array. *)
Definition strings_of_member (root : json_t) (key : cstring) : list cstring :=
  match json_parser_get_array root key with
  | Some items => json_parser_array_to_strings items
  | None => []
  end.

(** [json_parser_load_package_file]: [file_exists] is what
    [utils_file_exists] answers and [root] what [json_load_file]
    returns, [None] for a file that does not parse.  The fields that
    are not read stay as [package_create] left them: zero, but for the
    reference count of 1. *)
Definition json_parser_load_package_file (file_exists : bool) (root : option json_t)
    (json_file : cstring) : option (package_t * package_more_t) :=
  if negb file_exists then None
  else match root with
  | None => None
  | Some root =>
      if negb (json_parser_validate_package_json root =? TINYPKG_SUCCESS) then None
      else
        let name := json_parser_get_string root (cstr "name") [] in
        let version := json_parser_get_string root (cstr "version") [] in
        let description := json_parser_get_string root (cstr "description") [] in
        if ((length name =? 0) || (length version =? 0))%nat then None
        else
          Some (mk_package
                  (strncpy (MAX_NAME - 1) name)
                  (strncpy (MAX_VERSION - 1) version)
                  (strncpy (MAX_DESCRIPTION - 1) description)
                  (strncpy (MAX_URL - 1) (json_parser_get_string root (cstr "source_url") []))
                  (strncpy 127 (json_parser_get_string root (cstr "checksum") []))
                  (build_system_of_string
                     (json_parser_get_string root (cstr "build_system") (cstr "autotools")))
                  (strncpy (MAX_CMD - 1) (json_parser_get_string root (cstr "build_cmd") []))
                  (strncpy (MAX_CMD - 1) (json_parser_get_string root (cstr "install_cmd") []))
                  []
                  (strncpy (MAX_CMD - 1)
                     (json_parser_get_string root (cstr "configure_args") []))
                  (strings_of_member root (cstr "dependencies"))
                  (strings_of_member root (cstr "conflicts"))
                  (wrap_unsigned LONG_BITS
                     (json_parser_get_int root (cstr "size_estimate") 0))
                  PKG_STATE_UNKNOWN
                  0,
                mk_package_more
                  (strncpy (MAX_NAME - 1) (json_parser_get_string root (cstr "maintainer") []))
                  (strncpy (MAX_URL - 1) (json_parser_get_string root (cstr "homepage") []))
                  (strncpy 63 (json_parser_get_string root (cstr "license") []))
                  (strncpy 31
                     (json_parser_get_string root (cstr "source_type") (cstr "tarball")))
                  []
                  []
                  (strings_of_member root (cstr "build_dependencies"))
                  (strings_of_member root (cstr "provides"))
                  (strncpy 63 (json_parser_get_string root (cstr "category") []))
                  (json_parser_get_int root (cstr "build_time_estimate") 0)
                  (mk_version 0 0 0 [] [])
                  (strncpy (MAX_PATH - 1) json_file)
                  1)
  end.

Section JsonSave.

(** [json_string] makes a value of a string that is valid UTF-8 and
    returns NULL for any other; [utf8_valid] is that check. *)
Variable utf8_valid : cstring -> bool.

Definition json_string (value : cstring) : option json_t :=
  if utf8_valid value then Some (JsonString value) else None.

(** [json_parser_strings_to_array] on an array of strings, the empty
    list for NULL or a count of 0. *)
Fixpoint strings_to_items (strings : list cstring) : list json_t :=
  match strings with
  | [] => []
  | [] :: rest => strings_to_items rest
  | s :: rest =>
      match json_string s with
      | Some v => v :: strings_to_items rest
      | None => strings_to_items rest
      end
  end.

Definition json_parser_strings_to_array (strings : list cstring) : json_t :=
  JsonArray (strings_to_items strings).

Definition build_system_to_string (build_system : build_type_t) : cstring :=
  match build_system with
  | BUILD_TYPE_CMAKE => cstr "cmake"
  | BUILD_TYPE_MAKE => cstr "make"
  | BUILD_TYPE_CUSTOM => cstr "custom"
  | BUILD_TYPE_AUTOTOOLS => cstr "autotools"
  end.

(** A member set only for a string that is not empty. *)
Definition set_if_nonempty (key value : cstring) (root : json_t) : json_t :=
  match value with
  | [] => root
  | _ => json_object_set_new root key (json_string value)
  end.

(** A member set only for a number above 0. *)
Definition set_if_positive (key : cstring) (value : Z) (root : json_t) : json_t :=
  if 0 <? value
  then json_object_set_new root key (Some (JsonInteger (wrap_signed LONG_BITS value)))
  else root.

(** A member set only for an array that has strings. *)
Definition set_if_any (key : cstring) (strings : list cstring) (root : json_t)
  : json_t :=
  match strings with
  | [] => root
  | _ => json_object_set_new root key (Some (json_parser_strings_to_array strings))
  end.

(** The object [json_parser_save_package] hands to
    [json_parser_save_file], its members set in the order of the
    source. *)
Definition json_parser_save_package (pkg : package_t) (more : package_more_t)
  : json_t :=
  let root := JsonObject [] in
  let root := json_object_set_new root (cstr "name") (json_string (pkg_name pkg)) in
  let root := json_object_set_new root (cstr "version") (json_string (pkg_version pkg)) in
  let root :=
    json_object_set_new root (cstr "description") (json_string (pkg_description pkg)) in
  let root := set_if_nonempty (cstr "maintainer") (pkg_maintainer more) root in
  let root := set_if_nonempty (cstr "homepage") (pkg_homepage more) root in
  let root := set_if_nonempty (cstr "license") (pkg_license more) root in
  let root := set_if_nonempty (cstr "category") (pkg_category more) root in
  let root :=
    json_object_set_new root (cstr "source_url") (json_string (pkg_source_url pkg)) in
  let root :=
    json_object_set_new root (cstr "source_type") (json_string (pkg_source_type more)) in
  let root := set_if_nonempty (cstr "checksum") (pkg_checksum pkg) root in
  let root :=
    json_object_set_new root (cstr "build_system")
      (json_string (build_system_to_string (pkg_build_system pkg))) in
  let root := set_if_nonempty (cstr "build_cmd") (pkg_build_cmd pkg) root in
  let root := set_if_nonempty (cstr "install_cmd") (pkg_install_cmd pkg) root in
  let root := set_if_nonempty (cstr "configure_args") (pkg_configure_args pkg) root in
  let root := set_if_positive (cstr "size_estimate") (pkg_size_estimate pkg) root in
  let root :=
    set_if_positive (cstr "build_time_estimate") (pkg_build_time_estimate more) root in
  let root := set_if_any (cstr "dependencies") (pkg_dependencies pkg) root in
  let root := set_if_any (cstr "build_dependencies") (pkg_build_dependencies more) root in
  let root := set_if_any (cstr "conflicts") (pkg_conflicts pkg) root in
  set_if_any (cstr "provides") (pkg_provides more) root.

End JsonSave.

(** * Vocabulary of the statements and worked examples *)

Definition names (head : list package_db_entry_t) : list cstring :=
  map entry_name head.

(** A package whose strings fit the arrays of [package_t]. *)
Definition package_fits (pkg : package_t) : Prop :=
  (length (pkg_name pkg) < MAX_NAME)%nat /\
  (length (pkg_version pkg) < MAX_VERSION)%nat /\
  (length (pkg_description pkg) < MAX_DESCRIPTION)%nat.

(** The events of the build steps: shell commands and directory
    creation. *)
Definition step_event (ev : event) : bool :=
  match ev with
  | EvRun _ _ | EvMkdir _ => true
  | _ => false
  end.

(** [st'] is [st] after some more events, all of them satisfying [P]. *)
Definition extends (P : event -> Prop) (st st' : state) : Prop :=
  exists evs, trace st' = trace st ++ evs /\ Forall P evs.

(** The database, in memory and on disk, is the same in both states. *)
Definition same_db (st st' : state) : Prop :=
  package_db_head st' = package_db_head st /\
  package_db_loaded st' = package_db_loaded st /\
  installed_txt st' = installed_txt st.

(** [st'] is reached from [st] by step events only, and the database
    is left alone. *)
Definition steps_only (st st' : state) : Prop :=
  extends (fun ev => step_event ev = true) st st' /\ same_db st st'.

Definition example_package (name : string) (deps : list cstring) : package_t :=
  mk_package (cstr name) (cstr "1.0") (cstr "example")
    (cstr "http://example.org/src.tar.gz") [] BUILD_TYPE_AUTOTOOLS [] [] [] []
    deps [] 0 PKG_STATE_UNKNOWN 0.
Arguments example_package _%_string _.

Definition with_checksum (pkg : package_t) (sum : cstring) : package_t :=
  mk_package (pkg_name pkg) (pkg_version pkg) (pkg_description pkg)
    (pkg_source_url pkg) sum (pkg_build_system pkg) (pkg_build_cmd pkg)
    (pkg_install_cmd pkg) (pkg_post_install_cmd pkg) (pkg_configure_args pkg)
    (pkg_dependencies pkg) (pkg_conflicts pkg) (pkg_size_estimate pkg)
    (pkg_state pkg) (pkg_install_time pkg).

(** A catalogue given by a list of packages. *)
Fixpoint catalogue (pkgs : list package_t) (name : cstring) : option package_t :=
  match pkgs with
  | [] => None
  | pkg :: rest =>
      if TINYPKG_STREQ (pkg_name pkg) name then Some pkg else catalogue rest name
  end.

Definition is_run (ev : event) : bool :=
  match ev with EvRun _ _ => true | _ => false end.

(** A world in which every command succeeds, a file exists once some
    command has run, and [sha256sum] prints [digest]. *)
Definition example_env (cfg : config_t) (pkgs : list package_t) (digest : cstring) : env :=
  mk_env cfg (catalogue pkgs) (fun _ => None)
    (fun _ => Some (cstr "src.tar.gz"))
    (fun tr _ => existsb is_run tr)
    (fun _ _ _ => true)
    (fun _ _ => (TINYPKG_SUCCESS, Some (digest ++ cstr "  src.tar.gz" ++ [NEWLINE]), 0))
    (fun _ _ => 0)
    (fun _ _ => true)
    (fun _ _ => true)
    (fun _ => true)
    (fun _ => 1700000000).

Definition default_config : config_t :=
  mk_config false false false false 4 (cstr "/usr/local").

Definition keep_config : config_t :=
  mk_config true false false false 4 (cstr "/usr/local").

Definition initial_state : state := mk_state [] false None [] false false [].

(** Sixteen contexts in progress. *)
Definition sixteen_builds : list build_context_t :=
  map (fun i => mk_ctx i (example_package "busy" []) (cstr "/b") (cstr "/b/source")
                  (cstr "/b/install") BUILD_STATUS_BUILDING 0 0)
      (seq 1 16).

Definition full_table_state : state := mk_state [] false None sixteen_builds false false [].

Definition fetched_state : state :=
  mk_state [] false None [] false false [EvRun (cstr "wget") None].

Definition zeros64 : cstring := repeat "0"%char 64.
Definition effs64 : cstring := repeat "f"%char 64.

Definition is_rmdir (ev : event) : bool :=
  match ev with EvRmdir _ => true | _ => false end.

Definition is_hash_event (ev : event) : bool :=
  match ev with
  | EvRunOutput _ | EvSystem _ => true
  | _ => false
  end.

(** The chain of the spec's scenario: A needs B, B needs C. *)
Definition chain_catalogue : list package_t :=
  [example_package "A" [cstr "B"]; example_package "B" [cstr "C"];
   example_package "C" []].

(** Two packages that need each other. *)
Definition cycle_catalogue : list package_t :=
  [example_package "A" [cstr "B"]; example_package "B" [cstr "A"]].

Definition row_vim : package_db_entry_t :=
  mk_entry (cstr "vim") (cstr "9.0") (cstr "Vi IMproved") 1700000000 1234 PKG_STATE_INSTALLED.

Definition row_zsh : package_db_entry_t :=
  mk_entry (cstr "zsh") (cstr "5.9") (cstr "Z shell") 1700000001 77 PKG_STATE_INSTALLED.

(** What the sort reads of a node: its name and its dependencies. *)
Definition skeleton (ns : list dependency_node_t) : list (cstring * list cstring) :=
  map (fun n => (node_package_name n, node_dependencies n)) ns.

Definition node_names (ns : list dependency_node_t) : list cstring :=
  map node_package_name ns.

(** A name that fits [char package_name[MAX_NAME]]. *)
Definition fits_name (d : cstring) : Prop := (length d < MAX_NAME)%nat.

Definition leaf (d : cstring) : cstring * list cstring := (d, []).

(** One step of the in-degree count, for the dependency string [d]. *)
Definition count_step (g : dependency_graph_t) (a : list Z) (d : cstring) : list Z :=
  match first_named g d with
  | Some j => update_at (fun z => z + 1) j a
  | None => a
  end.

(** The row of [n], if there is one, says installed. *)
Definition row_installed_or_absent (n : cstring) (rows : list package_db_entry_t) : Prop :=
  match package_db_find n rows with
  | Some e => entry_state e = PKG_STATE_INSTALLED
  | None => True
  end.

(** An event that is no save of the database, or a save of rows among
    which [n] is installed or absent. *)
Definition save_keeps (n : cstring) (ev : event) : Prop :=
  match ev with
  | EvDbSave rows _ => row_installed_or_absent n rows
  | _ => True
  end.

(** The file is as it was, or holds rows among which [n] is installed
    or absent. *)
Definition file_keeps (n : cstring) (st st' : state) : Prop :=
  installed_txt st' = installed_txt st \/
  exists rows, installed_txt st' = Some (db_file_content rows) /\
               row_installed_or_absent n rows.

(** Build events: step events and the removal of the build directory. *)
Definition build_event (ev : event) : Prop :=
  step_event ev = true \/ is_rmdir ev = true.

(** What a run may do to the record of [n]: save only rows among which
    [n] is installed or absent, in memory and in the file. *)
Definition keeps_record (n : cstring) (st st' : state) : Prop :=
  extends (save_keeps n) st st' /\
  row_installed_or_absent n (package_db_head st') /\
  file_keeps n st st'.

(** The value of a list of digit characters, least significant first. *)
Fixpoint rvalue (l : list ascii) : N :=
  match l with
  | [] => 0%N
  | c :: r => ((code c - 48) + 10 * rvalue r)%N
  end.

(** A run of characters that does not go on with a digit. *)
Definition stops_digits (rest : cstring) : Prop :=
  match rest with
  | c :: _ => isdigit c = false
  | [] => True
  end.

(** A non-empty string of at most [w] characters, none of them white
    space: what [%<w>s] reads whole. *)
Definition token (w : nat) (s : cstring) : Prop :=
  s <> [] /\ (length s <= w)%nat /\ forallb (fun c => negb (isspace c)) s = true.

(** A description that [%511[^\t]] reads whole after the white-space
    directive: non-empty, not starting with white space, without tab or
    newline. *)
Definition plain_text (w : nat) (s : cstring) : Prop :=
  (length s <= w)%nat /\
  match s with c :: _ => isspace c = false | [] => False end /\
  forallb (fun c => negb (Ascii.eqb c TAB) && negb (Ascii.eqb c NEWLINE)) s = true.

(** A row that the loader reads back as it was saved. *)
Definition scannable (e : package_db_entry_t) : Prop :=
  token 255 (entry_name e) /\
  hd_error (entry_name e) <> Some HASH /\
  token 63 (entry_version e) /\
  plain_text 511 (entry_description e) /\
  - 2 ^ 63 <= entry_install_time e < 2 ^ 63 /\
  0 <= entry_installed_size e < 2 ^ 64 /\
  - 2 ^ 31 <= entry_state e < 2 ^ 31.

Definition no_newline (l : cstring) : Prop :=
  forallb (fun c => negb (Ascii.eqb c NEWLINE)) l = true.

(** The line of a row without its newline. *)
Definition entry_body (e : package_db_entry_t) : cstring :=
  entry_name e ++ TAB :: entry_version e ++ TAB :: entry_description e ++
  TAB :: fmt_d (entry_install_time e) ++
  TAB :: fmt_zu (entry_installed_size e) ++
  TAB :: fmt_d (entry_state e).

Definition header_line_1 : cstring := cstr "# TinyPkg Installed Packages Database".

Definition header_line_2 : cstring :=
  cstr "# Format: name" ++ TAB :: cstr "version" ++ TAB :: cstr "description" ++
  TAB :: cstr "install_time" ++ TAB :: cstr "installed_size" ++
  TAB :: cstr "state".

(** A process that starts on the file another one left. *)
Definition restarted (saved fresh : state) : Prop :=
  package_db_head fresh = [] /\
  package_db_loaded fresh = false /\
  installed_txt fresh = installed_txt saved.

Definition force_config : config_t :=
  mk_config false true false false 4 (cstr "/usr/local").

(** A row as [package_db_add] writes it for [example_package]. *)
Definition row_named (name : string) : package_db_entry_t :=
  mk_entry (cstr name) (cstr "1.0") (cstr "example") 1700000000 0 PKG_STATE_INSTALLED.
Arguments row_named _%_string.

(** A loaded database with the rows of vim and zsh. *)
Definition two_rows_state : state :=
  mk_state [row_vim; row_zsh] true None [] false false [].

(** A, which depends on B, and B, both installed. *)
Definition chain_rows_state : state :=
  mk_state [row_named "A"; row_named "B"] true None [] false false [].

(** The state of a process that starts on the file [saved] left. *)
Definition restart_of (saved : state) : state :=
  mk_state [] false (installed_txt saved) [] false false [].

(** A row without a description. *)
Definition row_bare : package_db_entry_t :=
  mk_entry (cstr "vim") (cstr "9.0") [] 1700000000 1234 PKG_STATE_INSTALLED.

Definition bare_row_state : state :=
  mk_state [row_bare] true None [] false false [].

Definition all_space (l : cstring) : Prop := forallb isspace l = true.

(** The first and the last character, if any, are no white space. *)
Definition no_space_at_ends (l : cstring) : Prop :=
  (forall c, hd_error l = Some c -> isspace c = false) /\
  (forall c, hd_error (rev l) = Some c -> isspace c = false).

(** A token: not empty and without a delimiter. *)
Definition is_token (delimiter t : cstring) : Prop :=
  t <> [] /\ forallb (fun c => negb (in_set delimiter c)) t = true.

(** The tokens with the character [d] between them. *)
Fixpoint join_tokens (d : ascii) (tokens : list cstring) : cstring :=
  match tokens with
  | [] => []
  | [t] => t
  | t :: rest => t ++ d :: join_tokens d rest
  end.

Definition no_char (c : ascii) (l : cstring) : Prop :=
  forallb (fun x => negb (Ascii.eqb x c)) l = true.

(** A key as [config_save_file] writes them: not empty, no white space
    at its ends, no equals sign or newline, not starting a comment or a
    header, within the array. *)
Definition plain_key (k : cstring) : Prop :=
  k <> [] /\ no_space_at_ends k /\ no_char EQUALS k /\ no_newline k /\
  hd_error k <> Some HASH /\ hd_error k <> Some LBRACKET /\
  (length k < CFG_KEY_SIZE)%nat.

(** A value: no white space at its ends, no newline, no quote in front,
    within the array; it may be empty. *)
Definition plain_value (v : cstring) : Prop :=
  no_space_at_ends v /\ no_newline v /\
  hd_error v <> Some DQUOTE /\ hd_error v <> Some SQUOTE /\
  (length v < CFG_VALUE_SIZE)%nat.

Definition plain_section_name (s : cstring) : Prop :=
  no_char RBRACKET s /\ no_newline s /\ (length s < CFG_NAME_SIZE)%nat.

Definition plain_comment (t : cstring) : Prop :=
  no_newline t /\ (length t < 1022)%nat.

Definition plain_entry (kv : cstring * cstring) : Prop :=
  plain_key (fst kv) /\ plain_value (snd kv).

Definition plain_section (sec : cstring * list (cstring * cstring)) : Prop :=
  plain_section_name (fst sec) /\ Forall plain_entry (snd sec).

(** The lines of a configuration file. *)
Definition comment_line (t : cstring) : cstring := HASH :: t ++ [NEWLINE].

Definition entry_text (kv : cstring * cstring) : cstring :=
  fst kv ++ cstr " = " ++ snd kv ++ [NEWLINE].

Definition header_text (s : cstring) : cstring :=
  LBRACKET :: s ++ [RBRACKET; NEWLINE].

(** A section: its header, its entries, an empty line. *)
Definition section_lines (sec : cstring * list (cstring * cstring)) : list cstring :=
  header_text (fst sec) :: map entry_text (snd sec) ++ [[NEWLINE]].

Definition file_lines (comments : list cstring)
    (secs : list (cstring * list (cstring * cstring))) : list cstring :=
  map comment_line comments ++ flat_map section_lines secs.

(** What the parser holds for a section of the file. *)
Definition section_of (sec : cstring * list (cstring * cstring)) : config_section_t :=
  mk_config_section (fst sec)
    (rev (map (fun kv => mk_config_entry (fst kv) (snd kv)) (snd sec))).

(** The chain of the parser. *)
Definition chain (cur : option config_section_t) (sections : list config_section_t)
  : list config_section_t :=
  match cur with Some x => x :: sections | None => sections end.

(** A line that [fgets] returns whole. *)
Definition whole_line (l : cstring) : Prop :=
  exists b, l = b ++ [NEWLINE] /\ no_newline b /\ (length b < 1023)%nat.

(** A configuration file that asks for eight jobs, forced operation and
    a kept build directory. *)
Definition example_sections : list (cstring * list (cstring * cstring)) :=
  [(cstr "general", [(cstr "parallel_jobs", cstr "8"); (cstr "force_mode", cstr "TRUE")]);
   (cstr "build", [(cstr "keep_build_dir", cstr "true");
                   (cstr "install_prefix", cstr "/opt")])].

(** The declared dependencies of [x], none when it does not load. *)
Definition declared_dependencies (E : env) (x : cstring) : list cstring :=
  match json_parser_load_package E x with
  | Some pkg => pkg_dependencies pkg
  | None => []
  end.

(** The table is [T0], or [T0] followed by one context at address [a]. *)
Definition table_with (a : nat) (T0 : list build_context_t) (st : state) : Prop :=
  active_builds st = T0 \/
  exists c, ctx_addr c = a /\ active_builds st = T0 ++ [c].

(** The directories of the context of a package. *)
Definition build_dir_of (pkg : package_t) : cstring :=
  snprintf MAX_PATH
    (CACHE_DIR ++ cstr "/builds/" ++ pkg_name pkg ++ cstr "-" ++ pkg_version pkg).

Definition source_dir_of (pkg : package_t) : cstring :=
  snprintf MAX_PATH (build_dir_of pkg ++ cstr "/source").

Definition install_dir_of (pkg : package_t) : cstring :=
  snprintf MAX_PATH (build_dir_of pkg ++ cstr "/install").

(** The repository [repository_add] makes. *)
Definition added_repository (name url : cstring) (branch : option cstring)
  : repository_t :=
  mk_repository name (strncpy 511 url)
    (strncpy 63 (match branch with Some b => b | None => cstr "main" end))
    (snprintf 256 (REPO_DIR ++ cstr "/" ++ name)) 50 true 0 [].

(** A name that is not empty and does not end with a slash. *)
Definition plain_name (name : cstring) : Prop :=
  name <> [] /\ forall d, name <> d ++ [SLASH].

Definition set_priority (p : Z) (repo : repository_t) : repository_t :=
  mk_repository (repo_name repo) (repo_url repo) (repo_branch repo)
    (repo_local_path repo) p (repo_enabled repo) (repo_last_sync repo)
    (repo_last_commit repo).

(** [json_is_object]. *)
Definition is_object (obj : json_t) : bool :=
  match obj with
  | JsonObject _ => true
  | _ => false
  end.

(** The member that [set_if_nonempty] leaves for a string. *)
Definition opt_text (value : cstring) : option json_t :=
  match value with
  | [] => None
  | _ => Some (JsonString value)
  end.

(** A package that [json_parser_save_package] writes without loss: its
    strings are valid UTF-8 and fit the arrays of [package_t]; the three
    required strings and the listed names are not empty; the two
    estimates are below [2 ^ 31] and not negative; and the fields that
    have no member in the file are as [package_create] leaves them. *)
Definition storable (utf8_valid : cstring -> bool) (pkg : package_t)
    (more : package_more_t) : Prop :=
  (forall s,
     In s [pkg_name pkg; pkg_version pkg; pkg_description pkg; pkg_maintainer more;
           pkg_homepage more; pkg_license more; pkg_category more; pkg_source_url pkg;
           pkg_source_type more; pkg_checksum pkg;
           build_system_to_string (pkg_build_system pkg); pkg_build_cmd pkg;
           pkg_install_cmd pkg; pkg_configure_args pkg] ->
     utf8_valid s = true) /\
  (forall strings,
     In strings [pkg_dependencies pkg; pkg_build_dependencies more; pkg_conflicts pkg;
                 pkg_provides more] ->
     Forall (fun s => s <> [] /\ utf8_valid s = true) strings) /\
  (pkg_name pkg <> [] /\ pkg_version pkg <> [] /\ pkg_source_url pkg <> []) /\
  ((length (pkg_name pkg) < MAX_NAME)%nat /\
   (length (pkg_version pkg) < MAX_VERSION)%nat /\
   (length (pkg_description pkg) < MAX_DESCRIPTION)%nat /\
   (length (pkg_maintainer more) < MAX_NAME)%nat /\
   (length (pkg_homepage more) < MAX_URL)%nat /\
   (length (pkg_license more) < 64)%nat /\
   (length (pkg_category more) < 64)%nat /\
   (length (pkg_source_url pkg) < MAX_URL)%nat /\
   (length (pkg_source_type more) < 32)%nat /\
   (length (pkg_checksum pkg) < 128)%nat /\
   (length (pkg_build_cmd pkg) < MAX_CMD)%nat /\
   (length (pkg_install_cmd pkg) < MAX_CMD)%nat /\
   (length (pkg_configure_args pkg) < MAX_CMD)%nat) /\
  (0 <= pkg_size_estimate pkg < 2 ^ 31 /\
   0 <= pkg_build_time_estimate more < 2 ^ 31) /\
  (pkg_post_install_cmd pkg = [] /\ pkg_pre_build_cmd more = [] /\
   pkg_signature more = [] /\ pkg_state pkg = PKG_STATE_UNKNOWN /\
   pkg_install_time pkg = 0 /\ pkg_parsed_version more = mk_version 0 0 0 [] [] /\
   pkg_ref_count more = 1).

(** [more] with the path of the file it was loaded from. *)
Definition loaded_from (more : package_more_t) (json_file : cstring) : package_more_t :=
  mk_package_more (pkg_maintainer more) (pkg_homepage more) (pkg_license more)
    (pkg_source_type more) (pkg_signature more) (pkg_pre_build_cmd more)
    (pkg_build_dependencies more) (pkg_provides more) (pkg_category more)
    (pkg_build_time_estimate more) (pkg_parsed_version more)
    (strncpy (MAX_PATH - 1) json_file) (pkg_ref_count more).

(** A package with every optional member, and the rest of its fields. *)
Definition full_package : package_t :=
  mk_package (cstr "vim") (cstr "9.0") (cstr "editor")
    (cstr "http://example.org/vim.tar.gz") (cstr "abc123") BUILD_TYPE_CMAKE
    (cstr "make all") (cstr "make install") [] (cstr "--prefix=/usr")
    [cstr "ncurses"; cstr "libc"] [cstr "vi"] 4096 PKG_STATE_UNKNOWN 0.

Definition full_package_more : package_more_t :=
  mk_package_more (cstr "someone") (cstr "http://example.org") (cstr "MIT")
    (cstr "tarball") [] [] [cstr "make"] [cstr "editor"] (cstr "editors") 60
    (mk_version 0 0 0 [] []) [] 1.



(** * Properties *)

(** * Facts about the model *)

(** ** Strings *)

Lemma TINYPKG_STREQ_eq (a b : cstring) : TINYPKG_STREQ a b = true <-> a = b.
Proof.
  revert b; induction a as [|x a IH]; intros [|y b]; simpl; split; intro H;
    try reflexivity; try discriminate.
  - apply andb_true_iff in H as [Hx Hab]. apply Ascii.eqb_eq in Hx.
    apply IH in Hab. congruence.
  - injection H as -> ->. rewrite Ascii.eqb_refl. simpl. now apply IH.
Qed.

Lemma TINYPKG_STREQ_refl (a : cstring) : TINYPKG_STREQ a a = true.
Proof. now apply TINYPKG_STREQ_eq. Qed.

Lemma TINYPKG_STREQ_neq (a b : cstring) : TINYPKG_STREQ a b = false <-> a <> b.
Proof.
  split.
  - intros H Heq. apply TINYPKG_STREQ_eq in Heq. congruence.
  - intro H. destruct (TINYPKG_STREQ a b) eqn:Heq; [|reflexivity].
    apply TINYPKG_STREQ_eq in Heq. contradiction.
Qed.

Lemma strncpy_short (n : nat) (s : cstring) :
  (length s <= n)%nat -> strncpy n s = s.
Proof. intro H. unfold strncpy. now apply firstn_all2. Qed.

(** ** The database list *)

Lemma find_none_iff (n : cstring) (head : list package_db_entry_t) :
  package_db_find n head = None <-> ~ In n (names head).
Proof.
  induction head as [|e head IH]; simpl.
  - tauto.
  - destruct (TINYPKG_STREQ (entry_name e) n) eqn:Heq.
    + apply TINYPKG_STREQ_eq in Heq. split; [discriminate|]. intros H. exfalso. auto.
    + apply TINYPKG_STREQ_neq in Heq. rewrite IH. tauto.
Qed.

Lemma find_some_name (n : cstring) (head : list package_db_entry_t) e :
  package_db_find n head = Some e -> entry_name e = n /\ In e head.
Proof.
  induction head as [|e' head IH]; simpl; [discriminate|].
  destruct (TINYPKG_STREQ (entry_name e') n) eqn:Heq.
  - intros [= ->]. apply TINYPKG_STREQ_eq in Heq. auto.
  - intro H. destruct (IH H). auto.
Qed.

Lemma unlink_entry_none (n : cstring) (head : list package_db_entry_t) :
  unlink_entry n head = None <-> package_db_find n head = None.
Proof.
  induction head as [|e head IH]; simpl; [tauto|].
  destruct (TINYPKG_STREQ (entry_name e) n); [split; discriminate|].
  destruct (unlink_entry n head); split; intro H; try discriminate; try reflexivity.
  - apply IH in H. discriminate.
  - now apply IH.
Qed.

Lemma unlink_entry_names (n : cstring) (head head' : list package_db_entry_t) :
  unlink_entry n head = Some head' ->
  forall m, In m (names head') -> In m (names head).
Proof.
  revert head'; induction head as [|e head IH]; simpl; intros head' H m Hm;
    [discriminate|].
  destruct (TINYPKG_STREQ (entry_name e) n).
  - injection H as <-. auto.
  - destruct (unlink_entry n head) as [h|]; [|discriminate].
    injection H as <-. simpl in Hm. destruct Hm; [auto|]. right. now apply (IH h).
Qed.

Lemma unlink_entry_nodup (n : cstring) (head head' : list package_db_entry_t) :
  NoDup (names head) -> unlink_entry n head = Some head' ->
  NoDup (names head') /\ ~ In n (names head').
Proof.
  revert head'; induction head as [|e head IH]; simpl; intros head' Hnd H;
    [discriminate|].
  inversion Hnd as [|? ? Hnotin Hnd']; subst.
  destruct (TINYPKG_STREQ (entry_name e) n) eqn:Heq.
  - injection H as <-. apply TINYPKG_STREQ_eq in Heq. subst n. auto.
  - destruct (unlink_entry n head) as [h|] eqn:Hu; [|discriminate].
    injection H as <-. destruct (IH h Hnd' eq_refl) as [Hnd'' Hn].
    apply TINYPKG_STREQ_neq in Heq. simpl. split.
    + constructor; [|assumption]. intro Hin. apply Hnotin.
      now apply (unlink_entry_names n head h).
    + intros [Hin|Hin]; auto.
Qed.

Section Database.

Variable E : env.

Lemma package_db_save_head (st : state) :
  package_db_head (snd (package_db_save E st)) = package_db_head st.
Proof. unfold package_db_save. now destruct (fopen_w_ok E (trace st)). Qed.

(** The list the database holds after [package_db_remove]. *)
Lemma package_db_remove_head (n : cstring) (st : state) :
  package_db_head (snd (package_db_remove E n st)) =
  match unlink_entry n (package_db_head st) with
  | Some head' => head'
  | None => package_db_head st
  end.
Proof.
  unfold package_db_remove. destruct (unlink_entry n (package_db_head st)).
  - now rewrite package_db_save_head.
  - reflexivity.
Qed.

Lemma package_db_remove_absent (n : cstring) (st : state) :
  NoDup (names (package_db_head st)) ->
  NoDup (names (package_db_head (snd (package_db_remove E n st)))) /\
  package_db_find n (package_db_head (snd (package_db_remove E n st))) = None.
Proof.
  intro Hnd. rewrite package_db_remove_head.
  destruct (unlink_entry n (package_db_head st)) as [head'|] eqn:Hu.
  - destruct (unlink_entry_nodup _ _ _ Hnd Hu). split; [assumption|].
    now apply find_none_iff.
  - split; [assumption|]. now apply unlink_entry_none.
Qed.

Lemma package_db_add_head (pkg : package_t) (st : state) :
  package_db_head (snd (package_db_add E pkg st)) =
  entry_of_package pkg ::
  package_db_head (snd (package_db_remove E (pkg_name pkg) st)).
Proof.
  unfold package_db_add.
  destruct (package_db_remove E (pkg_name pkg) st) as [r st1].
  now rewrite package_db_save_head.
Qed.

End Database.

(** C7.  With unique names in the database: [package_db_add] leaves the
    names unique, and [package_db_find] on the added package's name then
    returns the row that was added, whose name, version, description,
    install time and installed size are the package's and whose state is
    installed; after [package_db_remove] of any name, [package_db_find]
    of that name returns nothing. *)
Theorem C7_add_find_remove (E : env) (pkg : package_t) (n : cstring) (st : state) :
  NoDup (names (package_db_head st)) ->
  package_fits pkg ->
  let added := package_db_head (snd (package_db_add E pkg st)) in
  let removed := package_db_head (snd (package_db_remove E n st)) in
  NoDup (names added) /\
  package_db_find (pkg_name pkg) added =
    Some (mk_entry (pkg_name pkg) (pkg_version pkg) (pkg_description pkg)
            (pkg_install_time pkg) (pkg_size_estimate pkg) PKG_STATE_INSTALLED) /\
  package_db_find n removed = None.
Proof.
  intros Hnd (Hn & Hv & Hd) added removed. subst added removed.
  rewrite package_db_add_head.
  destruct (package_db_remove_absent E (pkg_name pkg) st Hnd) as [Hnd1 Hf1].
  assert (He : entry_of_package pkg =
               mk_entry (pkg_name pkg) (pkg_version pkg) (pkg_description pkg)
                 (pkg_install_time pkg) (pkg_size_estimate pkg) PKG_STATE_INSTALLED).
  { unfold entry_of_package. rewrite !strncpy_short; [reflexivity| | |]; lia. }
  rewrite He. repeat split.
  - simpl. constructor; [|assumption]. now apply find_none_iff.
  - simpl. now rewrite TINYPKG_STREQ_refl.
  - now apply package_db_remove_absent.
Qed.

Section Remove.

Variable E : env.

Lemma package_db_load_loaded (st : state) :
  package_db_loaded st = true -> package_db_load st = (TINYPKG_SUCCESS, st).
Proof. intro H. unfold package_db_load. now rewrite H. Qed.

Lemma package_db_load_fst (st : state) : fst (package_db_load st) = TINYPKG_SUCCESS.
Proof.
  unfold package_db_load. destruct (package_db_loaded st); [reflexivity|].
  now destruct (installed_txt st).
Qed.

Lemma package_db_load_twice (st : state) :
  package_db_load (snd (package_db_load st)) = (TINYPKG_SUCCESS, snd (package_db_load st)).
Proof.
  apply package_db_load_loaded. unfold package_db_load.
  destruct (package_db_loaded st) eqn:H; [assumption|].
  now destruct (installed_txt st).
Qed.

Lemma package_db_load_trace (st : state) :
  trace (snd (package_db_load st)) = trace st.
Proof.
  unfold package_db_load. destruct (package_db_loaded st); [reflexivity|].
  now destruct (installed_txt st).
Qed.

Lemma package_is_installed_eq (n : cstring) (st : state) :
  package_is_installed n st =
  (match package_db_find n (package_db_head (snd (package_db_load st))) with
   | Some _ => true
   | None => false
   end, snd (package_db_load st)).
Proof.
  unfold package_is_installed.
  pose proof (package_db_load_fst st) as H.
  destruct (package_db_load st) as [r st1]. simpl in *. subst r. reflexivity.
Qed.

Lemma dependency_find_dependents_eq (n : cstring) (st : state) :
  dependency_find_dependents E n st =
  ((TINYPKG_SUCCESS,
    snd (fst (dependency_find_dependents E n st))), snd (package_db_load st)).
Proof.
  unfold dependency_find_dependents.
  pose proof (package_db_load_fst st) as H.
  destruct (package_db_load st) as [r st1]. simpl in *. subst r. reflexivity.
Qed.

Lemma dependency_find_dependents_loaded (n : cstring) (st : state) :
  dependency_find_dependents E n (snd (package_db_load st)) =
  dependency_find_dependents E n st.
Proof.
  unfold dependency_find_dependents at 1. rewrite package_db_load_twice.
  unfold dependency_find_dependents.
  pose proof (package_db_load_fst st) as H.
  destruct (package_db_load st) as [r st1]. simpl in *. subst r. reflexivity.
Qed.

Lemma unlink_each_head (files : list cstring) (st : state) :
  package_db_head (fold_left (fun st f => unlink f st) files st) = package_db_head st.
Proof.
  revert st; induction files as [|f files IH]; intro st; simpl;
    [reflexivity | now rewrite IH].
Qed.

(** [package_remove] unfolded along its three exits. *)
Lemma package_remove_eq (n : cstring) (st : state) :
  let loaded := snd (package_db_load st) in
  let dependents := snd (fst (dependency_find_dependents E n st)) in
  package_remove E n st =
  match package_db_find n (package_db_head loaded) with
  | None => (TINYPKG_SUCCESS, loaded)
  | Some _ =>
      if negb (force_mode (global_config E)) && (0 <? length dependents)%nat
      then (TINYPKG_ERROR_DEPENDENCY, loaded)
      else (TINYPKG_SUCCESS,
            snd (package_db_remove E n
                   match package_get_file_list E n with
                   | Some file_list =>
                       fold_left (fun st f => unlink f st) (rev file_list) loaded
                   | None => loaded
                   end))
  end.
Proof.
  intros loaded dependents. unfold package_remove.
  rewrite package_is_installed_eq. fold loaded.
  destruct (package_db_find n (package_db_head loaded)) as [e|]; [|reflexivity].
  simpl. destruct (force_mode (global_config E)); simpl.
  - now destruct (package_db_remove E n _).
  - unfold loaded at 1. rewrite dependency_find_dependents_loaded.
    rewrite dependency_find_dependents_eq. fold dependents loaded. simpl.
    destruct (0 <? length dependents)%nat; [reflexivity|].
    now destruct (package_db_remove E n _).
Qed.

(** C9.  [package_remove]: a package without a row is a success that
    leaves the rows as loaded; with [force_mode] unset, a non-empty
    answer of [dependency_find_dependents] makes the call fail with the
    dependency error and the row is still there; with [force_mode] set
    the answer plays no part, the call succeeds and the row is unlinked. *)
Theorem C9_remove_guarded_by_dependents (n : cstring) (st : state) :
  let loaded := snd (package_db_load st) in
  let dependents := snd (fst (dependency_find_dependents E n st)) in
  let result := fst (package_remove E n st) in
  let st' := snd (package_remove E n st) in
  (package_db_find n (package_db_head loaded) = None ->
     result = TINYPKG_SUCCESS /\ st' = loaded) /\
  (package_db_find n (package_db_head loaded) <> None ->
     force_mode (global_config E) = false -> dependents <> [] ->
     result = TINYPKG_ERROR_DEPENDENCY /\ st' = loaded /\
     package_db_find n (package_db_head st') <> None) /\
  (package_db_find n (package_db_head loaded) <> None ->
     force_mode (global_config E) = true ->
     result = TINYPKG_SUCCESS /\
     unlink_entry n (package_db_head loaded) = Some (package_db_head st')).
Proof.
  intros loaded dependents result st'. subst result st'.
  rewrite package_remove_eq. fold loaded dependents.
  split; [|split].
  - intros ->. auto.
  - intros Hfind Hforce Hdep.
    destruct (package_db_find n (package_db_head loaded)) eqn:Hf; [|contradiction].
    rewrite Hforce. destruct dependents; [contradiction|]. simpl.
    split; [reflexivity|]. split; [reflexivity|]. now rewrite Hf.
  - intros Hfind Hforce.
    destruct (package_db_find n (package_db_head loaded)) eqn:Hf; [|contradiction].
    rewrite Hforce. simpl. split; [reflexivity|].
    rewrite package_db_remove_head.
    assert (Hh : package_db_head
                   match package_get_file_list E n with
                   | Some file_list =>
                       fold_left (fun st f => unlink f st) (rev file_list) loaded
                   | None => loaded
                   end = package_db_head loaded).
    { destruct (package_get_file_list E n); [apply unlink_each_head | reflexivity]. }
    rewrite Hh.
    destruct (unlink_entry n (package_db_head loaded)) eqn:Hu; [reflexivity|].
    apply unlink_entry_none in Hu. congruence.
Qed.

(** C10, first part: a name without a row. *)
Lemma package_set_state_absent (n : cstring) (s : Z) (st : state) :
  package_db_find n (package_db_head st) = None ->
  package_set_state E n s st = (TINYPKG_SUCCESS, st).
Proof. intro H. unfold package_set_state. now rewrite H. Qed.

End Remove.

(** ** Traces of the build runner *)

Lemma extends_refl (P : event -> Prop) (st : state) : extends P st st.
Proof. exists []. now rewrite app_nil_r. Qed.

Lemma extends_trans (P : event -> Prop) (st1 st2 st3 : state) :
  extends P st1 st2 -> extends P st2 st3 -> extends P st1 st3.
Proof.
  intros (e1 & H1 & F1) (e2 & H2 & F2). exists (e1 ++ e2). split.
  - now rewrite H2, H1, app_assoc.
  - apply Forall_app. now split.
Qed.

Lemma extends_emit (P : event -> Prop) (ev : event) (st : state) :
  P ev -> extends P st (emit ev st).
Proof. intro H. exists [ev]. split; [reflexivity|]. now constructor. Qed.

Lemma extends_same_trace (P : event -> Prop) (st st' : state) :
  trace st' = trace st -> extends P st st'.
Proof. intro H. exists []. now rewrite app_nil_r. Qed.

Lemma extends_weaken (P Q : event -> Prop) (st st' : state) :
  (forall ev, P ev -> Q ev) -> extends P st st' -> extends Q st st'.
Proof.
  intros HPQ (evs & Ht & Hf). exists evs. split; [assumption|].
  eapply Forall_impl; eassumption.
Qed.

Lemma same_db_refl (st : state) : same_db st st.
Proof. now repeat split. Qed.

Lemma same_db_trans (st1 st2 st3 : state) :
  same_db st1 st2 -> same_db st2 st3 -> same_db st1 st3.
Proof.
  intros (H1 & H2 & H3) (H4 & H5 & H6). repeat split; congruence.
Qed.

Lemma steps_only_refl (st : state) : steps_only st st.
Proof. split; [apply extends_refl|apply same_db_refl]. Qed.

Lemma steps_only_trans (st1 st2 st3 : state) :
  steps_only st1 st2 -> steps_only st2 st3 -> steps_only st1 st3.
Proof.
  intros [H1 D1] [H2 D2]. split;
    [eapply extends_trans; eassumption | eapply same_db_trans; eassumption].
Qed.

Lemma steps_only_emit (ev : event) (st : state) :
  step_event ev = true -> steps_only st (emit ev st).
Proof.
  intro H. split; [|now repeat split].
  now apply (extends_emit (fun ev => step_event ev = true)).
Qed.

Lemma steps_only_table (tbl : list build_context_t) (st : state) :
  steps_only st (set_active_builds tbl st).
Proof. split; [now apply extends_same_trace|now repeat split]. Qed.

Create HintDb steps.
#[local] Hint Resolve steps_only_refl steps_only_emit : steps.

Section Build.

Variable E : env.

Lemma utils_run_command_steps cmd wd st :
  steps_only st (snd (utils_run_command E cmd wd st)).
Proof. now apply steps_only_emit. Qed.

Lemma utils_create_directory_recursive_steps path st :
  steps_only st (snd (utils_create_directory_recursive E path st)).
Proof.
  unfold utils_create_directory_recursive. destruct path; cbn [fst snd negb]; auto with steps.
Qed.

Lemma write_ctx_steps ctx st : steps_only st (write_ctx ctx st).
Proof. apply steps_only_table. Qed.

Lemma enter_steps s ctx st : steps_only st (snd (enter s ctx st)).
Proof. apply steps_only_table. Qed.

Lemma enter_build_dir s ctx st :
  ctx_build_dir (fst (enter s ctx st)) = ctx_build_dir ctx /\
  ctx_addr (fst (enter s ctx st)) = ctx_addr ctx.
Proof. split; reflexivity. Qed.

Lemma build_download_source_steps ctx st :
  steps_only st (snd (build_download_source E ctx st)).
Proof.
  unfold build_download_source.
  destruct (utils_get_basename E _); [|apply steps_only_refl].
  destruct (utils_file_exists E _ st); [apply steps_only_refl|].
  destruct (utils_create_directory_recursive E _ st) as [r st1] eqn:Hm.
  eapply steps_only_trans; [|apply utils_run_command_steps].
  change st1 with (snd (r, st1)). rewrite <- Hm.
  apply utils_create_directory_recursive_steps.
Qed.

Lemma build_extract_source_steps ctx st :
  steps_only st (snd (build_extract_source E ctx st)).
Proof.
  unfold build_extract_source.
  destruct (utils_get_basename E _); [|apply steps_only_refl].
  destruct (utils_file_exists E _ st); cbn [fst snd negb]; [|apply steps_only_refl].
  destruct (extract_command _ _ _); [apply utils_run_command_steps|apply steps_only_refl].
Qed.

Lemma build_run_autotools_steps ctx st :
  steps_only st (snd (build_run_autotools E ctx st)).
Proof.
  unfold build_run_autotools.
  eapply steps_only_trans; [|apply utils_run_command_steps].
  destruct (utils_file_exists E _ st); cbn [fst snd negb];
    [apply steps_only_refl | apply utils_run_command_steps].
Qed.

Lemma build_run_cmake_steps ctx st :
  steps_only st (snd (build_run_cmake E ctx st)).
Proof. apply utils_run_command_steps. Qed.

Lemma build_configure_package_steps ctx st :
  steps_only st (snd (build_configure_package E ctx st)) /\
  ctx_build_dir (snd (fst (build_configure_package E ctx st))) = ctx_build_dir ctx /\
  ctx_addr (snd (fst (build_configure_package E ctx st))) = ctx_addr ctx.
Proof.
  unfold build_configure_package.
  match goal with
  | |- context [set_ctx_package ctx ?p] => set (pkg' := p)
  end.
  destruct (pkg_build_system pkg').
  - pose proof (build_run_autotools_steps (set_ctx_package ctx pkg')
                  (write_ctx (set_ctx_package ctx pkg') st)) as H.
    destruct (build_run_autotools E _ _) as [r st1]. cbn [fst snd] in *.
    split; [|auto]. eapply steps_only_trans; [apply write_ctx_steps|exact H].
  - pose proof (build_run_cmake_steps (set_ctx_package ctx pkg')
                  (write_ctx (set_ctx_package ctx pkg') st)) as H.
    destruct (build_run_cmake E _ _) as [r st1]. cbn [fst snd] in *.
    split; [|auto]. eapply steps_only_trans; [apply write_ctx_steps|exact H].
  - cbn [fst snd negb orb]. split; [apply write_ctx_steps|auto].
  - cbn [fst snd negb orb]. split; [apply write_ctx_steps|auto].
Qed.

Lemma build_compile_package_steps ctx st :
  steps_only st (snd (build_compile_package E ctx st)).
Proof. apply utils_run_command_steps. Qed.

(** The four steps only run commands and create directories, and leave
    the context's address and build directory alone. *)
Lemma build_steps_steps ctx st :
  steps_only st (snd (build_steps E ctx st)) /\
  ctx_build_dir (snd (fst (build_steps E ctx st))) = ctx_build_dir ctx /\
  ctx_addr (snd (fst (build_steps E ctx st))) = ctx_addr ctx.
Proof.
  unfold build_steps.
  destruct (enter BUILD_STATUS_DOWNLOADING ctx st) as [c1 s1] eqn:H1.
  pose proof (enter_steps BUILD_STATUS_DOWNLOADING ctx st) as Q1.
  pose proof (enter_build_dir BUILD_STATUS_DOWNLOADING ctx st) as [B1 A1].
  rewrite H1 in Q1, B1, A1; cbn [fst snd] in Q1, B1, A1.
  pose proof (build_download_source_steps c1 s1) as Q2.
  destruct (build_download_source E c1 s1) as [r2 s2]; cbn [fst snd] in Q2.
  pose proof (steps_only_trans _ _ _ Q1 Q2) as T2.
  destruct (r2 =? TINYPKG_SUCCESS); cbn [fst snd negb]; [|split; [assumption|split; congruence]].
  destruct (enter BUILD_STATUS_EXTRACTING c1 s2) as [c3 s3] eqn:H3.
  pose proof (enter_steps BUILD_STATUS_EXTRACTING c1 s2) as Q3.
  pose proof (enter_build_dir BUILD_STATUS_EXTRACTING c1 s2) as [B3 A3].
  rewrite H3 in Q3, B3, A3; cbn [fst snd] in Q3, B3, A3.
  pose proof (build_extract_source_steps c3 s3) as Q4.
  destruct (build_extract_source E c3 s3) as [r4 s4]; cbn [fst snd] in Q4.
  pose proof (steps_only_trans _ _ _ T2 (steps_only_trans _ _ _ Q3 Q4)) as T4.
  destruct (r4 =? TINYPKG_SUCCESS); cbn [fst snd negb]; [|split; [assumption|split; congruence]].
  destruct (enter BUILD_STATUS_CONFIGURING c3 s4) as [c5 s5] eqn:H5.
  pose proof (enter_steps BUILD_STATUS_CONFIGURING c3 s4) as Q5.
  pose proof (enter_build_dir BUILD_STATUS_CONFIGURING c3 s4) as [B5 A5].
  rewrite H5 in Q5, B5, A5; cbn [fst snd] in Q5, B5, A5.
  pose proof (build_configure_package_steps c5 s5) as (Q6 & B6 & A6).
  destruct (build_configure_package E c5 s5) as [[r6 c6] s6]; cbn [fst snd] in Q6, B6, A6.
  pose proof (steps_only_trans _ _ _ T4 (steps_only_trans _ _ _ Q5 Q6)) as T6.
  destruct (r6 =? TINYPKG_SUCCESS); cbn [fst snd negb]; [|split; [assumption|split; congruence]].
  destruct (enter BUILD_STATUS_BUILDING c6 s6) as [c7 s7] eqn:H7.
  pose proof (enter_steps BUILD_STATUS_BUILDING c6 s6) as Q7.
  pose proof (enter_build_dir BUILD_STATUS_BUILDING c6 s6) as [B7 A7].
  rewrite H7 in Q7, B7, A7; cbn [fst snd] in Q7, B7, A7.
  pose proof (build_compile_package_steps c7 s7) as Q8.
  destruct (build_compile_package E c7 s7) as [r8 s8]; cbn [fst snd] in Q8.
  pose proof (steps_only_trans _ _ _ T6 (steps_only_trans _ _ _ Q7 Q8)) as T8.
  destruct (r8 =? TINYPKG_SUCCESS); cbn [fst snd negb]; [|split; [assumption|split; congruence]].
  unfold enter; cbn [fst snd].
  split; [|split].
  - eapply steps_only_trans; [exact T8|].
    eapply steps_only_trans; apply write_ctx_steps.
  - cbn [ctx_build_dir set_end_time set_status]. congruence.
  - cbn [ctx_addr set_end_time set_status]. congruence.
Qed.

(** [build_package] unfolded, once its context exists: the steps, then
    the removal of the build directory under the guard of the source. *)
Lemma build_package_trace pkg st ctx st0 :
  build_context_create E pkg st = (Some ctx, st0) ->
  exists evs,
    Forall (fun ev => step_event ev = true) evs /\
    trace (snd (build_package E pkg st)) =
    trace st0 ++ evs ++
    (if negb (keep_build_dir (global_config E))
        || negb (fst (fst (build_package E pkg st)) =? TINYPKG_SUCCESS)
     then [EvRmdir (ctx_build_dir ctx)] else []).
Proof.
  intro Hc. unfold build_package. rewrite Hc.
  set (ctx1 := set_start_time ctx (time_now E (trace st0))).
  destruct (add_active_build ctx1 st0) as [ra st1] eqn:Ha.
  assert (Hst1 : trace st1 = trace st0).
  { unfold add_active_build in Ha.
    destruct (16 <=? length (active_builds st0))%nat; injection Ha as _ <-; reflexivity. }
  pose proof (build_steps_steps ctx1 st1) as (((evs & Ht & Hf) & _) & Hb & _).
  destruct (build_steps E ctx1 st1) as [[result ctx2] st2]. cbn [fst snd] in Ht, Hb.
  exists evs. split; [assumption|].
  assert (Hdir : ctx_build_dir ctx2 = ctx_build_dir ctx) by (rewrite Hb; reflexivity).
  assert (Hrm : forall c s, trace (remove_active_build c s) = trace s) by reflexivity.
  assert (Hwr : forall c s, trace (write_ctx c s) = trace s) by reflexivity.
  assert (Hcl : forall c s, trace (snd (build_context_cleanup E c s)) =
                            trace s ++ [EvRmdir (ctx_build_dir c)]) by reflexivity.
  destruct (result =? TINYPKG_SUCCESS) eqn:Hr; cbn [fst snd negb orb].
  - rewrite Hr. destruct (keep_build_dir (global_config E)); cbn [negb orb].
    + now rewrite Hrm, Ht, Hst1, app_nil_r.
    + now rewrite Hcl, Hrm, Ht, Hst1, Hdir, app_assoc.
  - rewrite Hr, !orb_true_r. cbn [negb].
    rewrite Hcl, Hrm, Hwr, Ht, Hst1, app_assoc.
    cbn [ctx_build_dir set_end_time set_status]. now rewrite Hdir.
Qed.

End Build.

(** ** A small world for worked examples *)

Lemma steps_no_rmdir (evs : list event) (path : cstring) :
  Forall (fun ev => step_event ev = true) evs -> ~ In (EvRmdir path) evs.
Proof.
  intros H Hin. rewrite Forall_forall in H. specialize (H _ Hin). discriminate.
Qed.

(** C3 (amended).  Once [build_package] has its context, the build
    directory is removed exactly when [keep_build_dir] is unset or the
    build failed: it is kept only when [keep_build_dir] is set and the
    build succeeded; no other directory is removed. *)
Theorem C3_build_dir_kept_only_on_kept_success
    (E : env) (pkg : package_t) (st : state) (ctx : build_context_t) (st0 : state) :
  build_context_create E pkg st = (Some ctx, st0) ->
  exists evs,
    trace (snd (build_package E pkg st)) = trace st0 ++ evs /\
    (In (EvRmdir (ctx_build_dir ctx)) evs <->
     ~ (keep_build_dir (global_config E) = true /\
        fst (fst (build_package E pkg st)) = TINYPKG_SUCCESS)) /\
    (forall path, In (EvRmdir path) evs -> path = ctx_build_dir ctx).
Proof.
  intro Hc. destruct (build_package_trace E pkg st ctx st0 Hc) as (evs & Hf & Ht).
  eexists. split; [exact Ht|].
  destruct (keep_build_dir (global_config E)); cbn [negb orb].
  - destruct (fst (fst (build_package E pkg st)) =? TINYPKG_SUCCESS) eqn:Hr;
      cbn [negb].
    + apply Z.eqb_eq in Hr. rewrite app_nil_r. split.
      * split; [|tauto]. intro Hin. now apply steps_no_rmdir in Hin.
      * intros path Hin. now apply steps_no_rmdir in Hin.
    + apply Z.eqb_neq in Hr. split.
      * split; [tauto|]. intros _. apply in_or_app. right. now left.
      * intros path Hin. apply in_app_or in Hin as [Hin|[Hin|[]]].
        -- now apply steps_no_rmdir in Hin.
        -- congruence.
  - split.
    + split; [intros _ [H _]; discriminate|]. intros _. apply in_or_app. right. now left.
    + intros path Hin. apply in_app_or in Hin as [Hin|[Hin|[]]].
      * now apply steps_no_rmdir in Hin.
      * congruence.
Qed.

Lemma C3_build_dir_kept_only_on_kept_success_witness :
  exists ctx st0 evs,
    build_context_create (example_env default_config [] []) (example_package "P" [])
      initial_state = (Some ctx, st0) /\
    trace (snd (build_package (example_env default_config [] [])
                  (example_package "P" []) initial_state)) = trace st0 ++ evs /\
    In (EvRmdir (ctx_build_dir ctx)) evs.
Proof.
  eexists. eexists.
  destruct (C3_build_dir_kept_only_on_kept_success
              (example_env default_config [] []) (example_package "P" [])
              initial_state _ _ eq_refl) as (evs & Ht & Hiff & _).
  exists evs. split; [reflexivity|]. split; [exact Ht|].
  apply Hiff. intros [Hk _]. discriminate Hk.
Defined.

(** C3, as stated, fails: with [keep_build_dir] set, a build that
    succeeds keeps its build directory. *)
Lemma C3_counterexample :
  keep_build_dir (global_config (example_env keep_config [] [])) = true /\
  fst (fst (build_package (example_env keep_config [] [])
              (example_package "P" []) initial_state)) = TINYPKG_SUCCESS /\
  existsb is_rmdir
    (trace (snd (build_package (example_env keep_config [] [])
                   (example_package "P" []) initial_state))) = false.
Proof. vm_compute. repeat split. Qed.


(** C2.  A package whose checksum does not match its archive: the
    verifier, asked, reports the mismatch, but [build_package] never asks
    it; the build succeeds and no digest command is run. *)
Theorem C2_build_never_verifies_checksum :
  let E := example_env default_config [] effs64 in
  let pkg := with_checksum (example_package "P" []) zeros64 in
  let st := snd (security_init initial_state) in
  let built := snd (build_package E pkg st) in
  verify_checksums st = true /\
  fst (security_verify_package_integrity E pkg (sources_path (cstr "src.tar.gz")) built)
    = TINYPKG_ERROR /\
  fst (fst (build_package E pkg st)) = TINYPKG_SUCCESS /\
  existsb is_hash_event (trace built) = false.
Proof. vm_compute. repeat split. Qed.

(** ** Checksums *)

Lemma strcasecmp_eq_spec (a b : cstring) :
  strcasecmp_eq a b = true <-> map tolower a = map tolower b.
Proof.
  revert b; induction a as [|x a IH]; intros [|y b]; simpl; split; intro H;
    try reflexivity; try discriminate.
  - apply andb_true_iff in H as [Hx Hab]. apply Ascii.eqb_eq in Hx.
    apply IH in Hab. congruence.
  - injection H as Hx Hab. rewrite Hx, Ascii.eqb_refl. simpl. now apply IH.
Qed.

Lemma security_detect_hash_type_by_length (h : cstring) :
  forallb isxdigit h = true ->
  (length h = 32%nat -> security_detect_hash_type h = HASH_TYPE_MD5) /\
  (length h = 40%nat -> security_detect_hash_type h = HASH_TYPE_SHA1) /\
  (length h = 64%nat -> security_detect_hash_type h = HASH_TYPE_SHA256).
Proof.
  intro Hx. unfold security_detect_hash_type. rewrite Hx. cbn [negb].
  repeat split; intros ->; reflexivity.
Qed.

Lemma security_calculate_checksum_code (E : env) path size type st :
  fst (fst (security_calculate_checksum E path size type st)) = TINYPKG_SUCCESS \/
  fst (fst (security_calculate_checksum E path size type st)) = TINYPKG_ERROR.
Proof.
  unfold security_calculate_checksum. destruct size; [now right|].
  destruct (utils_file_exists E path st); cbn [negb]; [|now right].
  destruct (system E _ st) as [status st1].
  destruct (status =? 0); cbn [negb]; [|now right].
  unfold run_hash_command.
  destruct (utils_run_command_with_output E _ st1) as [[[r out] ec] st2].
  destruct ((r =? TINYPKG_SUCCESS) && (ec =? 0)); [|now right].
  destruct out as [out|]; [|now right].
  destruct (strtok_first out); [now left|now right].
Qed.

Lemma security_verify_package_integrity_enabled (E : env) pkg path st :
  verify_checksums st = true -> pkg_checksum pkg <> [] ->
  security_verify_package_integrity E pkg path st =
  security_verify_checksum E path (pkg_checksum pkg)
    (security_detect_hash_type (pkg_checksum pkg)) st.
Proof.
  intros Hv Hne. unfold security_verify_package_integrity. rewrite Hv. cbn [negb].
  destruct (pkg_checksum pkg); [contradiction|reflexivity].
Qed.

(** C8 (amended).  The digest algorithm follows the length of the
    expected digest (32, 40, 64 hexadecimal characters: MD5, SHA-1,
    SHA-256).  While checksum verification is enabled, verification of a
    package that carries a checksum returns success exactly when the
    digest could be computed and equals the expected one up to case, and
    the generic error otherwise; while it is disabled, verification
    returns success without computing anything. *)
Theorem C8_verification_when_enabled
    (E : env) (pkg : package_t) (path : cstring) (st : state) :
  let expected := pkg_checksum pkg in
  let type := security_detect_hash_type expected in
  let computed := fst (security_calculate_checksum E path 256 type st) in
  let result := fst (security_verify_package_integrity E pkg path st) in
  (forallb isxdigit expected = true ->
     (length expected = 32%nat -> type = HASH_TYPE_MD5) /\
     (length expected = 40%nat -> type = HASH_TYPE_SHA1) /\
     (length expected = 64%nat -> type = HASH_TYPE_SHA256)) /\
  (verify_checksums st = true -> expected <> [] ->
     (result = TINYPKG_SUCCESS <->
        fst computed = TINYPKG_SUCCESS /\
        map tolower (snd computed) = map tolower expected) /\
     (result <> TINYPKG_SUCCESS -> result = TINYPKG_ERROR)) /\
  (verify_checksums st = false ->
     security_verify_package_integrity E pkg path st = (TINYPKG_SUCCESS, st) /\
     forall h t, security_verify_checksum E path h t st = (TINYPKG_SUCCESS, st)).
Proof.
  intros expected type computed result. split; [|split].
  - apply security_detect_hash_type_by_length.
  - intros Hv Hne. subst result computed.
    rewrite (security_verify_package_integrity_enabled E pkg path st Hv Hne).
    fold expected type.
    unfold security_verify_checksum. rewrite Hv. cbn [negb].
    pose proof (security_calculate_checksum_code E path 256 type st) as Hcode.
    destruct (security_calculate_checksum E path 256 type st) as [[r h] st1].
    cbn [fst snd] in *.
    destruct Hcode as [-> | ->].
    + change (negb (TINYPKG_SUCCESS =? TINYPKG_SUCCESS)) with false. cbv iota.
      destruct (strcasecmp_eq h expected) eqn:Hcmp; cbn [fst].
      * apply strcasecmp_eq_spec in Hcmp. split; [tauto|]. intro H. now elim H.
      * split; [|reflexivity]. split; [discriminate|].
        intros [_ H]. apply strcasecmp_eq_spec in H. congruence.
    + change (negb (TINYPKG_ERROR =? TINYPKG_SUCCESS)) with true. cbv iota. cbn [fst].
      split; [|reflexivity]. split; [discriminate|]. intros [H _]. discriminate.
  - intro Hv. split.
    + unfold security_verify_package_integrity. now rewrite Hv.
    + intros h t. unfold security_verify_checksum. now rewrite Hv.
Qed.

Lemma C8_verification_when_enabled_witness :
  let E := example_env default_config [] effs64 in
  let st := mk_state [] false None [] true true [EvRun (cstr "wget") None] in
  verify_checksums st = true /\
  fst (security_verify_package_integrity E
         (with_checksum (example_package "P" []) (map (fun _ => "F"%char) effs64))
         (cstr "/f") st) = TINYPKG_SUCCESS /\
  fst (security_verify_package_integrity E
         (with_checksum (example_package "P" []) ("e"%char :: tl effs64))
         (cstr "/f") st) = TINYPKG_ERROR /\
  security_detect_hash_type zeros64 = HASH_TYPE_SHA256 /\
  security_verify_package_integrity E (with_checksum (example_package "P" []) zeros64)
    (cstr "/f") initial_state = (TINYPKG_SUCCESS, initial_state).
Proof.
  intros E st.
  pose proof (C8_verification_when_enabled E
                (with_checksum (example_package "P" []) (map (fun _ => "F"%char) effs64))
                (cstr "/f") st) as (_ & Henabled & _).
  pose proof (C8_verification_when_enabled E
                (with_checksum (example_package "P" []) ("e"%char :: tl effs64))
                (cstr "/f") st) as (_ & Hflip & _).
  pose proof (C8_verification_when_enabled E
                (with_checksum (example_package "P" []) zeros64)
                (cstr "/f") initial_state) as (Htype & _ & Hdisabled).
  split; [reflexivity|]. split; [|split; [|split]].
  - apply Henabled; [reflexivity|discriminate|]. vm_compute. split; reflexivity.
  - apply Hflip; [reflexivity|discriminate|]. vm_compute. discriminate.
  - apply Htype; reflexivity.
  - apply Hdisabled. reflexivity.
Defined.

(** C8, as stated, fails: verification is off until [security_init]
    runs, and then a digest that differs from the expected one is
    accepted. *)
Lemma C8_counterexample :
  let E := example_env default_config [] effs64 in
  fst (fst (security_calculate_checksum E (cstr "/f") 256 HASH_TYPE_SHA256 fetched_state))
    = TINYPKG_SUCCESS /\
  snd (fst (security_calculate_checksum E (cstr "/f") 256 HASH_TYPE_SHA256 fetched_state))
    = effs64 /\
  map tolower effs64 <> map tolower zeros64 /\
  fst (security_verify_checksum E (cstr "/f") zeros64 HASH_TYPE_SHA256 fetched_state)
    = TINYPKG_SUCCESS.
Proof. vm_compute. repeat split. discriminate. Qed.

(** C1.  On the chain A -> B -> C, [dependency_resolve] of A succeeds
    with the order A, B: the requested package comes first, before the
    dependency it declares, and C, which B declares, is not in the order
    at all. *)
Theorem C1_resolve_chain_puts_request_first :
  dependency_resolve (example_env default_config chain_catalogue []) (cstr "A")
  = Some (TINYPKG_SUCCESS, [cstr "A"; cstr "B"]).
Proof. vm_compute. reflexivity. Qed.

(** C5.  On the 2-cycle A -> B -> A, [dependency_resolve] of A succeeds
    and returns an install order. *)
Theorem C5_resolve_accepts_two_cycle :
  dependency_resolve (example_env default_config cycle_catalogue []) (cstr "A")
  = Some (TINYPKG_SUCCESS, [cstr "A"; cstr "B"]).
Proof. vm_compute. reflexivity. Qed.

(** ** The shape of the resolver's graph *)

Lemma skeleton_names (ns ns' : list dependency_node_t) :
  skeleton ns = skeleton ns' -> node_names ns = node_names ns'.
Proof.
  unfold skeleton, node_names. intro H.
  apply (f_equal (map fst)) in H. now rewrite !map_map in H.
Qed.

Lemma skeleton_length (ns ns' : list dependency_node_t) :
  skeleton ns = skeleton ns' -> length ns = length ns'.
Proof.
  intro H. apply (f_equal (@length _)) in H. unfold skeleton in H.
  now rewrite !length_map in H.
Qed.

Lemma find_node_from_names (ns ns' : list dependency_node_t) (d : cstring) :
  node_names ns = node_names ns' -> find_node_from ns d = find_node_from ns' d.
Proof.
  revert ns'; induction ns as [|n ns IH]; intros [|n' ns'] H; try discriminate;
    [reflexivity|].
  injection H as Hn Hr. simpl. rewrite Hn, (IH ns' Hr). reflexivity.
Qed.

Lemma update_node_skeleton (f : dependency_node_t -> dependency_node_t) idx ns :
  (forall n, node_package_name (f n) = node_package_name n /\
             node_dependencies (f n) = node_dependencies n) ->
  skeleton (update_node f idx ns) = skeleton ns.
Proof.
  intro Hf. revert idx; induction ns as [|n ns IH]; intros [|idx]; simpl;
    try reflexivity.
  - destruct (Hf n) as [-> ->]. reflexivity.
  - now rewrite IH.
Qed.

Lemma set_flags_keeps (v s : bool) (n : dependency_node_t) :
  node_package_name (set_flags v s n) = node_package_name n /\
  node_dependencies (set_flags v s n) = node_dependencies n.
Proof. split; reflexivity. Qed.

Lemma dfs_visit_skeleton descend idx deps ns b ns' :
  (forall j ns1 b1 ns2, descend j ns1 = Some (b1, ns2) -> skeleton ns2 = skeleton ns1) ->
  dfs_visit descend idx deps ns = Some (b, ns') -> skeleton ns' = skeleton ns.
Proof.
  intro Hd. revert ns; induction deps as [|d deps IH]; intros ns H; simpl in H.
  - injection H as _ <-. apply update_node_skeleton. intro n. apply set_flags_keeps.
  - destruct (find_node_from ns d) as [j|]; [|now apply IH].
    destruct (nth_error ns j) as [dn|]; [|now apply IH].
    destruct (node_in_stack dn); [now injection H as _ <-|].
    destruct (node_visited dn); simpl in H; [now apply IH|].
    destruct (descend j ns) as [[[|] ns1]|] eqn:Hj; [| |discriminate].
    + injection H as _ <-. now apply (Hd j ns true).
    + rewrite (IH ns1 H). now apply (Hd j ns false).
Qed.

Lemma dfs_cycle_check_skeleton fuel idx ns b ns' :
  dfs_cycle_check fuel idx ns = Some (b, ns') -> skeleton ns' = skeleton ns.
Proof.
  revert idx ns b ns'; induction fuel as [|fuel IH]; intros idx ns b ns' H;
    [discriminate|].
  simpl in H. apply dfs_visit_skeleton in H; [|exact (fun j => IH j)].
  rewrite H. apply update_node_skeleton. intro n. apply set_flags_keeps.
Qed.

Lemma detect_from_skeleton fuel idx count ns b ns' :
  detect_from fuel idx count ns = Some (b, ns') -> skeleton ns' = skeleton ns.
Proof.
  revert idx ns; induction count as [|count IH]; intros idx ns H; simpl in H.
  - now injection H as _ <-.
  - destruct (nth_error ns idx) as [n|]; [|now injection H as _ <-].
    destruct (node_visited n); [now apply (IH (S idx))|].
    destruct (dfs_cycle_check fuel idx ns) as [[[|] ns1]|] eqn:Hd; [| |discriminate].
    + injection H as _ <-. now apply dfs_cycle_check_skeleton in Hd.
    + rewrite (IH _ _ H). now apply dfs_cycle_check_skeleton in Hd.
Qed.

(** Cycle detection only touches the marks of the nodes. *)
Lemma dependency_detect_cycles_skeleton graph r graph' :
  dependency_detect_cycles graph = Some (r, graph') ->
  skeleton (nodes graph') = skeleton (nodes graph) /\
  node_count graph' = node_count graph.
Proof.
  unfold dependency_detect_cycles. intro H.
  assert (Hm : skeleton (map (set_flags false false) (nodes graph)) = skeleton (nodes graph)).
  { unfold skeleton. rewrite map_map. reflexivity. }
  destruct (detect_from _ 0 _ _) as [[[|] ns']|] eqn:Hd; [| |discriminate];
    injection H as _ <-; apply detect_from_skeleton in Hd; simpl;
    (split; [congruence|reflexivity]).
Qed.

Lemma find_node_from_none (ns : list dependency_node_t) (d : cstring) :
  find_node_from ns d = None <-> ~ In d (node_names ns).
Proof.
  induction ns as [|n ns IH]; simpl; [tauto|].
  destruct (TINYPKG_STREQ (node_package_name n) d) eqn:Heq.
  - apply TINYPKG_STREQ_eq in Heq. split; [discriminate|]. intro H. exfalso. auto.
  - apply TINYPKG_STREQ_neq in Heq.
    destruct (find_node_from ns d); simpl.
    + split; [discriminate|]. intro H. exfalso.
      assert (Hn : ~ In d (node_names ns)) by tauto.
      apply IH in Hn. discriminate.
    + split; [|reflexivity]. intros _ [H|H]; [contradiction|].
      now apply (proj1 IH).
Qed.

Lemma find_node_from_nodup (ns : list dependency_node_t) (j : nat) (d : cstring) :
  NoDup (node_names ns) -> nth_error (node_names ns) j = Some d ->
  find_node_from ns d = Some j.
Proof.
  revert j; induction ns as [|n ns IH]; intros j Hnd Hj.
  - destruct j; discriminate.
  - simpl in Hnd. inversion Hnd as [|? ? Hnotin Hnd']; subst.
    destruct j as [|j]; simpl in *.
    + injection Hj as <-. now rewrite TINYPKG_STREQ_refl.
    + destruct (TINYPKG_STREQ (node_package_name n) d) eqn:Heq.
      * apply TINYPKG_STREQ_eq in Heq. subst d. exfalso. apply Hnotin.
        eapply nth_error_In; eassumption.
      * now rewrite (IH j Hnd' Hj).
Qed.

Lemma dependency_node_create_fits (d : cstring) :
  fits_name d -> dependency_node_create d = mk_node d [] false false.
Proof.
  intro H. unfold dependency_node_create. rewrite strncpy_short; [reflexivity|].
  unfold fits_name in H. lia.
Qed.

Lemma dependency_graph_add_package_graph (g : dependency_graph_t) (d : cstring) :
  snd (dependency_graph_add_package g d) =
  match find_node_from (nodes g) d with
  | Some _ => g
  | None => mk_graph (dependency_node_create d :: nodes g) (S (node_count g))
              (has_cycles g)
  end.
Proof.
  unfold dependency_graph_add_package, dependency_graph_find_node.
  now destruct (find_node_from (nodes g) d).
Qed.

(** Adding the dependencies [D] links in one leaf for each new name. *)
Lemma add_packages_shape (D : list cstring) (g : dependency_graph_t) :
  Forall fits_name D ->
  let g' := fold_left (fun g dep => snd (dependency_graph_add_package g dep)) D g in
  exists news,
    skeleton (nodes g') = map leaf news ++ skeleton (nodes g) /\
    node_count g' = (length news + node_count g)%nat /\
    NoDup news /\
    (forall d, In d news -> In d D /\ ~ In d (node_names (nodes g))).
Proof.
  revert g; induction D as [|d D IH]; intros g HD; simpl.
  - exists []. split; [reflexivity|]. split; [reflexivity|].
    split; [constructor|]. intros d [].
  - inversion HD as [|? ? Hd HD']; subst.
    rewrite dependency_graph_add_package_graph.
    destruct (find_node_from (nodes g) d) eqn:Hf.
    + destruct (IH g HD') as (news & Hs & Hc & Hnd & Hin).
      exists news. split; [assumption|]. split; [assumption|].
      split; [assumption|]. intros a Ha. destruct (Hin a Ha). split; [now right|assumption].
    + rewrite (dependency_node_create_fits d Hd).
      destruct (IH (mk_graph (mk_node d [] false false :: nodes g)
                      (S (node_count g)) (has_cycles g)) HD')
        as (news & Hs & Hc & Hnd & Hin).
      cbn [nodes node_count] in Hs, Hc, Hin.
      cbn [skeleton map node_package_name node_dependencies node_names] in Hs, Hin.
      apply find_node_from_none in Hf.
      exists (news ++ [d]). split; [|split; [|split]].
      * rewrite Hs, map_app, <- app_assoc. reflexivity.
      * rewrite Hc, length_app. simpl. lia.
      * apply NoDup_app; [assumption|repeat constructor; auto|].
        intros a Ha [<-|[]]. apply Hin in Ha as [_ Ha]. apply Ha. now left.
      * intros a Ha. apply in_app_or in Ha as [Ha|[<-|[]]].
        -- destruct (Hin a Ha) as [H1 H2]. split; [now right|].
           intro Hg. apply H2. now right.
        -- split; [now left|assumption].
Qed.

(** ** In-degrees and the first node out of the queue *)

Lemma update_at_length (f : Z -> Z) (j : nat) (a : list Z) :
  length (update_at f j a) = length a.
Proof.
  revert j; induction a as [|z a IH]; intros [|j]; simpl; try reflexivity.
  now rewrite IH.
Qed.

Lemma update_at_ge (f : Z -> Z) (j k : nat) (a : list Z) :
  (forall z, z <= f z) -> nth k a 0 <= nth k (update_at f j a) 0.
Proof.
  intro Hf. revert j k; induction a as [|z a IH]; intros [|j] [|k]; simpl;
    try apply Z.le_refl; auto.
Qed.

Lemma update_at_hit (f : Z -> Z) (j : nat) (a : list Z) :
  (j < length a)%nat -> nth j (update_at f j a) 0 = f (nth j a 0).
Proof.
  revert j; induction a as [|z a IH]; intros [|j] H; simpl in *;
    try reflexivity; try lia.
  apply IH. lia.
Qed.

Lemma count_step_length g a d : length (count_step g a d) = length a.
Proof. unfold count_step. destruct (first_named g d); [apply update_at_length|reflexivity]. Qed.

Lemma count_fold_length g D a : length (fold_left (count_step g) D a) = length a.
Proof.
  revert a; induction D as [|d D IH]; intro a; simpl; [reflexivity|].
  now rewrite IH, count_step_length.
Qed.

Lemma count_step_ge g a d k : nth k a 0 <= nth k (count_step g a d) 0.
Proof.
  unfold count_step. destruct (first_named g d); [|apply Z.le_refl].
  apply update_at_ge. intro z. lia.
Qed.

Lemma count_fold_ge g D a k : nth k a 0 <= nth k (fold_left (count_step g) D a) 0.
Proof.
  revert a; induction D as [|d D IH]; intro a; simpl; [apply Z.le_refl|].
  eapply Z.le_trans; [apply (count_step_ge g a d k)|apply IH].
Qed.

Lemma count_fold_hit g D a d j :
  In d D -> first_named g d = Some j -> (j < length a)%nat ->
  nth j a 0 + 1 <= nth j (fold_left (count_step g) D a) 0.
Proof.
  revert a; induction D as [|d' D IH]; intros a Hin Hf Hj; [contradiction|].
  simpl. destruct Hin as [->|Hin].
  - eapply Z.le_trans; [|apply count_fold_ge].
    unfold count_step. rewrite Hf, update_at_hit by assumption. apply Z.le_refl.
  - eapply Z.le_trans; [|apply IH; try assumption].
    + pose proof (count_step_ge g a d' j). lia.
    + now rewrite count_step_length.
Qed.

Lemma fold_left_flat_map {A B C} (f : A -> C -> A) (h : B -> list C) l a :
  fold_left (fun a n => fold_left f (h n) a) l a = fold_left f (flat_map h l) a.
Proof.
  revert a; induction l as [|n l IH]; intro a; simpl; [reflexivity|].
  now rewrite fold_left_app, IH.
Qed.

Lemma count_in_degrees_fold (g : dependency_graph_t) :
  count_in_degrees g =
  fold_left (count_step g) (flat_map node_dependencies (nodes g))
    (repeat 0 (node_count g)).
Proof. unfold count_in_degrees. now rewrite <- fold_left_flat_map. Qed.

Lemma flat_map_skeleton (ns : list dependency_node_t) :
  flat_map node_dependencies ns = flat_map snd (skeleton ns).
Proof.
  induction ns as [|n ns IH]; simpl; [reflexivity|]. now rewrite IH.
Qed.

Lemma flat_map_leaves (news : list cstring) (tail : list (cstring * list cstring)) :
  flat_map snd (map leaf news ++ tail) = flat_map snd tail.
Proof. induction news as [|d news IH]; simpl; [reflexivity|assumption]. Qed.

Lemma filter_seq_none (p : nat -> bool) (m : nat) :
  (forall j, (j < m)%nat -> p j = false) -> filter p (seq 0 m) = [].
Proof.
  intro H. induction m as [|m IH]; [reflexivity|].
  rewrite seq_S, filter_app, IH by (intros; apply H; lia).
  simpl. rewrite H by lia. reflexivity.
Qed.

(** The result list of the Kahn loop only grows. *)
Lemma kahn_loop_prefix fuel g a q s res r :
  kahn_loop fuel g a q s res = Some r -> exists t, r = res ++ t.
Proof.
  revert a q s res; induction fuel as [|fuel IH]; intros a q s res H; simpl in H.
  - destruct (nth_error q s); [discriminate|]. injection H as <-. exists [].
    now rewrite app_nil_r.
  - destruct (nth_error q s) as [i|]; [|injection H as <-; exists []; now rewrite app_nil_r].
    destruct (nth_error (nodes g) i) as [cur|]; [|discriminate].
    destruct (release_dependencies g (node_dependencies cur) a q) as [[a' q']|];
      [|discriminate].
    apply IH in H as (t & ->). exists (node_package_name cur :: t).
    now rewrite <- app_assoc.
Qed.

Lemma node_names_skeleton (ns : list dependency_node_t) :
  node_names ns = map fst (skeleton ns).
Proof. unfold node_names, skeleton. now rewrite map_map. Qed.

Lemma map_fst_leaf (news : list cstring) : map fst (map leaf news) = news.
Proof. rewrite map_map. apply map_id. Qed.

(** On the graph of [resolve_graph_shape] a successful sort starts with
    the requested package: of all nodes only it can have in-degree 0. *)
Lemma topological_sort_head (g : dependency_graph_t) x news D order :
  skeleton (nodes g) = map leaf news ++ [(x, D)] ->
  node_count g = S (length news) ->
  NoDup news -> ~ In x news -> (forall d, In d news -> In d D) ->
  dependency_graph_topological_sort g = Some (TINYPKG_SUCCESS, order) ->
  exists rest, order = x :: rest.
Proof.
  intros Hs Hc Hnd Hx HD Hsort.
  assert (Hlen : length (nodes g) = S (length news)).
  { rewrite <- (length_map (fun n => (node_package_name n, node_dependencies n))).
    fold (skeleton (nodes g)). rewrite Hs, length_app, length_map. simpl. lia. }
  assert (Hnames : node_names (nodes g) = news ++ [x]).
  { now rewrite node_names_skeleton, Hs, map_app, map_fst_leaf. }
  assert (Hnd' : NoDup (node_names (nodes g))).
  { rewrite Hnames. apply NoDup_app; [assumption|repeat constructor; auto|].
    intros a Ha [<-|[]]. contradiction. }
  assert (Hfirst : forall j d, nth_error (news ++ [x]) j = Some d ->
                               first_named g d = Some j).
  { intros j d Hj. unfold first_named. rewrite Hc, <- Hlen, firstn_all.
    apply find_node_from_nodup; [assumption|]. now rewrite Hnames. }
  set (a := count_in_degrees g) in *.
  assert (Ha : a = fold_left (count_step g) D (repeat 0 (node_count g))).
  { subst a. rewrite count_in_degrees_fold, flat_map_skeleton, Hs, flat_map_leaves.
    simpl. now rewrite app_nil_r. }
  assert (Hpos : forall j, (j < length news)%nat -> (nth j a 0 =? 0) = false).
  { intros j Hj. apply Z.eqb_neq.
    destruct (nth_error news j) as [d|] eqn:Hd;
      [|apply nth_error_None in Hd; lia].
    pose proof (count_fold_hit g D (repeat 0 (node_count g)) d j
                  (HD d (nth_error_In _ _ Hd))) as Hhit.
    rewrite <- Ha in Hhit.
    assert (H0 : nth j (repeat 0 (node_count g)) 0 = 0)
      by (apply nth_repeat).
    rewrite H0 in Hhit.
    assert (1 <= nth j a 0); [|lia].
    apply Hhit.
    - apply Hfirst. rewrite nth_error_app1 by lia. assumption.
    - rewrite repeat_length, Hc. lia. }
  unfold dependency_graph_topological_sort in Hsort. rewrite Hc in Hsort.
  fold a in Hsort.
  unfold zero_in_degree in Hsort.
  rewrite seq_S, filter_app, (filter_seq_none _ _ Hpos) in Hsort.
  cbn [app filter Nat.add] in Hsort.
  destruct (nth (length news) a 0 =? 0).
  - cbn [kahn_loop nth_error] in Hsort.
    destruct (nth_error (nodes g) (length news)) as [cur|] eqn:Hcur; [|discriminate].
    assert (Hname : node_package_name cur = x).
    { apply (map_nth_error node_package_name) in Hcur. fold (node_names (nodes g)) in Hcur.
      rewrite Hnames, nth_error_app2, Nat.sub_diag in Hcur by lia.
      now injection Hcur. }
    destruct (release_dependencies g (node_dependencies cur) a [length news])
      as [[a' q']|]; [|discriminate].
    destruct (kahn_loop (length news) g a' q' 1 ([] ++ [node_package_name cur]))
      as [r|] eqn:Hk; [|discriminate].
    apply kahn_loop_prefix in Hk as (t & ->). rewrite Hname in Hsort.
    destruct (length (([] ++ [x]) ++ t) =? S (length news))%nat;
      [|discriminate].
    injection Hsort as Horder. exists t. now rewrite <- Horder.
  - cbn [kahn_loop nth_error length Nat.eqb] in Hsort. discriminate.
Qed.

Section Resolver.

Variable E : env.

(** The graph [dependency_resolve] sorts: the requested package last,
    holding its declared dependencies, and in front of it one leaf for
    each of them; nothing else was loaded. *)
Lemma resolve_graph_shape (x : cstring) :
  fits_name x ->
  (forall pkg, json_parser_load_package E x = Some pkg ->
               Forall fits_name (pkg_dependencies pkg)) ->
  let g := snd (dependency_graph_build E
                  (snd (dependency_graph_add_package dependency_graph_create x))) in
  exists news D,
    skeleton (nodes g) = map leaf news ++ [(x, D)] /\
    node_count g = S (length news) /\
    NoDup news /\ ~ In x news /\
    (forall d, In d news -> In d D).
Proof.
  intros Hx Hdeps g. subst g.
  rewrite dependency_graph_add_package_graph. cbn [find_node_from nodes dependency_graph_create].
  rewrite (dependency_node_create_fits x Hx).
  unfold dependency_graph_build. cbn [snd nodes graph_build_walk node_dependencies
                                       node_package_name node_count has_cycles].
  unfold package_load_info.
  destruct (json_parser_load_package E x) as [pkg|] eqn:Hl.
  2:{ exists [], []. repeat split; [constructor|tauto|contradiction]. }
  specialize (Hdeps pkg eq_refl).
  destruct (pkg_dependencies pkg) as [|d D] eqn:HD.
  { exists [], []. repeat split; [constructor|tauto|contradiction]. }
  rewrite <- HD in *. clear HD d D.
  cbn [length Nat.sub with_nodes nodes node_count has_cycles update_node].
  destruct (add_packages_shape (pkg_dependencies pkg)
              (mk_graph [set_dependencies (pkg_dependencies pkg) (mk_node x [] false false)]
                 1 false) Hdeps) as (news & Hs & Hc & Hnd & Hin).
  cbn [nodes node_count skeleton map set_dependencies node_package_name
       node_dependencies node_names] in Hs, Hc, Hin.
  exists news, (pkg_dependencies pkg).
  unfold with_nodes, dependency_graph_create. cbn [nodes node_count has_cycles].
  split; [exact Hs|]. split; [rewrite Hc; lia|]. split; [assumption|].
  split.
  - intro Hin'. apply Hin in Hin' as [_ Hn]. apply Hn. now left.
  - intros d Hd. now apply Hin.
Qed.

Lemma dependency_graph_add_package_code (g : dependency_graph_t) (d : cstring) :
  fst (dependency_graph_add_package g d) = TINYPKG_SUCCESS.
Proof.
  unfold dependency_graph_add_package. now destruct (dependency_graph_find_node g d).
Qed.

(** A successful [dependency_resolve] puts the requested package first. *)
Lemma dependency_resolve_head (x : cstring) (order : list cstring) :
  fits_name x ->
  (forall pkg, json_parser_load_package E x = Some pkg ->
               Forall fits_name (pkg_dependencies pkg)) ->
  dependency_resolve E x = Some (TINYPKG_SUCCESS, order) ->
  exists rest, order = x :: rest.
Proof.
  intros Hx Hdeps Hres.
  destruct (resolve_graph_shape x Hx Hdeps) as (news & D & Hs & Hc & Hnd & Hnotin & HD).
  unfold dependency_resolve in Hres.
  pose proof (dependency_graph_add_package_code dependency_graph_create x) as Hadd.
  destruct (dependency_graph_add_package dependency_graph_create x) as [r0 g0].
  cbn [fst snd] in *. subst r0.
  change (negb (TINYPKG_SUCCESS =? TINYPKG_SUCCESS)) with false in Hres. cbv iota in Hres.
  unfold dependency_graph_build in Hres, Hs, Hc. cbn [snd] in Hs, Hc.
  change (negb (TINYPKG_SUCCESS =? TINYPKG_SUCCESS)) with false in Hres. cbv iota in Hres.
  destruct (dependency_detect_cycles (graph_build_walk E g0 (nodes g0)))
    as [[r g1]|] eqn:Hdet; [|discriminate].
  apply dependency_detect_cycles_skeleton in Hdet as [Hsk Hcount].
  destruct (r =? TINYPKG_SUCCESS); cbn [negb] in Hres; [|discriminate].
  apply (topological_sort_head g1 x news D order); try assumption.
  - now rewrite Hsk.
  - now rewrite Hcount.
Qed.

End Resolver.

(** ** What a first install records *)

Lemma build_event_save_keeps (n : cstring) (ev : event) :
  build_event ev -> save_keeps n ev.
Proof. destruct ev; simpl; try exact (fun _ => I). intros [H|H]; discriminate. Qed.

Lemma step_event_save_keeps (n : cstring) (ev : event) :
  step_event ev = true -> save_keeps n ev.
Proof. intro H. apply build_event_save_keeps. now left. Qed.

Lemma load_line_suffix head line : exists new, load_line head line = new ++ head.
Proof.
  unfold load_line. destruct line as [|c l]; [now exists []|].
  destruct (Ascii.eqb c HASH || Ascii.eqb c NEWLINE); [now exists []|].
  destruct (sscanf_entry (c :: l)) as [fields e].
  destruct (3 <=? fields); [now exists [e]|now exists []].
Qed.

Lemma load_rows_suffix head content : exists new, load_rows head content = new ++ head.
Proof.
  unfold load_rows. generalize (fgets_lines content). intro lines.
  revert head; induction lines as [|l lines IH]; intro head; simpl.
  - now exists [].
  - destruct (load_line_suffix head l) as (n1 & ->).
    destruct (IH (n1 ++ head)) as (n2 & ->). exists (n2 ++ n1). now rewrite app_assoc.
Qed.

Lemma find_none_app n (new head : list package_db_entry_t) :
  package_db_find n (new ++ head) = None -> package_db_find n head = None.
Proof.
  intro H. apply find_none_iff. apply find_none_iff in H. intro Hin. apply H.
  unfold names. rewrite map_app. apply in_or_app. now right.
Qed.

(** A name absent once the database is loaded was absent before. *)
Lemma absent_before_load n st :
  package_db_find n (package_db_head (snd (package_db_load st))) = None ->
  package_db_find n (package_db_head st) = None.
Proof.
  unfold package_db_load. destruct (package_db_loaded st); [auto|].
  destruct (installed_txt st) as [content|]; cbn [snd set_db_loaded package_db_head]; [|auto].
  destruct (load_rows_suffix (package_db_head st) content) as (new & ->).
  apply find_none_app.
Qed.

Section Install.

Variable E : env.

Lemma package_db_load_snd_loaded st :
  package_db_loaded (snd (package_db_load st)) = true.
Proof.
  unfold package_db_load. destruct (package_db_loaded st) eqn:H; [assumption|].
  now destruct (installed_txt st).
Qed.

Lemma package_db_load_file st :
  installed_txt (snd (package_db_load st)) = installed_txt st.
Proof.
  unfold package_db_load. destruct (package_db_loaded st); [reflexivity|].
  destruct (installed_txt st) eqn:H; cbn [snd set_db_loaded installed_txt]; congruence.
Qed.

Lemma check_conflicts_from_loaded conflicts st :
  package_db_loaded st = true -> snd (check_conflicts_from conflicts st) = st.
Proof.
  intro Hl. induction conflicts as [|c cs IH]; simpl; [reflexivity|].
  rewrite package_is_installed_eq, package_db_load_loaded by assumption.
  cbn [snd]. destruct (package_db_find c (package_db_head st)); [reflexivity|assumption].
Qed.

Lemma utils_create_directory_recursive_steps' path st :
  steps_only st (snd (utils_create_directory_recursive E path st)).
Proof. apply utils_create_directory_recursive_steps. Qed.

Lemma build_context_create_steps pkg st :
  steps_only st (snd (build_context_create E pkg st)).
Proof.
  unfold build_context_create, build_context_setup_directories.
  cbn [ctx_build_dir ctx_source_dir ctx_install_dir].
  match goal with
  | |- context [utils_create_directory_recursive E ?p st] =>
      pose proof (utils_create_directory_recursive_steps E p st) as Q1;
      destruct (utils_create_directory_recursive E p st) as [r1 s1]
  end.
  match goal with
  | |- context [utils_create_directory_recursive E ?p s1] =>
      pose proof (utils_create_directory_recursive_steps E p s1) as Q2;
      destruct (utils_create_directory_recursive E p s1) as [r2 s2]
  end.
  match goal with
  | |- context [utils_create_directory_recursive E ?p s2] =>
      pose proof (utils_create_directory_recursive_steps E p s2) as Q3;
      destruct (utils_create_directory_recursive E p s2) as [r3 s3]
  end.
  cbn [snd] in *.
  pose proof (steps_only_trans _ _ _ Q1 (steps_only_trans _ _ _ Q2 Q3)) as T.
  match goal with
  | |- context [negb ?b] => destruct b
  end; exact T.
Qed.

(** [build_package] leaves the database alone and saves nothing. *)
Lemma build_package_effect pkg st :
  extends build_event st (snd (build_package E pkg st)) /\
  same_db st (snd (build_package E pkg st)).
Proof.
  unfold build_package.
  pose proof (build_context_create_steps pkg st) as [Q0 D0].
  destruct (build_context_create E pkg st) as [[ctx|] st0]; cbn [snd] in *.
  2:{ split; [|assumption]. eapply extends_weaken; [|exact Q0]. intros ev H. now left. }
  set (ctx1 := set_start_time ctx (time_now E (trace st0))).
  assert (Ha : steps_only st0 (snd (add_active_build ctx1 st0))).
  { unfold add_active_build. destruct (16 <=? length (active_builds st0))%nat;
      [apply steps_only_refl|apply steps_only_table]. }
  destruct (add_active_build ctx1 st0) as [ra st1]. cbn [snd] in Ha.
  pose proof (build_steps_steps E ctx1 st1) as (Q2 & _ & _).
  destruct (build_steps E ctx1 st1) as [[result ctx2] st2]. cbn [snd] in Q2.
  destruct (steps_only_trans _ _ _ (conj Q0 D0) (steps_only_trans _ _ _ Ha Q2)) as [T2 D2].
  assert (T2' : extends build_event st st2).
  { eapply extends_weaken; [|exact T2]. intros ev H. now left. }
  assert (Hfin : forall c s (b : bool),
             extends build_event st s -> same_db st s ->
             extends build_event st
               (if b then snd (build_context_cleanup E c (remove_active_build c s))
                else remove_active_build c s) /\
             same_db st
               (if b then snd (build_context_cleanup E c (remove_active_build c s))
                else remove_active_build c s)).
  { intros c s b T D. destruct b.
    - split.
      + eapply extends_trans; [exact T|].
        destruct T as (evs & Ht & Hf). exists [EvRmdir (ctx_build_dir c)].
        split; [reflexivity|]. constructor; [now right|constructor].
      + exact D.
    - split; [|exact D]. destruct T as (evs & Ht & Hf). exists evs. now split. }
  destruct (negb (result =? TINYPKG_SUCCESS)); cbn [snd]; apply Hfin;
    assumption.
Qed.

Lemma build_install_files_steps ctx st :
  steps_only st (snd (build_install_files E ctx st)).
Proof.
  unfold build_install_files.
  match goal with
  | |- context [utils_run_command E ?c ?w st] =>
      pose proof (utils_run_command_steps E c w st) as Q1;
      destruct (utils_run_command E c w st) as [r1 s1]
  end.
  cbn [snd] in Q1. destruct (r1 =? TINYPKG_SUCCESS); [|exact Q1].
  eapply steps_only_trans; [exact Q1|apply utils_run_command_steps].
Qed.

Lemma build_install_package_steps pkg st :
  steps_only st (snd (build_install_package E pkg st)).
Proof.
  unfold build_install_package.
  pose proof (build_context_create_steps pkg st) as Q0.
  destruct (build_context_create E pkg st) as [[ctx|] st0]; cbn [snd] in *;
    [|exact Q0].
  eapply steps_only_trans; [exact Q0|apply build_install_files_steps].
Qed.

Lemma file_keeps_refl n st : file_keeps n st st.
Proof. now left. Qed.

Lemma file_keeps_trans n st1 st2 st3 :
  file_keeps n st1 st2 -> file_keeps n st2 st3 -> file_keeps n st1 st3.
Proof.
  intros [H1|(r1 & H1 & K1)] [H2|(r2 & H2 & K2)].
  - left. congruence.
  - right. now exists r2.
  - right. exists r1. split; [congruence|assumption].
  - right. now exists r2.
Qed.

Lemma same_db_file_keeps n st st' : same_db st st' -> file_keeps n st st'.
Proof. intros (_ & _ & H). now left. Qed.

Lemma package_db_save_effect n st :
  row_installed_or_absent n (package_db_head st) ->
  extends (save_keeps n) st (snd (package_db_save E st)) /\
  package_db_head (snd (package_db_save E st)) = package_db_head st /\
  file_keeps n st (snd (package_db_save E st)).
Proof.
  intro Hrow. unfold package_db_save.
  destruct (fopen_w_ok E (trace st)); cbn [snd].
  - split; [|split].
    + exists [EvDbSave (package_db_head st) true]. split; [reflexivity|].
      constructor; [exact Hrow|constructor].
    + reflexivity.
    + right. exists (package_db_head st). now split.
  - split; [|split].
    + exists [EvDbSave (package_db_head st) false]. split; [reflexivity|].
      constructor; [exact Hrow|constructor].
    + reflexivity.
    + now left.
Qed.

Lemma unlink_entry_find_none n m head head' :
  package_db_find n head = None -> unlink_entry m head = Some head' ->
  package_db_find n head' = None.
Proof.
  intros Hf Hu. apply find_none_iff. apply find_none_iff in Hf.
  intro Hin. apply Hf. now apply (unlink_entry_names m head head').
Qed.

Lemma set_db_effect n head st :
  extends (save_keeps n) st (set_db head st) /\ file_keeps n st (set_db head st).
Proof. split; [now apply extends_same_trace|now left]. Qed.

(** [package_db_add] during the install of an absent [n]: whatever is
    saved has [n] installed or absent. *)
Lemma package_db_add_effect n pkg st :
  package_db_find n (package_db_head st) = None ->
  extends (save_keeps n) st (snd (package_db_add E pkg st)) /\
  row_installed_or_absent n (package_db_head (snd (package_db_add E pkg st))) /\
  file_keeps n st (snd (package_db_add E pkg st)).
Proof.
  intro Hn. unfold package_db_add.
  assert (H1 : extends (save_keeps n) st (snd (package_db_remove E (pkg_name pkg) st)) /\
               package_db_find n
                 (package_db_head (snd (package_db_remove E (pkg_name pkg) st))) = None /\
               file_keeps n st (snd (package_db_remove E (pkg_name pkg) st))).
  { unfold package_db_remove.
    destruct (unlink_entry (pkg_name pkg) (package_db_head st)) as [head'|] eqn:Hu.
    - pose proof (unlink_entry_find_none _ _ _ _ Hn Hu) as Hn'.
      destruct (package_db_save_effect n (set_db head' st)) as (X1 & X2 & X3).
      { unfold row_installed_or_absent. cbn [set_db package_db_head]. now rewrite Hn'. }
      split; [|split].
      + eapply extends_trans; [apply (set_db_effect n head' st)|exact X1].
      + rewrite X2. exact Hn'.
      + eapply file_keeps_trans; [apply (set_db_effect n head' st)|exact X3].
    - cbn [snd]. split; [apply extends_refl|]. split; [assumption|apply file_keeps_refl]. }
  destruct (package_db_remove E (pkg_name pkg) st) as [r st1]. cbn [snd] in H1.
  destruct H1 as (X1 & Hn1 & X3).
  set (rows := entry_of_package pkg :: package_db_head st1).
  assert (Hrows : row_installed_or_absent n rows).
  { unfold row_installed_or_absent, rows. cbn [package_db_find].
    destruct (TINYPKG_STREQ (entry_name (entry_of_package pkg)) n); [reflexivity|].
    now rewrite Hn1. }
  destruct (package_db_save_effect n (set_db rows st1)) as (Y1 & Y2 & Y3);
    [exact Hrows|].
  split; [|split].
  - eapply extends_trans; [exact X1|].
    eapply extends_trans; [apply (set_db_effect n rows st1)|exact Y1].
  - rewrite Y2. exact Hrows.
  - eapply file_keeps_trans; [exact X3|].
    eapply file_keeps_trans; [apply (set_db_effect n rows st1)|exact Y3].
Qed.

Lemma keeps_record_steps n st st' :
  package_db_find n (package_db_head st) = None ->
  extends build_event st st' -> same_db st st' ->
  keeps_record n st st' /\ package_db_find n (package_db_head st') = None.
Proof.
  intros Hn He Hd. pose proof Hd as (Hh & _ & _).
  assert (Hn' : package_db_find n (package_db_head st') = None) by now rewrite Hh.
  split; [|assumption]. split; [|split].
  - eapply extends_weaken; [|exact He]. apply build_event_save_keeps.
  - unfold row_installed_or_absent. now rewrite Hn'.
  - now apply same_db_file_keeps.
Qed.

Lemma keeps_record_trans n st1 st2 st3 :
  keeps_record n st1 st2 -> keeps_record n st2 st3 -> keeps_record n st1 st3.
Proof.
  intros (A1 & _ & A3) (B1 & B2 & B3). split; [|split].
  - eapply extends_trans; eassumption.
  - assumption.
  - eapply file_keeps_trans; eassumption.
Qed.

Lemma keeps_record_refl n st :
  package_db_find n (package_db_head st) = None -> keeps_record n st st.
Proof.
  intro Hn. split; [apply extends_refl|]. split; [|apply file_keeps_refl].
  unfold row_installed_or_absent. now rewrite Hn.
Qed.

Lemma steps_only_build_event st st' :
  steps_only st st' -> extends build_event st st' /\ same_db st st'.
Proof.
  intros [H D]. split; [|assumption]. eapply extends_weaken; [|exact H].
  intros ev Hev. now left.
Qed.

(** The tail of [package_install] for a package without a row. *)
Lemma build_and_register_keeps n pkg st :
  package_db_find n (package_db_head st) = None ->
  keeps_record n st (snd (build_and_register E n pkg st)).
Proof.
  intro Hn. unfold build_and_register.
  rewrite (package_set_state_absent E n _ st Hn).
  pose proof (build_package_effect pkg st) as [Q1 D1].
  destruct (build_package E pkg st) as [[result pkg1] st1]. cbn [snd] in Q1, D1.
  destruct (keeps_record_steps n st st1 Hn Q1 D1) as [K1 Hn1].
  rewrite !(package_set_state_absent E n _ st1 Hn1).
  destruct (negb (result =? TINYPKG_SUCCESS)); cbn [snd]; [exact K1|].
  pose proof (steps_only_build_event _ _ (build_install_package_steps pkg1 st1)) as [Q2 D2].
  destruct (build_install_package E pkg1 st1) as [result2 st2]. cbn [snd] in Q2, D2.
  destruct (keeps_record_steps n st1 st2 Hn1 Q2 D2) as [K2 Hn2].
  rewrite !(package_set_state_absent E n _ st2 Hn2).
  pose proof (keeps_record_trans _ _ _ _ K1 K2) as K12.
  destruct (negb (result2 =? TINYPKG_SUCCESS)); cbn [snd]; [exact K12|].
  set (pkg2 := set_install_time pkg1 (time_now E (trace st2))).
  pose proof (package_db_add_effect n pkg2 st2 Hn2) as K3.
  destruct (package_db_add E pkg2 st2) as [r3 st3]. cbn [snd] in K3.
  pose proof (keeps_record_trans _ _ _ _ K12 K3) as K123.
  destruct (pkg_post_install_cmd pkg2) as [|c cmd]; [exact K123|].
  destruct K123 as (A1 & A2 & A3). split; [|split].
  - eapply extends_trans; [exact A1|]. apply extends_emit. exact I.
  - exact A2.
  - exact A3.
Qed.

(** One call of [package_install] for a name without a row, in a state
    whose database is loaded. *)
Lemma package_install_absent fuel n st :
  package_db_loaded st = true ->
  package_db_find n (package_db_head st) = None ->
  package_install E (S fuel) n st =
  match package_load_info E n with
  | None => (Returns TINYPKG_ERROR, st)
  | Some pkg =>
      if negb (package_validate pkg =? TINYPKG_SUCCESS)
      then (Returns (package_validate pkg), st)
      else if negb (fst (package_check_conflicts pkg st) =? TINYPKG_SUCCESS)
      then (Returns (fst (package_check_conflicts pkg st)), st)
      else match install_dependencies E (package_install E fuel) n pkg st with
           | (Returns 0, st) => build_and_register E n pkg st
           | stopped => stopped
           end
  end.
Proof.
  intros Hl Hn. cbn [package_install].
  rewrite package_is_installed_eq, package_db_load_loaded by assumption.
  cbn [snd]. rewrite Hn. cbn [andb].
  destruct (package_load_info E n) as [pkg|]; [|reflexivity].
  destruct (negb (package_validate pkg =? TINYPKG_SUCCESS)); [reflexivity|].
  pose proof (check_conflicts_from_loaded (pkg_conflicts pkg) st Hl) as Hc.
  unfold package_check_conflicts.
  destruct (check_conflicts_from (pkg_conflicts pkg) st) as [r st2].
  cbn [fst snd] in *. subst st2.
  destruct (negb (r =? TINYPKG_SUCCESS)); [reflexivity|].
  now rewrite (package_set_state_absent E n _ st Hn).
Qed.

(** With an install order that starts with the package itself and has
    more in it, [package_install] calls itself in the same state: no
    depth of calls is enough. *)
Lemma package_install_calls_itself n pkg st y rest :
  package_db_loaded st = true ->
  package_db_find n (package_db_head st) = None ->
  package_load_info E n = Some pkg ->
  package_validate pkg = TINYPKG_SUCCESS ->
  fst (package_check_conflicts pkg st) = TINYPKG_SUCCESS ->
  skip_dependencies (global_config E) = false ->
  pkg_dependencies pkg <> [] ->
  dependency_resolve E n = Some (TINYPKG_SUCCESS, n :: y :: rest) ->
  forall fuel, package_install E fuel n st = (OutOfFuel, st).
Proof.
  intros Hl Hn Hp Hv Hc Hs Hd Hr fuel.
  induction fuel as [|fuel IH]; [reflexivity|].
  rewrite package_install_absent by assumption.
  rewrite Hp, Hv, Hc. change (negb (TINYPKG_SUCCESS =? TINYPKG_SUCCESS)) with false.
  cbv iota. unfold install_dependencies. rewrite Hs, Hr.
  destruct (pkg_dependencies pkg) as [|d D]; [contradiction|].
  change (negb (TINYPKG_SUCCESS =? TINYPKG_SUCCESS)) with false. cbv iota.
  cbn [length Nat.sub firstn install_each].
  rewrite package_is_installed_eq, package_db_load_loaded by assumption.
  cbn [snd]. rewrite Hn, IH. reflexivity.
Qed.

(** The dependency block for a name without a row never changes the
    state: either there is nothing to install, or it stops. *)
Lemma install_dependencies_absent fuel n pkg st :
  fits_name n ->
  (forall pkg, json_parser_load_package E n = Some pkg ->
               Forall fits_name (pkg_dependencies pkg)) ->
  package_db_loaded st = true ->
  package_db_find n (package_db_head st) = None ->
  package_load_info E n = Some pkg ->
  package_validate pkg = TINYPKG_SUCCESS ->
  fst (package_check_conflicts pkg st) = TINYPKG_SUCCESS ->
  snd (install_dependencies E (package_install E fuel) n pkg st) = st.
Proof.
  intros Hfit Hdeps Hl Hn Hp Hv Hc. unfold install_dependencies.
  destruct (skip_dependencies (global_config E)) eqn:Hs; [reflexivity|].
  destruct (pkg_dependencies pkg) as [|d D] eqn:HD; [reflexivity|].
  destruct (dependency_resolve E n) as [[r order]|] eqn:Hr; [|reflexivity].
  destruct (r =? TINYPKG_SUCCESS) eqn:Hrs; cbn [negb].
  2:{ now rewrite (package_set_state_absent E n _ st Hn). }
  apply Z.eqb_eq in Hrs. subst r.
  destruct (dependency_resolve_head E n order Hfit Hdeps Hr) as (rest & ->).
  destruct rest as [|y rest]; [reflexivity|].
  cbn [length Nat.sub firstn install_each].
  rewrite package_is_installed_eq, package_db_load_loaded by assumption.
  cbn [snd]. rewrite Hn.
  rewrite (package_install_calls_itself n pkg st y rest); try assumption;
    [reflexivity|]. rewrite HD. discriminate.
Qed.

End Install.

(** C10.  For a name without a row, [package_set_state] returns success
    and changes nothing, in memory or on disk.  Consequently, while
    [package_install] installs a package that has no row, whatever it
    saves, keeps in memory or writes to the file has that package
    installed or absent: the states downloading, building, installing
    and failed are never recorded.  (Names are taken to fit their
    [MAX_NAME] arrays.) *)
Theorem C10_set_state_absent_is_noop (E : env) (n : cstring) :
  (forall s st,
     package_db_find n (package_db_head st) = None ->
     package_set_state E n s st = (TINYPKG_SUCCESS, st)) /\
  (fits_name n ->
   (forall pkg, json_parser_load_package E n = Some pkg ->
                Forall fits_name (pkg_dependencies pkg)) ->
   forall fuel st,
     package_db_find n (package_db_head (snd (package_db_load st))) = None ->
     keeps_record n st (snd (package_install E fuel n st))).
Proof.
  split; [intros s st; apply package_set_state_absent|].
  intros Hfit Hdeps fuel st Hn.
  pose proof (absent_before_load n st Hn) as Hn0.
  destruct fuel as [|fuel]; [now apply keeps_record_refl|].
  set (st1 := snd (package_db_load st)) in *.
  assert (Hl : package_db_loaded st1 = true) by apply package_db_load_snd_loaded.
  assert (K01 : keeps_record n st st1).
  { split; [|split].
    - apply extends_same_trace. apply package_db_load_trace.
    - unfold row_installed_or_absent. now rewrite Hn.
    - left. apply package_db_load_file. }
  assert (Hsame : package_install E (S fuel) n st = package_install E (S fuel) n st1).
  { cbn [package_install]. rewrite !package_is_installed_eq.
    fold st1. rewrite (package_db_load_loaded st1 Hl). reflexivity. }
  rewrite Hsame, package_install_absent by assumption.
  destruct (package_load_info E n) as [pkg|] eqn:Hp; [|exact K01].
  destruct (package_validate pkg =? TINYPKG_SUCCESS) eqn:Hv; cbn [negb]; [|exact K01].
  destruct (fst (package_check_conflicts pkg st1) =? TINYPKG_SUCCESS) eqn:Hc;
    cbn [negb]; [|exact K01].
  apply Z.eqb_eq in Hv, Hc.
  pose proof (install_dependencies_absent E fuel n pkg st1 Hfit Hdeps Hl Hn Hp Hv Hc) as Hst.
  destruct (install_dependencies E (package_install E fuel) n pkg st1) as [out st2].
  cbn [snd] in Hst. subst st2.
  assert (Kreg : keeps_record n st (snd (build_and_register E n pkg st1))).
  { eapply keeps_record_trans; [exact K01|]. now apply build_and_register_keeps. }
  destruct out as [[| |]| |]; try exact K01. exact Kreg.
Qed.

(** ** Printing and scanning numbers *)

Lemma code_digit_char (d : N) : (d < 10)%N -> code (digit_char d) = (48 + d)%N.
Proof.
  intro H. unfold code, digit_char. apply N_ascii_embedding. lia.
Qed.

Lemma isdigit_digit_char (d : N) : (d < 10)%N -> isdigit (digit_char d) = true.
Proof.
  intro H. unfold isdigit. rewrite code_digit_char by assumption.
  apply andb_true_iff. split; apply N.leb_le; lia.
Qed.

Lemma isdigit_code (c : ascii) :
  isdigit c = true <-> (48 <= code c <= 57)%N.
Proof.
  unfold isdigit. rewrite andb_true_iff, !N.leb_le. tauto.
Qed.

Lemma ascii_eqb_code (c d : ascii) : code c <> code d -> Ascii.eqb c d = false.
Proof.
  intro H. destruct (Ascii.eqb c d) eqn:Heq; [|reflexivity].
  apply Ascii.eqb_eq in Heq. subst. contradiction.
Qed.

Lemma isdigit_not_space (c : ascii) : isdigit c = true -> isspace c = false.
Proof.
  intro H. apply isdigit_code in H. unfold isspace.
  apply orb_false_iff. split.
  - apply N.eqb_neq. lia.
  - apply andb_false_iff. right. apply N.leb_gt. lia.
Qed.

Lemma isdigit_not_sign (c : ascii) :
  isdigit c = true -> Ascii.eqb c MINUS = false /\ Ascii.eqb c PLUS = false.
Proof.
  intro H. apply isdigit_code in H.
  split; apply ascii_eqb_code; unfold MINUS, PLUS, code;
    rewrite N_ascii_embedding by lia; fold (code c); lia.
Qed.

Lemma isdigit_not_newline (c : ascii) :
  isdigit c = true -> Ascii.eqb c NEWLINE = false.
Proof.
  intro H. apply isdigit_code in H.
  apply ascii_eqb_code; unfold NEWLINE, code;
    rewrite N_ascii_embedding by lia; fold (code c); lia.
Qed.

Lemma rdigits_digits (fuel : nat) (n : N) :
  Forall (fun c => isdigit c = true) (rdigits fuel n).
Proof.
  revert n; induction fuel as [|fuel IH]; intro n; simpl; [constructor|].
  constructor.
  - apply isdigit_digit_char. apply N.mod_lt. lia.
  - destruct (n / 10 =? 0)%N; [constructor|apply IH].
Qed.

Lemma rdigits_value (fuel : nat) (n : N) :
  (n < 2 ^ N.of_nat fuel)%N -> rvalue (rdigits fuel n) = n.
Proof.
  revert n; induction fuel as [|fuel IH]; intros n H.
  - simpl in *. lia.
  - cbn [rdigits rvalue]. rewrite code_digit_char by (apply N.mod_lt; lia).
    assert (Hq : rvalue (if (n / 10 =? 0)%N then [] else rdigits fuel (n / 10)) = (n / 10)%N).
    { destruct (n / 10 =? 0)%N eqn:H0.
      - apply N.eqb_eq in H0. now rewrite H0.
      - apply IH. rewrite Nat2N.inj_succ, N.pow_succ_r' in H.
        assert (n / 10 <= n / 2)%N by (apply N.div_le_compat_l; lia).
        assert (n / 2 < 2 ^ N.of_nat fuel)%N by (apply N.Div0.div_lt_upper_bound; lia).
        lia. }
    rewrite Hq. pose proof (N.div_mod' n 10) as Hdm.
    rewrite Hdm at 3. generalize (n mod 10)%N (n / 10)%N. intros a b. lia.
Qed.

Lemma rdigits_length (fuel : nat) (n : N) (k : nat) :
  (n < 10 ^ N.of_nat (S k))%N -> (length (rdigits fuel n) <= S k)%nat.
Proof.
  revert n k; induction fuel as [|fuel IH]; intros n k H; simpl; [lia|].
  destruct (n / 10 =? 0)%N eqn:H0; simpl; [lia|].
  apply N.eqb_neq in H0.
  destruct k as [|k].
  - exfalso. apply H0. apply N.div_small. simpl in H. lia.
  - apply le_n_S. apply IH.
    rewrite Nat2N.inj_succ, N.pow_succ_r' in H.
    apply N.Div0.div_lt_upper_bound; lia.
Qed.

Lemma rdigits_nonempty (fuel : nat) (n : N) : rdigits (S fuel) n <> [].
Proof. simpl. discriminate. Qed.

Lemma scan_digits_rev (l : list ascii) (acc : N) (rest : cstring) :
  Forall (fun c => isdigit c = true) l ->
  scan_digits acc (rev l ++ rest) =
  scan_digits (acc * 10 ^ N.of_nat (length l) + rvalue l) rest.
Proof.
  intro Hl. revert acc rest; induction Hl as [|c l Hc Hl IH]; intros acc rest.
  - simpl. f_equal. lia.
  - cbn [rev]. rewrite <- app_assoc. cbn [app]. rewrite IH.
    cbn [scan_digits]. rewrite Hc. f_equal.
    cbn [length rvalue]. rewrite Nat2N.inj_succ, N.pow_succ_r'. lia.
Qed.

Lemma fmt_u_fuel (n : N) : (n < 2 ^ N.of_nat (S (N.to_nat (N.log2 n))))%N.
Proof.
  rewrite Nat2N.inj_succ, N2Nat.id.
  destruct (N.eq_dec n 0) as [->|Hn]; [reflexivity|].
  apply N.log2_spec. lia.
Qed.

Lemma fmt_u_digits (n : N) : Forall (fun c => isdigit c = true) (fmt_u n).
Proof. unfold fmt_u. apply Forall_rev. apply rdigits_digits. Qed.

Lemma fmt_u_nonempty (n : N) : fmt_u n <> [].
Proof.
  unfold fmt_u. intro H. apply (f_equal (@rev _)) in H. rewrite rev_involutive in H.
  now apply rdigits_nonempty in H.
Qed.

Lemma scan_digits_stop (acc : N) (rest : cstring) :
  stops_digits rest -> scan_digits acc rest = (acc, rest).
Proof. destruct rest as [|c r]; simpl; [reflexivity|]. now intros ->. Qed.

(** Scanning what [%u]-style printing wrote gives the number back. *)
Lemma scan_fmt_u (n : N) (rest : cstring) :
  stops_digits rest -> scan_digits 0 (fmt_u n ++ rest) = (n, rest).
Proof.
  intro Hr. unfold fmt_u. rewrite scan_digits_rev by apply rdigits_digits.
  rewrite rdigits_value by apply fmt_u_fuel.
  rewrite N.mul_0_l, N.add_0_l. now apply scan_digits_stop.
Qed.

Lemma fmt_u_length (n : N) (k : nat) :
  (n < 10 ^ N.of_nat (S k))%N -> (length (fmt_u n) <= S k)%nat.
Proof. intro H. unfold fmt_u. rewrite length_rev. now apply rdigits_length. Qed.

Lemma isspace_MINUS : isspace MINUS = false.
Proof. reflexivity. Qed.

Lemma isspace_TAB : isspace TAB = true.
Proof. reflexivity. Qed.

Lemma hd_digit (l : cstring) :
  l <> [] -> Forall (fun c => isdigit c = true) l ->
  exists c r, l = c :: r /\ isdigit c = true.
Proof.
  intros Hne Hl. destruct l as [|c r]; [contradiction|].
  inversion Hl; subst. now exists c, r.
Qed.

(** [%ld] reads back what [%ld] printed, when something other than a
    digit follows. *)
Lemma conv_int_fmt_d (z : Z) (rest : cstring) :
  stops_digits rest -> conv_int (fmt_d z ++ rest) = Some (z, rest).
Proof.
  intro Hr. unfold fmt_d. destruct (z <? 0) eqn:Hz.
  - apply Z.ltb_lt in Hz. unfold conv_int.
    cbn [app skip_space]. rewrite isspace_MINUS. rewrite Ascii.eqb_refl.
    destruct (hd_digit _ (fmt_u_nonempty (Z.to_N (- z))) (fmt_u_digits (Z.to_N (- z))))
      as (c & r & Hc & Hd).
    assert (Hscan := scan_fmt_u (Z.to_N (- z)) rest Hr).
    rewrite Hc in *. cbn [app] in *. rewrite Hd, Hscan. f_equal. f_equal. lia.
  - apply Z.ltb_ge in Hz. unfold conv_int.
    destruct (hd_digit _ (fmt_u_nonempty (Z.to_N z)) (fmt_u_digits (Z.to_N z)))
      as (c & r & Hc & Hd).
    assert (Hscan := scan_fmt_u (Z.to_N z) rest Hr).
    rewrite Hc in *. cbn [app skip_space] in *.
    rewrite (isdigit_not_space c Hd).
    destruct (isdigit_not_sign c Hd) as [-> ->].
    rewrite Hd, Hscan. f_equal. f_equal. lia.
Qed.

Lemma conv_int_fmt_zu (z : Z) (rest : cstring) :
  0 <= z < 2 ^ 64 -> stops_digits rest ->
  conv_int (fmt_zu z ++ rest) = Some (z, rest).
Proof.
  intros Hz Hr. unfold fmt_zu, wrap_unsigned, LONG_BITS.
  rewrite Z.mod_small by assumption.
  pose proof (conv_int_fmt_d z rest Hr) as H. unfold fmt_d in H.
  destruct (z <? 0) eqn:Hneg; [apply Z.ltb_lt in Hneg; lia|exact H].
Qed.

Lemma wrap_signed_small (w z : Z) :
  0 < w -> - 2 ^ (w - 1) <= z < 2 ^ (w - 1) -> wrap_signed w z = z.
Proof.
  intros Hw Hz. unfold wrap_signed.
  assert (Hp : 2 ^ w = 2 * 2 ^ (w - 1)).
  { rewrite <- Z.pow_succ_r by lia. f_equal. lia. }
  destruct (Z_lt_le_dec z 0) as [Hneg|Hpos].
  - assert (Hm : z mod 2 ^ w = z + 2 ^ w).
    { symmetry. apply (Z.mod_unique _ _ (-1)); lia. }
    rewrite Hm. destruct (z + 2 ^ w <? 2 ^ (w - 1)) eqn:Hlt;
      [apply Z.ltb_lt in Hlt; lia|lia].
  - rewrite Z.mod_small by lia.
    destruct (z <? 2 ^ (w - 1)) eqn:Hlt; [reflexivity|apply Z.ltb_ge in Hlt; lia].
Qed.

Lemma wrap_unsigned_small (w z : Z) : 0 <= z < 2 ^ w -> wrap_unsigned w z = z.
Proof. intro H. unfold wrap_unsigned. now apply Z.mod_small. Qed.

(** ** Scanning strings *)

Lemma skip_space_stop (c : ascii) (l : cstring) :
  isspace c = false -> skip_space (c :: l) = c :: l.
Proof. intro H. simpl. now rewrite H. Qed.

Lemma skip_space_tab (l : cstring) : skip_space (TAB :: l) = skip_space l.
Proof. reflexivity. Qed.

Lemma scan_set_token (p : ascii -> bool) (w : nat) (tok rest : cstring) :
  forallb p tok = true -> (length tok <= w)%nat ->
  match rest with c :: _ => p c = false | [] => True end ->
  scan_set p w (tok ++ rest) = (tok, rest).
Proof.
  revert w; induction tok as [|c tok IH]; intros w Hp Hw Hr.
  - cbn [app]. destruct w, rest; simpl; try reflexivity. now rewrite Hr.
  - simpl in Hp, Hw. apply andb_true_iff in Hp as [Hc Hp].
    destruct w as [|w]; [lia|]. cbn [app scan_set]. rewrite Hc.
    rewrite IH; [reflexivity|assumption|lia|assumption].
Qed.

Lemma token_hd (w : nat) (s : cstring) :
  token w s -> exists c r, s = c :: r /\ isspace c = false.
Proof.
  intros (Hne & _ & Hf). destruct s as [|c r]; [contradiction|].
  simpl in Hf. apply andb_true_iff in Hf as [Hc _]. exists c, r.
  split; [reflexivity|]. now apply negb_true_iff.
Qed.

Lemma conv_s_token (w : nat) (s rest : cstring) :
  token w s -> conv_s w (s ++ TAB :: rest) = Some (s, TAB :: rest).
Proof.
  intro Ht. destruct (token_hd w s Ht) as (c & r & Hs & Hc).
  destruct Ht as (_ & Hlen & Hf). unfold conv_s. subst s.
  cbn [app]. rewrite (skip_space_stop c _ Hc).
  change (c :: r ++ TAB :: rest) with ((c :: r) ++ TAB :: rest).
  rewrite scan_set_token; [reflexivity|assumption|assumption|reflexivity].
Qed.

Lemma plain_text_no_tab (w : nat) (s : cstring) :
  plain_text w s -> forallb (fun c => negb (Ascii.eqb c TAB)) s = true.
Proof.
  intros (_ & _ & H). rewrite forallb_forall in *. intros c Hc.
  specialize (H c Hc). now apply andb_true_iff in H as [H _].
Qed.

Lemma conv_not_tab_plain (w : nat) (s rest : cstring) :
  plain_text w s -> conv_not_tab w (s ++ TAB :: rest) = Some (s, TAB :: rest).
Proof.
  intro Hp. pose proof (plain_text_no_tab w s Hp) as Hnt.
  destruct Hp as (Hlen & Hhd & _). unfold conv_not_tab.
  rewrite scan_set_token; [|assumption|assumption|now rewrite Ascii.eqb_refl].
  destruct s; [contradiction|reflexivity].
Qed.

Lemma skip_space_fmt_d (z : Z) (rest : cstring) :
  skip_space (fmt_d z ++ rest) = fmt_d z ++ rest.
Proof.
  unfold fmt_d. destruct (z <? 0).
  - cbn [app]. now apply skip_space_stop.
  - destruct (hd_digit _ (fmt_u_nonempty (Z.to_N z)) (fmt_u_digits (Z.to_N z)))
      as (c & r & -> & Hd).
    cbn [app]. apply skip_space_stop. now apply isdigit_not_space.
Qed.

Lemma skip_space_fmt_zu (z : Z) (rest : cstring) :
  skip_space (fmt_zu z ++ rest) = fmt_zu z ++ rest.
Proof.
  unfold fmt_zu.
  destruct (hd_digit _ (fmt_u_nonempty (Z.to_N (wrap_unsigned LONG_BITS z)))
              (fmt_u_digits (Z.to_N (wrap_unsigned LONG_BITS z))))
    as (c & r & -> & Hd).
  cbn [app]. apply skip_space_stop. now apply isdigit_not_space.
Qed.

(** Reading the line of a scannable row converts all six fields and
    gives the row back. *)
Lemma sscanf_entry_line (e : package_db_entry_t) :
  scannable e -> sscanf_entry (entry_line e) = (6, e).
Proof.
  intros (Hn & _ & Hv & Hd & Ht & Hs & Hst).
  destruct e as [n v d t sz s]. cbn [entry_name entry_version entry_description
    entry_install_time entry_installed_size entry_state] in *.
  unfold sscanf_entry, entry_line.
  cbn [entry_name entry_version entry_description entry_install_time
       entry_installed_size entry_state].
  rewrite (conv_s_token 255 n _ Hn).
  destruct (token_hd 63 v Hv) as (cv & rv & Hcv & Hsv).
  rewrite skip_space_tab.
  assert (Hskv : forall r, skip_space (v ++ r) = v ++ r)
    by (intro r; rewrite Hcv; cbn [app]; now apply skip_space_stop).
  rewrite Hskv, (conv_s_token 63 v _ Hv).
  rewrite skip_space_tab.
  assert (Hskd : forall r, skip_space (d ++ r) = d ++ r).
  { intro r. destruct Hd as (_ & Hhd & _). destruct d as [|cd rd]; [contradiction|].
    cbn [app]. now apply skip_space_stop. }
  rewrite Hskd, (conv_not_tab_plain 511 d _ Hd).
  rewrite skip_space_tab, skip_space_fmt_d.
  rewrite conv_int_fmt_d by reflexivity.
  rewrite skip_space_tab, skip_space_fmt_zu.
  rewrite conv_int_fmt_zu by (try assumption; reflexivity).
  rewrite skip_space_tab, skip_space_fmt_d.
  rewrite conv_int_fmt_d by reflexivity.
  rewrite (wrap_signed_small LONG_BITS t), (wrap_unsigned_small LONG_BITS sz),
    (wrap_signed_small INT_BITS s); try reflexivity; try assumption.
Qed.

(** ** Lines of the database file *)

(** [fgets] returns a line that fits the buffer whole. *)
Lemma read_lines_line (cap : nat) (body acc : cstring) (room : nat) (rest : cstring) :
  no_newline body -> (length body < room)%nat ->
  read_lines cap acc room (body ++ NEWLINE :: rest) =
  (rev acc ++ body ++ [NEWLINE]) :: read_lines cap [] cap rest.
Proof.
  unfold no_newline. revert acc room; induction body as [|c body IH];
    intros acc room Hnl Hlen.
  - cbn [app read_lines]. rewrite Ascii.eqb_refl. reflexivity.
  - simpl in Hnl, Hlen. apply andb_true_iff in Hnl as [Hc Hnl].
    apply negb_true_iff in Hc. cbn [app read_lines]. rewrite Hc.
    destruct room as [|[|k]]; try lia.
    rewrite IH by (assumption || lia). cbn [rev]. now rewrite <- app_assoc.
Qed.

Lemma fgets_lines_line (body rest : cstring) :
  no_newline body -> (length body < 1023)%nat ->
  fgets_lines (body ++ NEWLINE :: rest) = (body ++ [NEWLINE]) :: fgets_lines rest.
Proof. intros Hnl Hlen. unfold fgets_lines. now rewrite read_lines_line. Qed.

Lemma entry_line_body (e : package_db_entry_t) (rest : cstring) :
  entry_line e ++ rest = entry_body e ++ NEWLINE :: rest.
Proof.
  unfold entry_line, entry_body.
  repeat (rewrite <- app_assoc; cbn [app]). reflexivity.
Qed.

Lemma entry_line_body_nil (e : package_db_entry_t) :
  entry_line e = entry_body e ++ [NEWLINE].
Proof. rewrite <- (app_nil_r (entry_line e)). apply entry_line_body. Qed.

Lemma no_newline_app (a b : cstring) :
  no_newline a -> no_newline b -> no_newline (a ++ b).
Proof. unfold no_newline. intros Ha Hb. now rewrite forallb_app, Ha, Hb. Qed.

Lemma no_newline_cons (c : ascii) (l : cstring) :
  Ascii.eqb c NEWLINE = false -> no_newline l -> no_newline (c :: l).
Proof. unfold no_newline. intros Hc Hl. simpl. now rewrite Hc, Hl. Qed.

Lemma not_space_not_newline (c : ascii) :
  negb (isspace c) = true -> negb (Ascii.eqb c NEWLINE) = true.
Proof.
  intro H. apply negb_true_iff in H. apply negb_true_iff.
  destruct (Ascii.eqb c NEWLINE) eqn:Heq; [|reflexivity].
  apply Ascii.eqb_eq in Heq. subst c. discriminate.
Qed.

Lemma token_no_newline (w : nat) (s : cstring) : token w s -> no_newline s.
Proof.
  intros (_ & _ & H). unfold no_newline. rewrite forallb_forall in *.
  intros c Hc. apply not_space_not_newline. now apply H.
Qed.

Lemma plain_text_no_newline (w : nat) (s : cstring) : plain_text w s -> no_newline s.
Proof.
  intros (_ & _ & H). unfold no_newline. rewrite forallb_forall in *.
  intros c Hc. specialize (H c Hc). now apply andb_true_iff in H as [_ H].
Qed.

Lemma fmt_u_no_newline (n : N) : no_newline (fmt_u n).
Proof.
  unfold no_newline. apply forallb_forall. intros c Hc.
  pose proof (fmt_u_digits n) as Hd. rewrite Forall_forall in Hd.
  apply negb_true_iff. apply isdigit_not_newline. now apply Hd.
Qed.

Lemma fmt_d_no_newline (z : Z) : no_newline (fmt_d z).
Proof.
  unfold fmt_d. destruct (z <? 0); [|apply fmt_u_no_newline].
  apply no_newline_cons; [reflexivity|apply fmt_u_no_newline].
Qed.

Lemma entry_body_no_newline (e : package_db_entry_t) :
  scannable e -> no_newline (entry_body e).
Proof.
  intros (Hn & _ & Hv & Hd & _). unfold entry_body.
  apply no_newline_app; [apply (token_no_newline _ _ Hn)|].
  apply no_newline_cons; [reflexivity|].
  apply no_newline_app; [apply (token_no_newline _ _ Hv)|].
  apply no_newline_cons; [reflexivity|].
  apply no_newline_app; [apply (plain_text_no_newline _ _ Hd)|].
  apply no_newline_cons; [reflexivity|].
  apply no_newline_app; [apply fmt_d_no_newline|].
  apply no_newline_cons; [reflexivity|].
  apply no_newline_app; [apply fmt_u_no_newline|].
  apply no_newline_cons; [reflexivity|].
  apply fmt_d_no_newline.
Qed.

Lemma fmt_d_length (z : Z) (k : nat) :
  - 10 ^ Z.of_nat (S k) < z < 10 ^ Z.of_nat (S k) ->
  (length (fmt_d z) <= S (S k))%nat.
Proof.
  intro Hz. unfold fmt_d.
  assert (Hb : forall y, 0 <= y < 10 ^ Z.of_nat (S k) ->
                         (Z.to_N y < 10 ^ N.of_nat (S k))%N).
  { intros y Hy. apply N2Z.inj_lt. rewrite Z2N.id by lia.
    rewrite N2Z.inj_pow. rewrite nat_N_Z. simpl (Z.of_N 10). lia. }
  destruct (z <? 0) eqn:Hneg.
  - apply Z.ltb_lt in Hneg. cbn [length]. apply le_n_S.
    apply fmt_u_length. apply Hb. lia.
  - apply Z.ltb_ge in Hneg. apply Nat.le_trans with (S k); [|lia].
    apply fmt_u_length. apply Hb. lia.
Qed.

Lemma entry_body_length (e : package_db_entry_t) :
  scannable e -> (length (entry_body e) < 1023)%nat.
Proof.
  intros ((_ & Hn & _) & _ & (_ & Hv & _) & (Hd & _) & Ht & Hs & Hst).
  unfold entry_body. repeat (rewrite length_app; cbn [length]).
  assert (H1 : (length (fmt_d (entry_install_time e)) <= 20)%nat).
  { apply (fmt_d_length _ 18). change (10 ^ Z.of_nat 19) with 10000000000000000000.
    change (2 ^ 63) with 9223372036854775808 in Ht. lia. }
  assert (H2 : (length (fmt_zu (entry_installed_size e)) <= 20)%nat).
  { unfold fmt_zu. rewrite wrap_unsigned_small by assumption.
    apply (fmt_u_length _ 19). apply N2Z.inj_lt. rewrite Z2N.id by lia.
    change (Z.of_N (10 ^ N.of_nat 20)) with 100000000000000000000.
    change (2 ^ 64) with 18446744073709551616 in Hs. lia. }
  assert (H3 : (length (fmt_d (entry_state e)) <= 11)%nat).
  { apply (fmt_d_length _ 9). change (10 ^ Z.of_nat 10) with 10000000000.
    change (2 ^ 31) with 2147483648 in Hst. lia. }
  lia.
Qed.

Lemma load_line_entry (head : list package_db_entry_t) (e : package_db_entry_t) :
  scannable e -> load_line head (entry_line e) = e :: head.
Proof.
  intro He. pose proof (sscanf_entry_line e He) as Hscan.
  destruct He as (Hn & Hhash & _).
  destruct (token_hd _ _ Hn) as (c & r & Hc & Hsp).
  unfold load_line.
  assert (Hline : exists l, entry_line e = c :: l).
  { unfold entry_line. rewrite Hc. cbn [app]. eauto. }
  destruct Hline as (l & Hl). rewrite Hl in *. rewrite Hscan.
  assert (H1 : Ascii.eqb c HASH = false).
  { destruct (Ascii.eqb c HASH) eqn:Heq; [|reflexivity].
    apply Ascii.eqb_eq in Heq. subst c. rewrite Hc in Hhash. now elim Hhash. }
  assert (H2 : Ascii.eqb c NEWLINE = false).
  { apply negb_true_iff. apply not_space_not_newline. now apply negb_true_iff. }
  now rewrite H1, H2.
Qed.

Lemma fgets_entry_lines (db : list package_db_entry_t) :
  Forall scannable db ->
  fgets_lines (concat (map entry_line db)) = map entry_line db.
Proof.
  induction 1 as [|e db He Hdb IH]; [reflexivity|].
  cbn [map concat]. rewrite entry_line_body.
  rewrite fgets_lines_line
    by (apply entry_body_no_newline || apply entry_body_length; assumption).
  now rewrite IH, entry_line_body_nil.
Qed.

Lemma load_entry_lines (db head : list package_db_entry_t) :
  Forall scannable db ->
  fold_left load_line (map entry_line db) head = rev db ++ head.
Proof.
  intro H. revert head; induction H as [|e db He Hdb IH]; intro head;
    [reflexivity|].
  cbn [map fold_left rev]. rewrite load_line_entry by assumption.
  now rewrite IH, <- app_assoc.
Qed.

Lemma fgets_header (rest : cstring) :
  fgets_lines (db_header ++ rest) =
  (header_line_1 ++ [NEWLINE]) :: (header_line_2 ++ [NEWLINE]) :: fgets_lines rest.
Proof.
  assert (H : db_header ++ rest =
              header_line_1 ++ NEWLINE :: header_line_2 ++ NEWLINE :: rest)
    by reflexivity.
  rewrite H.
  rewrite fgets_lines_line; [|reflexivity|vm_compute; lia].
  rewrite fgets_lines_line; [|reflexivity|vm_compute; lia].
  reflexivity.
Qed.

(** Loading what was saved gives the rows back, last row first. *)
Lemma load_rows_db_file_content (db : list package_db_entry_t) :
  Forall scannable db -> load_rows [] (db_file_content db) = rev db.
Proof.
  intro H. unfold load_rows, db_file_content.
  rewrite fgets_header, fgets_entry_lines by assumption.
  cbn [fold_left].
  assert (H1 : load_line [] (header_line_1 ++ [NEWLINE]) = []) by reflexivity.
  assert (H2 : load_line [] (header_line_2 ++ [NEWLINE]) = []) by reflexivity.
  rewrite H1, H2, load_entry_lines by assumption. apply app_nil_r.
Qed.

(** ** The database file *)

(** The fields [sscanf] did not convert are the zeros of [calloc]. *)
Lemma sscanf_entry_defaults (line : cstring) :
  let k := fst (sscanf_entry line) in
  let e := snd (sscanf_entry line) in
  (k < 4 -> entry_install_time e = 0) /\
  (k < 5 -> entry_installed_size e = 0) /\
  (k < 6 -> entry_state e = 0).
Proof.
  unfold sscanf_entry.
  destruct (conv_s 255 line) as [[n l1]|]; [|now repeat split].
  destruct (conv_s 63 (skip_space l1)) as [[v l2]|]; [|now repeat split].
  destruct (conv_not_tab 511 (skip_space l2)) as [[d l3]|]; [|now repeat split].
  destruct (conv_int (skip_space l3)) as [[t l4]|]; [|now repeat split].
  destruct (conv_int (skip_space l4)) as [[sz l5]|];
    [|cbn [fst snd]; repeat split; (reflexivity || lia)].
  destruct (conv_int (skip_space l5)) as [[s l6]|];
    cbn [fst snd]; repeat split; (reflexivity || lia).
Qed.

(** C6 (amended).  When every row of the database is scannable, a
    process that loads the file written by [package_db_save] gets the
    same rows with the same field values, in the opposite order.  While
    loading, a line that is no comment is taken as a row when [sscanf]
    converts three fields or more, the fields it did not convert being
    zero, and is dropped otherwise. *)
Theorem C6_load_after_save_reverses (E : env) (st fresh : state) :
  (Forall scannable (package_db_head st) ->
   fopen_w_ok E (trace st) = true ->
   restarted (snd (package_db_save E st)) fresh ->
   package_db_head (snd (package_db_load fresh)) = rev (package_db_head st)) /\
  (forall head c line,
     Ascii.eqb c HASH || Ascii.eqb c NEWLINE = false ->
     let k := fst (sscanf_entry (c :: line)) in
     let e := snd (sscanf_entry (c :: line)) in
     (3 <= k -> load_line head (c :: line) = e :: head) /\
     (k < 3 -> load_line head (c :: line) = head) /\
     (k < 4 -> entry_install_time e = 0) /\
     (k < 5 -> entry_installed_size e = 0) /\
     (k < 6 -> entry_state e = 0)).
Proof.
  split.
  - intros Hscan Hopen (Hhead & Hloaded & Hfile).
    unfold package_db_save in Hfile. rewrite Hopen in Hfile.
    cbn [snd emit set_installed_txt installed_txt] in Hfile.
    unfold package_db_load. rewrite Hloaded, Hfile.
    cbn [snd set_db_loaded package_db_head]. rewrite Hhead.
    now apply load_rows_db_file_content.
  - intros head c line Hc k e.
    pose proof (sscanf_entry_defaults (c :: line)) as (H4 & H5 & H6).
    fold k e in H4, H5, H6. unfold load_line. rewrite Hc.
    subst k e. destruct (sscanf_entry (c :: line)) as [k e]. cbn [fst snd] in *.
    repeat split; try assumption.
    + intro H. apply Z.leb_le in H. now rewrite H.
    + intro H. apply Z.leb_gt in H. now rewrite H.
Qed.

(** ** Worked examples *)

Ltac scannable_row :=
  repeat split; try discriminate; try reflexivity; try (vm_compute; lia);
  try (vm_compute; discriminate).

Lemma scannable_row_vim : scannable row_vim.
Proof. scannable_row. Qed.

Lemma scannable_row_zsh : scannable row_zsh.
Proof. scannable_row. Qed.

Lemma restarted_restart_of (saved : state) : restarted saved (restart_of saved).
Proof. now repeat split. Qed.

Lemma C6_load_after_save_reverses_witness :
  package_db_head
    (snd (package_db_load
            (restart_of (snd (package_db_save (example_env default_config [] [])
                                two_rows_state))))) =
  rev (package_db_head two_rows_state).
Proof.
  apply (proj1 (C6_load_after_save_reverses (example_env default_config [] [])
                  two_rows_state
                  (restart_of (snd (package_db_save (example_env default_config [] [])
                                      two_rows_state))))).
  - exact (Forall_cons _ scannable_row_vim
             (Forall_cons _ scannable_row_zsh (Forall_nil _))).
  - reflexivity.
  - apply restarted_restart_of.
Defined.

(** C6, as stated, fails: two rows come back in the opposite order, and
    a row without a description comes back with other field values. *)
Lemma C6_counterexample :
  package_db_head
    (snd (package_db_load
            (restart_of (snd (package_db_save (example_env default_config [] [])
                                two_rows_state))))) = [row_zsh; row_vim] /\
  [row_zsh; row_vim] <> package_db_head two_rows_state /\
  package_db_head
    (snd (package_db_load
            (restart_of (snd (package_db_save (example_env default_config [] [])
                                bare_row_state))))) =
    [mk_entry (cstr "vim") (cstr "9.0") (cstr "1700000000") 1234 5 0] /\
  [mk_entry (cstr "vim") (cstr "9.0") (cstr "1700000000") 1234 5 0] <>
    package_db_head bare_row_state.
Proof.
  split; [vm_compute; reflexivity|]. split; [discriminate|].
  split; [vm_compute; reflexivity|discriminate].
Qed.

Lemma C7_add_find_remove_witness :
  NoDup (names (package_db_head
                  (snd (package_db_add (example_env default_config [] [])
                          (example_package "vim" []) two_rows_state)))) /\
  package_db_find (cstr "vim")
    (package_db_head (snd (package_db_add (example_env default_config [] [])
                             (example_package "vim" []) two_rows_state))) =
    Some (mk_entry (cstr "vim") (cstr "1.0") (cstr "example") 0 0 PKG_STATE_INSTALLED) /\
  package_db_find (cstr "zsh")
    (package_db_head (snd (package_db_remove (example_env default_config [] [])
                             (cstr "zsh") two_rows_state))) = None.
Proof.
  apply (C7_add_find_remove (example_env default_config [] [])
           (example_package "vim" []) (cstr "zsh") two_rows_state).
  - apply NoDup_cons; [intros [H|[]]; discriminate|].
    apply NoDup_cons; [intros []|apply NoDup_nil].
  - repeat split; vm_compute; lia.
Defined.

Lemma C9_remove_guarded_by_dependents_witness :
  (fst (package_remove (example_env default_config chain_catalogue [])
          (cstr "Z") chain_rows_state) = TINYPKG_SUCCESS /\
   snd (package_remove (example_env default_config chain_catalogue [])
          (cstr "Z") chain_rows_state) = chain_rows_state) /\
  (fst (package_remove (example_env default_config chain_catalogue [])
          (cstr "B") chain_rows_state) = TINYPKG_ERROR_DEPENDENCY /\
   package_db_find (cstr "B")
     (package_db_head
        (snd (package_remove (example_env default_config chain_catalogue [])
                (cstr "B") chain_rows_state))) <> None) /\
  (fst (package_remove (example_env force_config chain_catalogue [])
          (cstr "B") chain_rows_state) = TINYPKG_SUCCESS /\
   Some (package_db_head
           (snd (package_remove (example_env force_config chain_catalogue [])
                   (cstr "B") chain_rows_state))) = Some [row_named "A"]).
Proof.
  split; [|split].
  - apply (proj1 (C9_remove_guarded_by_dependents
                    (example_env default_config chain_catalogue [])
                    (cstr "Z") chain_rows_state)).
    reflexivity.
  - destruct (proj1 (proj2 (C9_remove_guarded_by_dependents
                              (example_env default_config chain_catalogue [])
                              (cstr "B") chain_rows_state)))
      as (Hr & _ & Hrow).
    + discriminate.
    + reflexivity.
    + discriminate.
    + split; [exact Hr|exact Hrow].
  - destruct (proj2 (proj2 (C9_remove_guarded_by_dependents
                              (example_env force_config chain_catalogue [])
                              (cstr "B") chain_rows_state)))
      as (Hr & Hrows).
    + discriminate.
    + reflexivity.
    + split; [exact Hr|]. rewrite <- Hrows. reflexivity.
Defined.

Lemma C10_set_state_absent_is_noop_witness :
  package_set_state (example_env default_config [example_package "P" []] [])
    (cstr "P") PKG_STATE_BUILDING initial_state = (TINYPKG_SUCCESS, initial_state) /\
  keeps_record (cstr "P") initial_state
    (snd (package_install (example_env default_config [example_package "P" []] [])
            3 (cstr "P") initial_state)).
Proof.
  destruct (C10_set_state_absent_is_noop
              (example_env default_config [example_package "P" []] []) (cstr "P"))
    as (Hset & Hinstall).
  split.
  - apply Hset. reflexivity.
  - apply Hinstall.
    + unfold fits_name. vm_compute. lia.
    + intros pkg Hpkg. vm_compute in Hpkg. injection Hpkg as <-. apply Forall_nil.
    + reflexivity.
Defined.

(** * Further properties *)

(** ** Package states *)

(** X1.  The names of the eight states are read back as the state they
    name; any other number prints as invalid, which reads as unknown;
    and a string that reads as a state other than unknown is that
    state's name. *)
Theorem package_state_string_round_trip (s : Z) (str : cstring) :
  (0 <= s <= 7 -> package_state_from_string (package_state_to_string s) = s) /\
  (~ 0 <= s <= 7 ->
     package_state_to_string s = cstr "invalid" /\
     package_state_from_string (package_state_to_string s) = PKG_STATE_UNKNOWN) /\
  (package_state_from_string str <> PKG_STATE_UNKNOWN ->
     package_state_to_string (package_state_from_string str) = str).
Proof.
  split; [|split].
  - intro H.
    assert (Hs : s = 0 \/ s = 1 \/ s = 2 \/ s = 3 \/ s = 4 \/ s = 5 \/ s = 6 \/ s = 7)
      by lia.
    repeat (destruct Hs as [-> | Hs]; [reflexivity|]). now subst.
  - intro H. unfold package_state_to_string, PKG_STATE_UNKNOWN, PKG_STATE_AVAILABLE,
      PKG_STATE_DOWNLOADING, PKG_STATE_BUILDING, PKG_STATE_INSTALLING,
      PKG_STATE_INSTALLED, PKG_STATE_FAILED, PKG_STATE_BROKEN.
    repeat match goal with
           | |- context [?a =? ?b] =>
               destruct (Z.eqb_spec a b); [exfalso; lia|]
           end.
    split; reflexivity.
  - unfold package_state_from_string.
    repeat match goal with
           | |- context [TINYPKG_STREQ str ?t] =>
               let H := fresh "H" in
               destruct (TINYPKG_STREQ str t) eqn:H;
               [apply TINYPKG_STREQ_eq in H; subst str; intros _; reflexivity|]
           end.
    intro Hne. now contradiction Hne.
Qed.

Lemma package_state_string_round_trip_witness :
  package_state_from_string (package_state_to_string PKG_STATE_BUILDING) =
    PKG_STATE_BUILDING /\
  package_state_to_string 9 = cstr "invalid" /\
  package_state_to_string (package_state_from_string (cstr "failed")) = cstr "failed".
Proof.
  destruct (package_state_string_round_trip PKG_STATE_BUILDING (cstr "failed"))
    as (H1 & _ & H3).
  destruct (package_state_string_round_trip 9 (cstr "failed")) as (_ & H2 & _).
  split; [apply H1; vm_compute; split; discriminate|].
  split; [apply H2; vm_compute; intros [_ H]; now apply H|].
  apply H3. discriminate.
Defined.

(** ** Reading and writing one row's state *)

Lemma store_state_find_same n s head e :
  package_db_find n head = Some e ->
  package_db_find n (store_state n s head) =
    Some (mk_entry (entry_name e) (entry_version e) (entry_description e)
            (entry_install_time e) (entry_installed_size e) s).
Proof.
  induction head as [|x head IH]; simpl; [discriminate|].
  destruct (TINYPKG_STREQ (entry_name x) n) eqn:Hx; simpl.
  - intros [= <-]. now rewrite Hx.
  - intro H. rewrite Hx. now apply IH.
Qed.

Lemma store_state_find_other n m s head :
  m <> n -> package_db_find m (store_state n s head) = package_db_find m head.
Proof.
  intro Hm. induction head as [|x head IH]; simpl; [reflexivity|].
  destruct (TINYPKG_STREQ (entry_name x) n) eqn:Hx; simpl.
  - apply TINYPKG_STREQ_eq in Hx.
    destruct (TINYPKG_STREQ (entry_name x) m) eqn:Hxm; [|reflexivity].
    apply TINYPKG_STREQ_eq in Hxm. congruence.
  - now rewrite IH.
Qed.

Lemma unlink_entry_find_other n m head head' :
  m <> n -> unlink_entry n head = Some head' ->
  package_db_find m head' = package_db_find m head.
Proof.
  intro Hm. revert head'. induction head as [|x head IH]; simpl; [discriminate|].
  intros head'. destruct (TINYPKG_STREQ (entry_name x) n) eqn:Hx.
  - intros [= <-]. apply TINYPKG_STREQ_eq in Hx.
    destruct (TINYPKG_STREQ (entry_name x) m) eqn:Hxm; [|reflexivity].
    apply TINYPKG_STREQ_eq in Hxm. congruence.
  - destruct (unlink_entry n head) as [t|]; [|discriminate].
    intros [= <-]. simpl. now rewrite (IH t eq_refl).
Qed.

Section RowState.

Variable E : env.

Lemma package_db_save_file (st : state) :
  installed_txt (snd (package_db_save E st)) =
  if fopen_w_ok E (trace st) then Some (db_file_content (package_db_head st))
  else installed_txt st.
Proof. unfold package_db_save. now destruct (fopen_w_ok E (trace st)). Qed.

(** X2.  After [package_set_state] on a name that has a row,
    [package_get_state] returns the state that was set, also when the
    file could not be written, in which case the call reports the file
    error and the file keeps its content; on a name without a row the
    answer stays unknown; the state of every other name is as before. *)
Theorem package_get_state_after_set (n : cstring) (s : Z) (st : state) :
  let r := fst (package_set_state E n s st) in
  let st' := snd (package_set_state E n s st) in
  (package_db_find n (package_db_head st) <> None ->
     package_get_state n st' = s /\
     (fopen_w_ok E (trace st) = false ->
        r = TINYPKG_ERROR_FILE /\ installed_txt st' = installed_txt st)) /\
  (package_db_find n (package_db_head st) = None ->
     package_get_state n st' = PKG_STATE_UNKNOWN) /\
  (forall m, m <> n -> package_get_state m st' = package_get_state m st).
Proof.
  cbv zeta. unfold package_set_state, package_get_state.
  destruct (package_db_find n (package_db_head st)) as [e|] eqn:Hf.
  - split; [|split].
    + intros _. rewrite package_db_save_head. cbn [set_db package_db_head].
      rewrite (store_state_find_same n s _ e Hf). split; [reflexivity|].
      intro Hw. unfold package_db_save. cbn [set_db trace]. rewrite Hw.
      split; reflexivity.
    + discriminate.
    + intros m Hm. rewrite package_db_save_head. cbn [set_db package_db_head].
      now rewrite store_state_find_other.
  - split; [|split].
    + intro H. now contradiction H.
    + intros _. cbn [snd]. now rewrite Hf.
    + reflexivity.
Qed.

(** X3.  [package_db_add] and [package_db_remove] change the answer of
    [package_db_find] for the name they are given only: every other name
    finds the row it found before. *)
Theorem package_db_add_remove_frame (pkg : package_t) (n m : cstring) (st : state) :
  (m <> n ->
   package_db_find m (package_db_head (snd (package_db_remove E n st))) =
   package_db_find m (package_db_head st)) /\
  ((length (pkg_name pkg) < MAX_NAME)%nat -> m <> pkg_name pkg ->
   package_db_find m (package_db_head (snd (package_db_add E pkg st))) =
   package_db_find m (package_db_head st)).
Proof.
  assert (Hrem : forall k st0, m <> k ->
            package_db_find m (package_db_head (snd (package_db_remove E k st0))) =
            package_db_find m (package_db_head st0)).
  { intros k st0 Hk. unfold package_db_remove.
    destruct (unlink_entry k (package_db_head st0)) as [h|] eqn:Hu; [|reflexivity].
    rewrite package_db_save_head. cbn [set_db package_db_head].
    now apply (unlink_entry_find_other k). }
  split; [apply Hrem|].
  intros Hfit Hm. unfold package_db_add.
  destruct (package_db_remove E (pkg_name pkg) st) as [r st1] eqn:Hr.
  rewrite package_db_save_head. cbn [set_db package_db_head package_db_find].
  cbn [entry_of_package entry_name]. rewrite strncpy_short by (unfold MAX_NAME in *; lia).
  destruct (TINYPKG_STREQ (pkg_name pkg) m) eqn:Hx.
  - apply TINYPKG_STREQ_eq in Hx. congruence.
  - change st1 with (snd (r, st1)). rewrite <- Hr. now apply Hrem.
Qed.

End RowState.

(** ** Log levels *)

Lemma strcasecmp_eq_same_case (a b c : cstring) :
  map tolower a = map tolower b -> strcasecmp_eq a c = strcasecmp_eq b c.
Proof.
  intro H. destruct (strcasecmp_eq a c) eqn:Ha; symmetry.
  - apply strcasecmp_eq_spec in Ha. apply strcasecmp_eq_spec. congruence.
  - destruct (strcasecmp_eq b c) eqn:Hb; [|reflexivity].
    apply strcasecmp_eq_spec in Hb.
    assert (Ht : strcasecmp_eq a c = true) by (apply strcasecmp_eq_spec; congruence).
    congruence.
Qed.

(** X4.  The names of the five levels are read back as the level they
    name; any other number prints as UNKNOWN, which reads as the info
    level; reading does not depend on the case of the letters. *)
Theorem log_level_string_round_trip (level : Z) (a b : cstring) :
  (0 <= level <= 4 -> log_level_from_string (log_level_to_string level) = level) /\
  (~ 0 <= level <= 4 ->
     log_level_to_string level = cstr "UNKNOWN" /\
     log_level_from_string (log_level_to_string level) = LOG_INFO) /\
  (map tolower a = map tolower b ->
     log_level_from_string a = log_level_from_string b).
Proof.
  split; [|split].
  - intro H.
    assert (Hs : level = 0 \/ level = 1 \/ level = 2 \/ level = 3 \/ level = 4) by lia.
    repeat (destruct Hs as [-> | Hs]; [reflexivity|]). now subst.
  - intro H. unfold log_level_to_string.
    change (Z.of_nat (length LOG_LEVEL_STRINGS)) with 5.
    destruct (Z.leb_spec 0 level); destruct (Z.ltb_spec level 5);
      cbn [andb]; try (exfalso; lia); split; reflexivity.
  - intro H. unfold log_level_from_string.
    now rewrite !(strcasecmp_eq_same_case a b) by exact H.
Qed.

Lemma log_level_string_round_trip_witness :
  log_level_from_string (log_level_to_string LOG_ERROR) = LOG_ERROR /\
  log_level_to_string 7 = cstr "UNKNOWN" /\
  log_level_from_string (cstr "Warn") = log_level_from_string (cstr "WARN").
Proof.
  destruct (log_level_string_round_trip LOG_ERROR (cstr "Warn") (cstr "WARN"))
    as (H1 & _ & H3).
  destruct (log_level_string_round_trip 7 (cstr "Warn") (cstr "WARN")) as (_ & H2 & _).
  split; [apply H1; vm_compute; split; discriminate|].
  split; [apply H2; vm_compute; intros [_ H]; now apply H|].
  apply H3. reflexivity.
Defined.

(** ** The table of log filters *)

Lemma remove_filter_from_absent (f : Z) (g : list Z) :
  ~ In f g -> remove_filter_from f g = None.
Proof.
  induction g as [|x g IH]; simpl; [reflexivity|].
  intro H. destruct (Z.eqb_spec x f) as [->|Hx]; [exfalso; now apply H; left|].
  rewrite IH; [reflexivity|]. intro Hin. apply H. now right.
Qed.

Lemma remove_filter_from_app (f : Z) (g : list Z) :
  ~ In f g -> remove_filter_from f (g ++ [f]) = Some g.
Proof.
  induction g as [|x g IH]; simpl.
  - intros _. now rewrite Z.eqb_refl.
  - intro H. destruct (Z.eqb_spec x f) as [->|Hx]; [exfalso; now apply H; left|].
    rewrite IH; [reflexivity|]. intro Hin. apply H. now right.
Qed.

Lemma remove_filter_from_length (f : Z) (g g' : list Z) :
  remove_filter_from f g = Some g' -> length g = S (length g').
Proof.
  revert g'. induction g as [|x g IH]; simpl; [discriminate|].
  intros g'. destruct (x =? f); [now intros [= <-]|].
  destruct (remove_filter_from f g) as [t|]; [|discriminate].
  intros [= <-]. simpl. now rewrite (IH t eq_refl).
Qed.

Lemma remove_filter_from_incl (f : Z) (g g' : list Z) :
  remove_filter_from f g = Some g' -> incl g' g.
Proof.
  revert g'. induction g as [|x g IH]; simpl; [discriminate|].
  intros g'. destruct (x =? f); [intros [= <-]; now apply incl_tl, incl_refl|].
  destruct (remove_filter_from f g) as [t|]; [|discriminate].
  intros [= <-]. apply incl_cons; [now left|]. now apply incl_tl, IH.
Qed.

Lemma apply_filters_app (verdict : Z -> bool) (g h : list Z) :
  apply_filters verdict (g ++ h) = apply_filters verdict g && apply_filters verdict h.
Proof.
  induction g as [|x g IH]; simpl; [reflexivity|].
  destruct (negb (x =? 0) && negb (verdict x)); [reflexivity|exact IH].
Qed.

(** X5.  The table of log filters never holds more than eight entries or
    a null pointer: [logging_add_filter] on a full table or with a null
    pointer fails and changes nothing, otherwise it puts the filter
    last, and messages then pass exactly when they passed before and the
    new filter accepts them; removing a filter that was added to a table
    without it gives the former table back; removing one that is not
    there fails and changes nothing. *)
Theorem logging_filter_table (f : Z) (g : list Z) (verdict : Z -> bool) :
  (length g <= MAX_FILTERS)%nat -> ~ In 0 g ->
  let added := snd (logging_add_filter f g) in
  let removed := snd (logging_remove_filter f g) in
  (length added <= MAX_FILTERS)%nat /\ ~ In 0 added /\
  (length removed <= MAX_FILTERS)%nat /\ ~ In 0 removed /\
  (f = 0 \/ length g = MAX_FILTERS -> logging_add_filter f g = (-1, g)) /\
  (f <> 0 -> (length g < MAX_FILTERS)%nat ->
     logging_add_filter f g = (0, g ++ [f]) /\
     apply_filters verdict added = apply_filters verdict g && verdict f /\
     (~ In f g -> logging_remove_filter f added = (0, g))) /\
  (~ In f g -> logging_remove_filter f g = (-1, g)).
Proof.
  intros Hlen Hnull. cbv zeta.
  assert (Hadd : (length (snd (logging_add_filter f g)) <= MAX_FILTERS)%nat /\
                 ~ In 0 (snd (logging_add_filter f g))).
  { unfold logging_add_filter.
    destruct (Z.eqb_spec f 0) as [->|Hf]; [now split|].
    destruct (Nat.leb_spec MAX_FILTERS (length g)); cbn [orb snd]; [now split|].
    split; [rewrite length_app; simpl; lia|].
    intro Hin. apply in_app_or in Hin as [Hin|[Hin|[]]]; [now apply Hnull|congruence]. }
  assert (Hrem : (length (snd (logging_remove_filter f g)) <= MAX_FILTERS)%nat /\
                 ~ In 0 (snd (logging_remove_filter f g))).
  { unfold logging_remove_filter.
    destruct (f =? 0); [now split|].
    destruct (remove_filter_from f g) as [g'|] eqn:Hr; [|now split].
    cbn [snd]. split; [apply remove_filter_from_length in Hr; lia|].
    intro Hin. apply Hnull. exact (remove_filter_from_incl f g g' Hr 0 Hin). }
  destruct Hadd as (A1 & A2). destruct Hrem as (R1 & R2).
  repeat (split; [assumption|]).
  unfold logging_add_filter, logging_remove_filter.
  split; [|split].
  - intros [-> | Hfull]; [reflexivity|].
    rewrite Hfull, Nat.leb_refl. now rewrite orb_true_r.
  - intros Hf Hroom.
    destruct (Z.eqb_spec f 0) as [|_]; [contradiction|].
    destruct (Nat.leb_spec MAX_FILTERS (length g)); [lia|]. cbn [orb snd].
    split; [reflexivity|]. split.
    + rewrite apply_filters_app. simpl.
      destruct (Z.eqb_spec f 0) as [|_]; [contradiction|]. cbn [negb andb].
      now destruct (verdict f).
    + intro Hin. now rewrite remove_filter_from_app.
  - intro Hin. rewrite remove_filter_from_absent by assumption.
    now destruct (f =? 0).
Qed.

Lemma logging_filter_table_witness :
  logging_add_filter 7 [3; 5] = (0, [3; 5; 7]) /\
  logging_remove_filter 7 (snd (logging_add_filter 7 [3; 5])) = (0, [3; 5]) /\
  logging_add_filter 9 [1; 2; 3; 4; 5; 6; 7; 8] = (-1, [1; 2; 3; 4; 5; 6; 7; 8]).
Proof.
  assert (H35 : ~ In 0 [3; 5]) by (intros [H|[H|[]]]; discriminate).
  assert (H7 : ~ In 7 [3; 5]) by (intros [H|[H|[]]]; discriminate).
  assert (H8 : ~ In 0 [1; 2; 3; 4; 5; 6; 7; 8])
    by (intro H; repeat (destruct H as [H|H]; [discriminate|]); exact H).
  destruct (logging_filter_table 7 [3; 5] (fun _ => true)) as (_ & _ & _ & _ & _ & Hadd & _);
    [vm_compute; lia | exact H35 |].
  destruct Hadd as (Ha & _ & Hr); [discriminate | vm_compute; lia |].
  destruct (logging_filter_table 9 [1; 2; 3; 4; 5; 6; 7; 8] (fun _ => true))
    as (_ & _ & _ & _ & Hfull & _); [vm_compute; lia | exact H8 |].
  split; [exact Ha|]. split; [exact (Hr H7)|]. apply Hfull. now right.
Defined.

(** ** Trimming *)

Lemma skip_space_split (str : cstring) :
  exists pre, str = pre ++ skip_space str /\ all_space pre /\
              forall c, hd_error (skip_space str) = Some c -> isspace c = false.
Proof.
  induction str as [|c str (pre & Heq & Hpre & Hhd)]; simpl.
  - exists []. repeat split. discriminate.
  - destruct (isspace c) eqn:Hc.
    + exists (c :: pre). split; [simpl; congruence|]. split; [|exact Hhd].
      unfold all_space in *. simpl. now rewrite Hc.
    + exists []. split; [reflexivity|]. split; [reflexivity|].
      simpl. now intros c' [= <-].
Qed.

Lemma skip_space_id (c : ascii) (r : cstring) :
  isspace c = false -> skip_space (c :: r) = c :: r.
Proof. intro H. simpl. now rewrite H. Qed.

Lemma trim_end_spec (e : nat) (s : cstring) :
  (trim_end e s <= e)%nat /\
  (forall j, (trim_end e s < j <= e)%nat -> isspace (nth j s NUL) = true) /\
  (trim_end e s = O \/ isspace (nth (trim_end e s) s NUL) = false).
Proof.
  induction e as [|e (IH1 & IH2 & IH3)]; simpl.
  - split; [lia|]. split; [intros j Hj; lia|now left].
  - destruct (isspace (nth (S e) s NUL)) eqn:He.
    + split; [lia|]. split; [|exact IH3].
      intros j Hj. destruct (Nat.eq_dec j (S e)) as [->|Hne]; [exact He|].
      apply IH2. lia.
    + split; [lia|]. split; [intros j Hj; lia|now right].
Qed.

Lemma trim_end_stop (k : nat) (s : cstring) :
  (k = O \/ isspace (nth k s NUL) = false) -> trim_end k s = k.
Proof.
  destruct k as [|k]; [reflexivity|]. intros [H|H]; [discriminate|].
  simpl. now rewrite H.
Qed.

Lemma skipn_all_space (k : nat) (s : cstring) :
  (forall j, (k <= j < length s)%nat -> isspace (nth j s NUL) = true) ->
  all_space (skipn k s).
Proof.
  revert k. induction s as [|c s IH]; intros k H.
  - now rewrite skipn_nil.
  - destruct k as [|k].
    + unfold all_space. simpl.
      pose proof (H O ltac:(simpl; lia)) as H0. simpl in H0. rewrite H0. simpl.
      apply (IH O). intros j Hj. apply (H (S j)). simpl. lia.
    + simpl. apply IH. intros j Hj. apply (H (S j)). simpl. lia.
Qed.

Lemma hd_error_rev_firstn (k : nat) (s : cstring) :
  (k < length s)%nat -> hd_error (rev (firstn (S k) s)) = Some (nth k s NUL).
Proof.
  revert k. induction s as [|c s IH]; intros k Hk; [simpl in Hk; lia|].
  destruct k as [|k]; [reflexivity|].
  change (firstn (S (S k)) (c :: s)) with (c :: firstn (S k) s).
  cbn [rev nth]. simpl in Hk. specialize (IH k ltac:(lia)).
  destruct (rev (firstn (S k) s)) as [|x l]; [discriminate|]. exact IH.
Qed.

(** What [utils_string_trim] returns on a string that starts with a
    character that is no white space. *)
Lemma utils_string_trim_cons (c : ascii) (r : cstring) :
  isspace c = false ->
  utils_string_trim (c :: r) = firstn (S (trim_end (length r) (c :: r))) (c :: r).
Proof.
  intro Hc. unfold utils_string_trim. rewrite skip_space_id by exact Hc.
  now replace (length (c :: r) - 1)%nat with (length r) by (simpl; lia).
Qed.

Lemma utils_string_trim_fixed (t : cstring) :
  no_space_at_ends t -> utils_string_trim t = t.
Proof.
  intros (Hhd & Hlast). destruct t as [|c r]; [reflexivity|].
  assert (Hc : isspace c = false) by now apply Hhd.
  rewrite utils_string_trim_cons by exact Hc.
  assert (Hk : trim_end (length r) (c :: r) = length r).
  { apply trim_end_stop. destruct r as [|x r]; [now left|right].
    apply Hlast. rewrite <- (firstn_all (c :: x :: r)) at 1.
    cbn [length]. apply hd_error_rev_firstn. simpl. lia. }
  rewrite Hk. apply (firstn_all (c :: r)).
Qed.

(** X6.  [utils_string_trim] takes away the white space in front and
    behind and nothing else: the string is white space, the result,
    white space; the result neither starts nor ends with white space;
    and trimming again changes nothing. *)
Theorem utils_string_trim_spec (str : cstring) :
  (exists pre post,
     str = pre ++ utils_string_trim str ++ post /\ all_space pre /\ all_space post) /\
  no_space_at_ends (utils_string_trim str) /\
  utils_string_trim (utils_string_trim str) = utils_string_trim str.
Proof.
  assert (Hends : no_space_at_ends (utils_string_trim str)).
  { destruct (skip_space_split str) as (pre & Heq & Hpre & Hhd).
    unfold utils_string_trim. destruct (skip_space str) as [|c r] eqn:Hs.
    - split; intros c; discriminate.
    - assert (Hc : isspace c = false) by now apply Hhd.
      replace (length (c :: r) - 1)%nat with (length r) by (simpl; lia).
      destruct (trim_end_spec (length r) (c :: r)) as (Hle & _ & Hstop).
      split.
      + simpl. now intros c' [= <-].
      + intros c'. rewrite hd_error_rev_firstn by (simpl; lia). intros [= <-].
        destruct Hstop as [H0|H]; [now rewrite H0|exact H]. }
  split; [|split; [exact Hends|now apply utils_string_trim_fixed]].
  destruct (skip_space_split str) as (pre & Heq & Hpre & Hhd).
  unfold utils_string_trim. destruct (skip_space str) as [|c r] eqn:Hs.
  - exists pre, []. rewrite app_nil_r in *. now repeat split.
  - replace (length (c :: r) - 1)%nat with (length r) by (simpl; lia).
    destruct (trim_end_spec (length r) (c :: r)) as (Hle & Hsp & _).
    set (k := trim_end (length r) (c :: r)) in *.
    exists pre, (skipn (S k) (c :: r)). split.
    + now rewrite firstn_skipn.
    + split; [exact Hpre|]. apply skipn_all_space.
      intros j Hj. apply Hsp. simpl in Hj. lia.
Qed.

(** ** Prefixes and suffixes *)

Lemma strncmp_eq_prefix (str prefix : cstring) :
  strncmp_eq (length prefix) str prefix = true <-> exists rest, str = prefix ++ rest.
Proof.
  revert str. induction prefix as [|y p IH]; intros str; simpl.
  - split; [now exists str|reflexivity].
  - destruct str as [|x s].
    + split; [discriminate|]. now intros (rest & H).
    + rewrite andb_true_iff, IH, Ascii.eqb_eq. split.
      * intros (-> & rest & ->). now exists rest.
      * intros (rest & [= -> ->]). split; [reflexivity|now exists rest].
Qed.

Lemma utils_string_ends_with_suffix (str suffix : cstring) :
  utils_string_ends_with str suffix = true <-> exists pre, str = pre ++ suffix.
Proof.
  unfold utils_string_ends_with.
  destruct (Nat.ltb_spec (length str) (length suffix)) as [Hlt|Hge].
  - split; [discriminate|]. intros (pre & ->). rewrite length_app in Hlt. lia.
  - rewrite TINYPKG_STREQ_eq. split.
    + intro H. exists (firstn (length str - length suffix) str).
      pose proof (firstn_skipn (length str - length suffix) str) as Hs.
      rewrite H in Hs. symmetry. exact Hs.
    + intros (pre & ->). rewrite length_app.
      replace (length pre + length suffix - length suffix)%nat with (length pre) by lia.
      now rewrite skipn_app, skipn_all, Nat.sub_diag.
Qed.

(** X7.  [utils_string_starts_with] and [utils_string_ends_with] answer
    exactly whether the second string is a prefix, respectively a
    suffix, of the first. *)
Theorem utils_string_starts_ends_with_spec (str other : cstring) :
  (utils_string_starts_with str other = true <-> exists rest, str = other ++ rest) /\
  (utils_string_ends_with str other = true <-> exists pre, str = pre ++ other).
Proof.
  split; [apply strncmp_eq_prefix|apply utils_string_ends_with_suffix].
Qed.

(** ** Splitting at delimiters *)

Lemma strtok_skip_spec (delimiter s : cstring) :
  (strtok_skip delimiter s = [] -> forallb (in_set delimiter) s = true) /\
  (forall c, hd_error (strtok_skip delimiter s) = Some c -> in_set delimiter c = false).
Proof.
  induction s as [|x s (IH1 & IH2)]; simpl; [split; [reflexivity|discriminate]|].
  destruct (in_set delimiter x) eqn:Hx; [split; assumption|].
  split; [discriminate|]. simpl. now intros c [= <-].
Qed.

Lemma strtok_token_free (delimiter s : cstring) :
  forallb (fun c => negb (in_set delimiter c)) (fst (strtok_token delimiter s)) = true.
Proof.
  induction s as [|x s IH]; simpl; [reflexivity|].
  destruct (in_set delimiter x) eqn:Hx; [reflexivity|].
  destruct (strtok_token delimiter s) as [t rest]. simpl in *. now rewrite Hx.
Qed.

Lemma strtok_is_token (delimiter s t rest : cstring) :
  strtok delimiter s = Some (t, rest) -> is_token delimiter t.
Proof.
  unfold strtok. destruct (strtok_skip_spec delimiter s) as (_ & Hhd).
  destruct (strtok_skip delimiter s) as [|c l]; [discriminate|].
  intro H.
  assert (Ht : strtok_token delimiter (c :: l) = (t, rest)) by congruence.
  pose proof (strtok_token_free delimiter (c :: l)) as Hfree.
  rewrite Ht in Hfree. split; [|exact Hfree].
  simpl in Ht. rewrite (Hhd c eq_refl) in Ht.
  destruct (strtok_token delimiter l). injection Ht as <- _. discriminate.
Qed.

Lemma strtok_loop_tokens (fuel : nat) (delimiter s : cstring) :
  Forall (is_token delimiter) (strtok_loop fuel delimiter s).
Proof.
  revert s. induction fuel as [|fuel IH]; intros s; simpl; [constructor|].
  destruct (strtok delimiter s) as [[t rest]|] eqn:Ht; [|constructor].
  constructor; [now apply (strtok_is_token delimiter s t rest)|apply IH].
Qed.

Lemma strtok_token_at_end (delimiter t : cstring) :
  forallb (fun c => negb (in_set delimiter c)) t = true ->
  strtok_token delimiter t = (t, []).
Proof.
  induction t as [|x t IH]; simpl; [reflexivity|].
  intro H. apply andb_true_iff in H as [Hx Ht]. apply negb_true_iff in Hx.
  now rewrite Hx, IH.
Qed.

Lemma strtok_token_before (delimiter t rest : cstring) (d : ascii) :
  forallb (fun c => negb (in_set delimiter c)) t = true ->
  in_set delimiter d = true ->
  strtok_token delimiter (t ++ d :: rest) = (t, rest).
Proof.
  intros Ht Hd. induction t as [|x t IH]; simpl; [now rewrite Hd|].
  simpl in Ht. apply andb_true_iff in Ht as [Hx Ht]. apply negb_true_iff in Hx.
  now rewrite Hx, IH.
Qed.

Lemma strtok_skip_token (delimiter t rest : cstring) :
  is_token delimiter t -> strtok_skip delimiter (t ++ rest) = t ++ rest.
Proof.
  intros (Hne & Hfree). destruct t as [|x t]; [contradiction|].
  simpl in *. apply andb_true_iff in Hfree as [Hx _]. apply negb_true_iff in Hx.
  now rewrite Hx.
Qed.

Lemma strtok_before (delimiter t rest : cstring) (d : ascii) :
  is_token delimiter t -> in_set delimiter d = true ->
  strtok delimiter (t ++ d :: rest) = Some (t, rest).
Proof.
  intros Ht Hd. unfold strtok. rewrite strtok_skip_token by exact Ht.
  destruct (t ++ d :: rest) as [|y l] eqn:Hl; [now destruct t|].
  rewrite <- Hl. f_equal. apply strtok_token_before; [apply Ht|exact Hd].
Qed.

Lemma strtok_at_end (delimiter t : cstring) :
  is_token delimiter t -> strtok delimiter t = Some (t, []).
Proof.
  intros Ht. unfold strtok. rewrite <- (app_nil_r t) at 1.
  rewrite strtok_skip_token by exact Ht. rewrite app_nil_r.
  destruct t as [|y l] eqn:Hl; [now destruct Ht|].
  rewrite <- Hl in *. f_equal. apply strtok_token_at_end, Ht.
Qed.

Lemma strtok_loop_join (delimiter : cstring) (d : ascii) (tokens : list cstring) :
  in_set delimiter d = true -> Forall (is_token delimiter) tokens ->
  forall fuel, (length tokens <= fuel)%nat ->
  strtok_loop fuel delimiter (join_tokens d tokens) = tokens.
Proof.
  intros Hd Htok. induction Htok as [|t rest Ht Hrest IH]; intros fuel Hfuel.
  - destruct fuel; reflexivity.
  - destruct fuel as [|fuel]; [simpl in Hfuel; lia|]. simpl in Hfuel.
    destruct rest as [|u rest].
    + cbn [join_tokens strtok_loop]. rewrite strtok_at_end by exact Ht.
      destruct fuel; reflexivity.
    + change (join_tokens d (t :: u :: rest)) with (t ++ d :: join_tokens d (u :: rest)).
      cbn [strtok_loop]. rewrite strtok_before by assumption.
      rewrite IH by lia. reflexivity.
Qed.

Lemma join_tokens_length (d : ascii) (delimiter : cstring) (tokens : list cstring) :
  Forall (is_token delimiter) tokens ->
  (length tokens <= length (join_tokens d tokens))%nat.
Proof.
  induction 1 as [|t rest (Hne & _) Hrest IH]; [simpl; lia|].
  destruct t as [|x t]; [contradiction|].
  destruct rest as [|u rest]; [simpl; lia|].
  change (join_tokens d ((x :: t) :: u :: rest))
    with ((x :: t) ++ d :: join_tokens d (u :: rest)).
  rewrite length_app. simpl in *. lia.
Qed.

(** X8.  [utils_string_split] returns NULL exactly for strings made of
    delimiters only; otherwise every string it returns is a token, not
    empty and free of delimiters; and tokens joined by a delimiter are
    split into the same tokens again. *)
Theorem utils_string_split_tokens (str delimiter : cstring) (d : ascii)
    (tokens : list cstring) :
  (utils_string_split str delimiter = None <->
     forallb (in_set delimiter) str = true) /\
  (forall parts, utils_string_split str delimiter = Some parts ->
     parts <> [] /\ Forall (is_token delimiter) parts) /\
  (in_set delimiter d = true -> tokens <> [] ->
   Forall (is_token delimiter) tokens ->
   utils_string_split (join_tokens d tokens) delimiter = Some tokens).
Proof.
  split; [|split].
  - unfold utils_string_split. cbn [strtok_loop]. unfold strtok.
    destruct (strtok_skip_spec delimiter str) as (Hall & Hhd).
    destruct (strtok_skip delimiter str) as [|c l] eqn:Hs.
    + simpl. split; [intros _; now apply Hall|reflexivity].
    + destruct (strtok_token delimiter (c :: l)) as [t rest]. cbn [length Nat.eqb].
      split; [discriminate|]. intro Hd. exfalso.
      assert (Hin : in_set delimiter c = true).
      { assert (Hc : In c str).
        { clear - Hs. induction str as [|x s IH]; simpl in Hs; [discriminate|].
          destruct (in_set delimiter x); [right; now apply IH|].
          injection Hs as -> _. now left. }
        rewrite forallb_forall in Hd. now apply Hd. }
      rewrite (Hhd c eq_refl) in Hin. discriminate.
  - intros parts. unfold utils_string_split.
    pose proof (strtok_loop_tokens (S (length str)) delimiter str) as Htok.
    destruct (strtok_loop (S (length str)) delimiter str) as [|t l] eqn:Hl;
      [discriminate|].
    rewrite firstn_all. cbn [length Nat.eqb]. now intros [= <-].
  - intros Hd Hne Htok. unfold utils_string_split.
    rewrite (strtok_loop_join delimiter d tokens Hd Htok)
      by (pose proof (join_tokens_length d delimiter tokens Htok); lia).
    destruct tokens as [|t l]; [contradiction|].
    rewrite firstn_all. reflexivity.
Qed.

Lemma utils_string_split_tokens_witness :
  utils_string_split (cstr "a,bc,d") (cstr ",;") =
    Some [cstr "a"; cstr "bc"; cstr "d"].
Proof.
  apply (proj2 (proj2 (utils_string_split_tokens [] (cstr ",;") ","%char
                         [cstr "a"; cstr "bc"; cstr "d"]))).
  - reflexivity.
  - discriminate.
  - repeat constructor; discriminate.
Defined.

(** ** Joining a directory and a file name *)

(** X9.  The text [utils_join_path] writes fits the buffer it allocates,
    terminator included; it starts with the directory and ends with the
    file name; and a separator is put between the two exactly when the
    directory is not empty and does not end with one. *)
Theorem utils_join_path_spec (dir file : cstring) :
  let text := fst (utils_join_path dir file) in
  let size := snd (utils_join_path dir file) in
  (length text + 1 <= size)%nat /\
  utils_string_starts_with text dir = true /\
  utils_string_ends_with text file = true /\
  (text = dir ++ file \/ text = dir ++ [SLASH] ++ file) /\
  (text = dir ++ file <-> dir = [] \/ exists d, dir = d ++ [SLASH]).
Proof.
  cbv zeta. unfold utils_join_path. cbn [fst snd].
  set (sep := if (0 <? length dir)%nat &&
                 negb (Ascii.eqb (nth (length dir - 1) dir NUL) SLASH)
              then [SLASH] else []).
  assert (Hsep : (sep = [] /\ (dir = [] \/ exists d, dir = d ++ [SLASH])) \/
                 (sep = [SLASH] /\ dir <> [] /\ forall d, dir <> d ++ [SLASH])).
  { subst sep. destruct dir as [|x dir] using rev_ind; [left; split; [reflexivity|now left]|].
    rewrite length_app. cbn [length].
    replace (length dir + 1 - 1)%nat with (length dir) by lia.
    rewrite app_nth2, Nat.sub_diag by lia. cbn [nth].
    replace (0 <? length dir + 1)%nat with true by (symmetry; apply Nat.ltb_lt; lia).
    cbn [andb]. destruct (Ascii.eqb_spec x SLASH) as [->|Hx]; cbn [negb].
    - left. split; [reflexivity|]. right. now exists dir.
    - right. split; [reflexivity|]. split; [now destruct dir|].
      intros d Hd. apply app_inj_tail in Hd as [_ Hd]. contradiction. }
  split; [|split; [|split; [|split]]].
  - rewrite !length_app. destruct Hsep as [(-> & _)|(-> & _)]; simpl; lia.
  - apply strncmp_eq_prefix. now exists (sep ++ file).
  - apply utils_string_ends_with_suffix. exists (dir ++ sep). now rewrite <- app_assoc.
  - destruct Hsep as [(-> & _)|(-> & _)]; [now left|now right].
  - destruct Hsep as [(-> & H)|(-> & Hne & H)].
    + split; [intros _; exact H|reflexivity].
    + split.
      * intro Heq. apply app_inv_head in Heq.
        apply (f_equal (@length ascii)) in Heq. simpl in Heq. lia.
      * intros [->|(d & ->)]; [contradiction|]. now contradiction (H d).
Qed.

(** ** Path validation *)

Lemma strstr_none (haystack needle : cstring) :
  strstr haystack needle = None <->
  forall pre post, haystack <> pre ++ needle ++ post.
Proof.
  induction haystack as [|x h IH]; simpl.
  - destruct (strncmp_eq (length needle) [] needle) eqn:Hp.
    + split; [discriminate|]. intro H. apply strncmp_eq_prefix in Hp as (rest & Hr).
      now contradiction (H [] rest).
    + split; [|reflexivity]. intros _ pre post Heq.
      destruct pre; [|discriminate]. simpl in Heq.
      assert (Ht : strncmp_eq (length needle) [] needle = true)
        by (apply strncmp_eq_prefix; now exists post).
      congruence.
  - destruct (strncmp_eq (length needle) (x :: h) needle) eqn:Hp.
    + split; [discriminate|]. intro H. apply strncmp_eq_prefix in Hp as (rest & Hr).
      now contradiction (H [] rest).
    + rewrite IH. split.
      * intros H pre post Heq. destruct pre as [|y pre].
        -- assert (Ht : strncmp_eq (length needle) (x :: h) needle = true)
             by (apply strncmp_eq_prefix; now exists post).
           congruence.
        -- injection Heq as _ Heq. now apply (H pre post).
      * intros H pre post Heq. apply (H (x :: pre) post). simpl. now rewrite Heq.
Qed.

Lemma strcspn_nil (s : cstring) : strcspn s [] = length s.
Proof. induction s as [|c s IH]; simpl; [reflexivity|now rewrite IH]. Qed.

(** X10.  [security_validate_path] answers success or the generic error,
    and success exactly for a path that is not empty, holds no two dots
    in a row anywhere, and has at most [MAX_PATH - 1] characters. *)
Theorem security_validate_path_spec (path : cstring) :
  (security_validate_path path = TINYPKG_SUCCESS \/
   security_validate_path path = TINYPKG_ERROR) /\
  (security_validate_path path = TINYPKG_SUCCESS <->
   path <> [] /\
   (forall pre post, path <> pre ++ cstr ".." ++ post) /\
   (length path <= MAX_PATH - 1)%nat).
Proof.
  unfold security_validate_path. rewrite strcspn_nil, Nat.eqb_refl. cbn [negb].
  destruct path as [|c p]; [split; [now right|]; split; [discriminate|now intros ([] & _)]|].
  cbn [length Nat.eqb].
  destruct (strstr (c :: p) (cstr "..")) as [found|] eqn:Hs.
  - split; [now right|]. split; [discriminate|]. intros (_ & Hno & _).
    pose proof (proj2 (strstr_none _ _) Hno) as Hn. congruence.
  - pose proof (proj1 (strstr_none _ _) Hs) as Hno.
    destruct (Nat.ltb_spec (MAX_PATH - 1) (S (length p))) as [Hlong|Hfit].
    + split; [now right|]. split; [discriminate|]. intros (_ & _ & Hl). lia.
    + split; [now left|]. split; [|reflexivity]. intros _.
      split; [discriminate|]. split; [exact Hno|exact Hfit].
Qed.

(** ** Setting and getting configuration values *)

Lemma find_entry_overwrite_same k v es es' :
  overwrite_entry k v es = Some es' ->
  find_entry k es' = Some (strncpy (CFG_VALUE_SIZE - 1) v).
Proof.
  revert es'. induction es as [|e es IH]; simpl; [discriminate|].
  intros es'. destruct (TINYPKG_STREQ (cfg_key e) k) eqn:He.
  - intros [= <-]. simpl. now rewrite He.
  - destruct (overwrite_entry k v es) as [t|]; [|discriminate].
    intros [= <-]. simpl. rewrite He. now apply IH.
Qed.

Lemma find_entry_overwrite_other k k' v es es' :
  k' <> k -> overwrite_entry k v es = Some es' ->
  find_entry k' es' = find_entry k' es.
Proof.
  intro Hk. revert es'. induction es as [|e es IH]; simpl; [discriminate|].
  intros es'. destruct (TINYPKG_STREQ (cfg_key e) k) eqn:He.
  - intros [= <-]. simpl. apply TINYPKG_STREQ_eq in He.
    destruct (TINYPKG_STREQ (cfg_key e) k') eqn:He'; [|reflexivity].
    apply TINYPKG_STREQ_eq in He'. congruence.
  - destruct (overwrite_entry k v es) as [t|]; [|discriminate].
    intros [= <-]. simpl. now rewrite (IH t eq_refl).
Qed.

Lemma find_entry_store_same k v es :
  (length k < CFG_KEY_SIZE)%nat ->
  find_entry k (store_entry k v es) = Some (strncpy (CFG_VALUE_SIZE - 1) v).
Proof.
  intro Hk. unfold store_entry.
  destruct (overwrite_entry k v es) as [es'|] eqn:Ho.
  - now apply (find_entry_overwrite_same k v es).
  - simpl. rewrite strncpy_short by (unfold CFG_KEY_SIZE in *; lia).
    now rewrite TINYPKG_STREQ_refl.
Qed.

Lemma find_entry_store_other k k' v es :
  (length k < CFG_KEY_SIZE)%nat -> k' <> k ->
  find_entry k' (store_entry k v es) = find_entry k' es.
Proof.
  intros Hk Hne. unfold store_entry.
  destruct (overwrite_entry k v es) as [es'|] eqn:Ho.
  - now apply (find_entry_overwrite_other k k' v es).
  - simpl. rewrite strncpy_short by (unfold CFG_KEY_SIZE in *; lia).
    destruct (TINYPKG_STREQ k k') eqn:He; [|reflexivity].
    apply TINYPKG_STREQ_eq in He. congruence.
Qed.

Lemma get_value_store_in_section s k v s' k' sections sections' :
  store_in_section s k v sections = Some sections' ->
  config_parser_get_value sections' s' k' =
  if TINYPKG_STREQ s s'
  then find_entry k'
         (store_entry k v
            (match find (fun x => TINYPKG_STREQ (cfg_name x) s) sections with
             | Some x => cfg_entries x
             | None => []
             end))
  else config_parser_get_value sections s' k'.
Proof.
  revert sections'. induction sections as [|x sections IH]; simpl; [discriminate|].
  intros sections'. destruct (TINYPKG_STREQ (cfg_name x) s) eqn:Hx.
  - intros [= <-]. simpl. apply TINYPKG_STREQ_eq in Hx. subst s.
    now destruct (TINYPKG_STREQ (cfg_name x) s').
  - destruct (store_in_section s k v sections) as [t|]; [|discriminate].
    intros [= <-]. simpl. rewrite (IH t eq_refl).
    destruct (TINYPKG_STREQ s s') eqn:Hs.
    + apply TINYPKG_STREQ_eq in Hs. subst s'. now rewrite Hx.
    + reflexivity.
Qed.

Lemma get_value_find s k sections :
  config_parser_get_value sections s k =
  match find (fun x => TINYPKG_STREQ (cfg_name x) s) sections with
  | Some x => find_entry k (cfg_entries x)
  | None => None
  end.
Proof.
  induction sections as [|x sections IH]; simpl; [reflexivity|].
  now destruct (TINYPKG_STREQ (cfg_name x) s).
Qed.

Lemma store_in_section_none s k v sections :
  store_in_section s k v sections = None ->
  find (fun x => TINYPKG_STREQ (cfg_name x) s) sections = None.
Proof.
  induction sections as [|x sections IH]; simpl; [reflexivity|].
  destruct (TINYPKG_STREQ (cfg_name x) s); [discriminate|].
  destruct (store_in_section s k v sections); [discriminate|]. intros _. now apply IH.
Qed.

(** X11.  With a section name and a key that fit their arrays, after
    [config_parser_set_value] the value found under that section and key
    is the one that was set, cut to the size of the array, and every
    other section and key finds what it found before. *)
Theorem config_parser_get_after_set (sections : list config_section_t)
    (s k v s' k' : cstring) :
  (length s < CFG_NAME_SIZE)%nat -> (length k < CFG_KEY_SIZE)%nat ->
  let sections' := snd (config_parser_set_value sections s k v) in
  fst (config_parser_set_value sections s k v) = 0 /\
  config_parser_get_value sections' s k = Some (strncpy (CFG_VALUE_SIZE - 1) v) /\
  (s' <> s \/ k' <> k ->
   config_parser_get_value sections' s' k' = config_parser_get_value sections s' k').
Proof.
  intros Hs Hk. cbv zeta. unfold config_parser_set_value.
  destruct (store_in_section s k v sections) as [t|] eqn:Hst; cbn [fst snd].
  - split; [reflexivity|]. split.
    + rewrite (get_value_store_in_section s k v s k sections t Hst).
      rewrite TINYPKG_STREQ_refl. now apply find_entry_store_same.
    + intros Hne. rewrite (get_value_store_in_section s k v s' k' sections t Hst).
      destruct (TINYPKG_STREQ s s') eqn:Hss; [|reflexivity].
      apply TINYPKG_STREQ_eq in Hss. subst s'.
      destruct Hne as [Hne|Hne]; [contradiction|].
      rewrite find_entry_store_other by assumption.
      rewrite get_value_find.
      destruct (find (fun x => TINYPKG_STREQ (cfg_name x) s) sections) as [x|] eqn:Hf;
        [reflexivity|].
      clear - Hst Hf. exfalso. revert t Hst.
      induction sections as [|y sections IH]; simpl in *; [discriminate|].
      destruct (TINYPKG_STREQ (cfg_name y) s); [discriminate|].
      destruct (store_in_section s k v sections) as [u|]; [|discriminate].
      intros t _. now apply (IH Hf u).
  - split; [reflexivity|].
    apply store_in_section_none in Hst.
    cbn [config_parser_get_value cfg_name cfg_entries].
    rewrite strncpy_short by (unfold CFG_NAME_SIZE in *; lia).
    split.
    + rewrite TINYPKG_STREQ_refl. now apply find_entry_store_same.
    + intros Hne. destruct (TINYPKG_STREQ s s') eqn:Hss; [|reflexivity].
      apply TINYPKG_STREQ_eq in Hss. subst s'.
      destruct Hne as [Hne|Hne]; [contradiction|].
      rewrite find_entry_store_other by assumption.
      rewrite get_value_find, Hst. reflexivity.
Qed.

Lemma config_parser_get_after_set_witness :
  config_parser_get_value
    (snd (config_parser_set_value [] (cstr "build") (cstr "install_prefix") (cstr "/opt")))
    (cstr "build") (cstr "install_prefix") = Some (cstr "/opt").
Proof.
  destruct (config_parser_get_after_set [] (cstr "build") (cstr "install_prefix")
              (cstr "/opt") (cstr "build") (cstr "build_flags"))
    as (_ & Hget & _); [vm_compute; lia | vm_compute; lia |].
  exact Hget.
Defined.

(** ** Reading a configuration file *)

Lemma trim_whitespace_eq (s : cstring) : trim_whitespace s = utils_string_trim s.
Proof. reflexivity. Qed.

Lemma skip_space_app (pre rest : cstring) :
  all_space pre -> skip_space (pre ++ rest) = skip_space rest.
Proof.
  unfold all_space. induction pre as [|c pre IH]; simpl; [reflexivity|].
  intro H. apply andb_true_iff in H as [Hc Hpre]. now rewrite Hc, IH.
Qed.

Lemma trim_end_down (s : cstring) (k e : nat) :
  (k <= e)%nat ->
  (forall j, (k < j <= e)%nat -> isspace (nth j s NUL) = true) ->
  (k = O \/ isspace (nth k s NUL) = false) ->
  trim_end e s = k.
Proof.
  intros Hke Hsp Hk. induction e as [|e IH].
  - now replace k with O by lia.
  - destruct (Nat.eq_dec k (S e)) as [->|Hne]; [now apply trim_end_stop|].
    simpl. rewrite (Hsp (S e)) by lia. apply IH; [lia|].
    intros j Hj. apply Hsp. lia.
Qed.

Lemma hd_rev_nth (t : cstring) (c : ascii) :
  hd_error (rev t) = Some c -> nth (length t - 1) t NUL = c.
Proof.
  destruct t as [|x t] using rev_ind; [discriminate|].
  rewrite rev_app_distr. simpl. intros [= <-].
  rewrite length_app. simpl. rewrite app_nth2 by lia.
  now replace (length t + 1 - 1 - length t)%nat with O by lia.
Qed.

Lemma all_space_nth (post : cstring) (j : nat) :
  all_space post -> (j < length post)%nat -> isspace (nth j post NUL) = true.
Proof.
  unfold all_space. intros H Hj. rewrite forallb_forall in H.
  apply H. now apply nth_In.
Qed.

(** Trimming finds the text between the white space. *)
Lemma trim_sandwich (pre t post : cstring) :
  all_space pre -> all_space post -> t <> [] -> no_space_at_ends t ->
  trim_whitespace (pre ++ t ++ post) = t.
Proof.
  intros Hpre Hpost Hne (Hhd & Hlast). unfold trim_whitespace.
  rewrite skip_space_app by exact Hpre.
  destruct t as [|c r]; [contradiction|].
  assert (Hc : isspace c = false) by now apply Hhd.
  change ((c :: r) ++ post) with (c :: (r ++ post)).
  rewrite skip_space_id by exact Hc.
  replace (length (c :: r ++ post) - 1)%nat with (length r + length post)%nat
    by (simpl; rewrite length_app; lia).
  rewrite (trim_end_down (c :: r ++ post) (length r)).
  - change (c :: r ++ post) with ((c :: r) ++ post).
    rewrite firstn_app. change (S (length r)) with (length (c :: r)).
    now rewrite firstn_all, Nat.sub_diag, firstn_O, app_nil_r.
  - lia.
  - intros j Hj. change (c :: r ++ post) with ((c :: r) ++ post).
    rewrite app_nth2 by (simpl; lia). apply all_space_nth; [exact Hpost|].
    simpl. lia.
  - destruct r as [|x r]; [now left|right].
    change (c :: (x :: r) ++ post) with ((c :: x :: r) ++ post).
    rewrite app_nth1 by (simpl; lia).
    destruct (rev (c :: x :: r)) as [|y l] eqn:Hr.
    + apply (f_equal (@length ascii)) in Hr. rewrite length_rev in Hr. discriminate.
    + assert (Hy : hd_error (rev (c :: x :: r)) = Some y) by now rewrite Hr.
      pose proof (hd_rev_nth _ _ Hy) as Hn.
      replace (length (x :: r)) with (length (c :: x :: r) - 1)%nat by (simpl; lia).
      rewrite Hn. now apply Hlast.
Qed.

Lemma trim_all_space (l : cstring) : all_space l -> trim_whitespace l = [].
Proof.
  intro H. unfold trim_whitespace.
  rewrite <- (app_nil_r l), skip_space_app by exact H. reflexivity.
Qed.

Lemma strchr_first (a b : cstring) (c : ascii) :
  no_char c a -> strchr (a ++ c :: b) c = Some (a, b).
Proof.
  unfold no_char. induction a as [|x a IH]; simpl.
  - now rewrite Ascii.eqb_refl.
  - intro H. apply andb_true_iff in H as [Hx Ha]. apply negb_true_iff in Hx.
    now rewrite Hx, IH.
Qed.

Lemma no_space_at_ends_app (a b : cstring) :
  a <> [] -> b <> [] -> no_space_at_ends a -> no_space_at_ends b ->
  no_space_at_ends (a ++ b).
Proof.
  intros Ha Hb (Ha1 & _) (_ & Hb2). split.
  - destruct a as [|x a]; [contradiction|]. exact Ha1.
  - rewrite rev_app_distr. destruct (rev b) as [|y l] eqn:Hr.
    + apply (f_equal (@length ascii)) in Hr. rewrite length_rev in Hr.
      destruct b; [contradiction|discriminate].
    + exact Hb2.
Qed.

Lemma no_space_at_ends_mid (a m b : cstring) :
  a <> [] -> b <> [] -> no_space_at_ends a -> no_space_at_ends b ->
  no_space_at_ends (a ++ m ++ b).
Proof.
  intros Ha Hb (Ha1 & _) (_ & Hb2). split.
  - destruct a as [|x a]; [contradiction|]. exact Ha1.
  - rewrite !rev_app_distr. destruct (rev b) as [|y l] eqn:Hr.
    + apply (f_equal (@length ascii)) in Hr. rewrite length_rev in Hr.
      destruct b; [contradiction|discriminate].
    + exact Hb2.
Qed.

Lemma remove_quotes_plain (v : cstring) :
  hd_error v <> Some DQUOTE -> hd_error v <> Some SQUOTE -> remove_quotes v = v.
Proof.
  destruct v as [|q rest]; [reflexivity|]. simpl. intros Hd Hs.
  destruct (Ascii.eqb_spec q DQUOTE) as [->|_]; [now contradiction Hd|].
  destruct (Ascii.eqb_spec q SQUOTE) as [->|_]; [now contradiction Hs|]. reflexivity.
Qed.

(** The line of an entry, trimmed and cut at its equals sign. *)
Lemma entry_text_shape (kv : cstring * cstring) :
  plain_entry kv ->
  exists c body before after,
    trim_whitespace (entry_text kv) = c :: body /\
    Ascii.eqb c HASH = false /\ Ascii.eqb c LBRACKET = false /\
    strchr (c :: body) EQUALS = Some (before, after) /\
    trim_whitespace before = fst kv /\
    remove_quotes (trim_whitespace after) = snd kv.
Proof.
  destruct kv as [k v].
  intros ((Hne & Hends & Heq & _ & Hhash & Hbr & Hlen) &
          (Hvends & _ & Hdq & Hsq & Hvlen)).
  cbn [fst snd] in *. unfold entry_text. cbn [fst snd].
  assert (Hsp : all_space (cstr " ")) by reflexivity.
  assert (Heqs : no_space_at_ends [EQUALS])
    by (split; intros c [= <-]; reflexivity).
  set (after := match v with [] => [] | _ => cstr " " ++ v end).
  assert (Htrim : trim_whitespace (k ++ cstr " = " ++ v ++ [NEWLINE]) =
                  (k ++ cstr " ") ++ EQUALS :: after).
  { subst after. destruct v as [|x v].
    - assert (Hl : k ++ cstr " = " ++ [] ++ [NEWLINE] =
                   [] ++ (k ++ cstr " =") ++ (cstr " " ++ [NEWLINE]))
        by (simpl; rewrite <- app_assoc; reflexivity).
      rewrite Hl, trim_sandwich.
      + now rewrite <- app_assoc.
      + reflexivity.
      + reflexivity.
      + now destruct k.
      + change (k ++ cstr " =") with (k ++ cstr " " ++ [EQUALS]).
        apply no_space_at_ends_mid; [exact Hne|discriminate|exact Hends|exact Heqs].
    - assert (Hl : k ++ cstr " = " ++ (x :: v) ++ [NEWLINE] =
                   [] ++ (k ++ cstr " = " ++ (x :: v)) ++ [NEWLINE])
        by (simpl; rewrite <- !app_assoc; reflexivity).
      rewrite Hl, trim_sandwich.
      + now rewrite <- app_assoc.
      + reflexivity.
      + reflexivity.
      + now destruct k.
      + apply no_space_at_ends_mid; [exact Hne|discriminate|exact Hends|exact Hvends]. }
  rewrite Htrim.
  destruct k as [|c k']; [contradiction|].
  exists c, ((k' ++ cstr " ") ++ EQUALS :: after), ((c :: k') ++ cstr " "), after.
  split; [reflexivity|].
  split; [destruct (Ascii.eqb_spec c HASH) as [->|_]; [now contradiction Hhash|reflexivity]|].
  split; [destruct (Ascii.eqb_spec c LBRACKET) as [->|_]; [now contradiction Hbr|reflexivity]|].
  split.
  { change (c :: ((k' ++ cstr " ") ++ EQUALS :: after))
      with (((c :: k') ++ cstr " ") ++ EQUALS :: after).
    apply strchr_first. unfold no_char in *. rewrite forallb_app, Heq. reflexivity. }
  split.
  { change ((c :: k') ++ cstr " ") with ([] ++ (c :: k') ++ cstr " ").
    apply trim_sandwich; [reflexivity|exact Hsp|discriminate|exact Hends]. }
  assert (Hval : trim_whitespace after = v).
  { subst after. destruct v as [|x v]; [reflexivity|].
    rewrite <- (app_nil_r (cstr " " ++ x :: v)), <- app_assoc.
    apply trim_sandwich; [exact Hsp|reflexivity|discriminate|exact Hvends]. }
  rewrite Hval. now apply remove_quotes_plain.
Qed.

(** One turn of the loop on the line of an entry. *)
Lemma config_parse_lines_entry (kv : cstring * cstring) (rest : list cstring)
    (sec : config_section_t) (sections : list config_section_t) :
  plain_entry kv ->
  config_parse_lines (entry_text kv :: rest) (Some sec) sections =
  config_parse_lines rest
    (Some (mk_config_section (cfg_name sec)
             (mk_config_entry (fst kv) (snd kv) :: cfg_entries sec)))
    sections.
Proof.
  intro Hkv.
  destruct (entry_text_shape kv Hkv)
    as (c & body & before & after & Ht & Hh & Hb & Hs & Hk & Hv).
  cbn [config_parse_lines]. rewrite Ht, Hh, Hb, Hs, Hk, Hv.
  destruct Hkv as ((_ & _ & _ & _ & _ & _ & Hlen) & (_ & _ & _ & _ & Hvlen)).
  rewrite !strncpy_short by (unfold CFG_KEY_SIZE, CFG_VALUE_SIZE in *; lia).
  reflexivity.
Qed.

(** An entry before any header stops the loop. *)
Lemma config_parse_lines_entry_outside (kv : cstring * cstring) (rest : list cstring)
    (sections : list config_section_t) :
  plain_entry kv ->
  config_parse_lines (entry_text kv :: rest) None sections = (-1, (None, sections)).
Proof.
  intro Hkv.
  destruct (entry_text_shape kv Hkv)
    as (c & body & before & after & Ht & Hh & Hb & Hs & _).
  cbn [config_parse_lines]. now rewrite Ht, Hh, Hb, Hs.
Qed.

Lemma config_parse_lines_header (s : cstring) (rest : list cstring)
    (cur : option config_section_t) (sections : list config_section_t) :
  plain_section_name s ->
  config_parse_lines (header_text s :: rest) cur sections =
  config_parse_lines rest (Some (mk_config_section s []))
    (match cur with Some x => x :: sections | None => sections end).
Proof.
  intros (Hbr & _ & Hlen). cbn [config_parse_lines]. unfold header_text.
  assert (Hl : LBRACKET :: s ++ [RBRACKET; NEWLINE] =
               [] ++ (LBRACKET :: s ++ [RBRACKET]) ++ [NEWLINE])
    by (simpl; rewrite <- app_assoc; reflexivity).
  rewrite Hl, trim_sandwich.
  - cbv iota.
    change (Ascii.eqb LBRACKET HASH) with false.
    change (Ascii.eqb LBRACKET LBRACKET) with true. cbv iota.
    change (LBRACKET :: s ++ [RBRACKET]) with ((LBRACKET :: s) ++ RBRACKET :: []).
    rewrite strchr_first.
    + cbn [tl]. now rewrite strncpy_short by (unfold CFG_NAME_SIZE in *; lia).
    + unfold no_char in *. simpl. exact Hbr.
  - reflexivity.
  - reflexivity.
  - discriminate.
  - change (LBRACKET :: s ++ [RBRACKET]) with ([LBRACKET] ++ s ++ [RBRACKET]).
    apply no_space_at_ends_mid; try discriminate;
      split; intros c [= <-]; reflexivity.
Qed.

Lemma config_parse_lines_comment (t : cstring) (rest : list cstring)
    (cur : option config_section_t) (sections : list config_section_t) :
  config_parse_lines (comment_line t :: rest) cur sections =
  config_parse_lines rest cur sections.
Proof.
  cbn [config_parse_lines]. unfold comment_line.
  destruct (trim_whitespace (HASH :: t ++ [NEWLINE])) as [|c body] eqn:Ht;
    [reflexivity|].
  unfold trim_whitespace in Ht. rewrite skip_space_id in Ht by reflexivity.
  cbn [firstn] in Ht. injection Ht as <- _. reflexivity.
Qed.

Lemma config_parse_lines_blank (rest : list cstring)
    (cur : option config_section_t) (sections : list config_section_t) :
  config_parse_lines ([NEWLINE] :: rest) cur sections =
  config_parse_lines rest cur sections.
Proof. reflexivity. Qed.

Lemma config_parse_lines_entries (kvs : list (cstring * cstring))
    (rest : list cstring) (sec : config_section_t)
    (sections : list config_section_t) :
  Forall plain_entry kvs ->
  config_parse_lines (map entry_text kvs ++ rest) (Some sec) sections =
  config_parse_lines rest
    (Some (mk_config_section (cfg_name sec)
             (rev (map (fun kv => mk_config_entry (fst kv) (snd kv)) kvs)
              ++ cfg_entries sec)))
    sections.
Proof.
  intro H. revert sec. induction H as [|kv kvs Hkv Hkvs IH]; intros sec.
  - now destruct sec.
  - cbn [map app]. rewrite config_parse_lines_entry by exact Hkv.
    rewrite IH. cbn [cfg_name cfg_entries rev]. now rewrite <- app_assoc.
Qed.

Lemma config_parse_lines_sections (secs : list (cstring * list (cstring * cstring)))
    (rest : list cstring) (cur : option config_section_t)
    (sections : list config_section_t) :
  Forall plain_section secs ->
  exists cur' sections',
    config_parse_lines (flat_map section_lines secs ++ rest) cur sections =
    config_parse_lines rest cur' sections' /\
    chain cur' sections' = rev (map section_of secs) ++ chain cur sections.
Proof.
  intro H. revert cur sections.
  induction H as [|sec secs (Hname & Hentries) Hsecs IH]; intros cur sections.
  - now exists cur, sections.
  - cbn [flat_map]. unfold section_lines at 1.
    rewrite <- !app_assoc, <- app_comm_cons.
    rewrite config_parse_lines_header by exact Hname.
    rewrite <- app_assoc, config_parse_lines_entries by exact Hentries.
    cbn [app]. rewrite config_parse_lines_blank. cbn [cfg_name cfg_entries].
    rewrite app_nil_r. fold (section_of sec). fold (chain cur sections).
    destruct (IH (Some (section_of sec)) (chain cur sections)) as (cur' & sections' & He & Hc).
    exists cur', sections'. split; [exact He|]. rewrite Hc. cbn [map rev chain].
    now rewrite <- app_assoc.
Qed.

Lemma config_parse_lines_comments (comments : list cstring) (rest : list cstring)
    (cur : option config_section_t) (sections : list config_section_t) :
  config_parse_lines (map comment_line comments ++ rest) cur sections =
  config_parse_lines rest cur sections.
Proof.
  induction comments as [|t comments IH]; [reflexivity|].
  cbn [map app]. now rewrite config_parse_lines_comment.
Qed.

(** [fgets] returns the lines of a text whose lines fit the buffer. *)
Lemma fgets_lines_concat (bodies : list cstring) :
  Forall (fun b => no_newline b /\ (length b < 1023)%nat) bodies ->
  fgets_lines (concat (map (fun b => b ++ [NEWLINE]) bodies)) =
  map (fun b => b ++ [NEWLINE]) bodies.
Proof.
  induction 1 as [|b bodies (Hnl & Hlen) Hrest IH]; [reflexivity|].
  cbn [map concat]. rewrite <- app_assoc. cbn [app].
  now rewrite fgets_lines_line, IH.
Qed.

Lemma fgets_lines_whole (lines : list cstring) :
  Forall whole_line lines -> fgets_lines (concat lines) = lines.
Proof.
  induction 1 as [|l lines (b & -> & Hnl & Hlen) Hrest IH]; [reflexivity|].
  cbn [concat]. rewrite <- app_assoc. cbn [app].
  now rewrite fgets_lines_line, IH.
Qed.

Lemma no_newline_app' (a b : cstring) : no_newline a -> no_newline b -> no_newline (a ++ b).
Proof. unfold no_newline. intros Ha Hb. now rewrite forallb_app, Ha, Hb. Qed.

Lemma whole_comment_line (t : cstring) : plain_comment t -> whole_line (comment_line t).
Proof.
  intros (Hnl & Hlen). exists (HASH :: t). split; [reflexivity|].
  split; [exact Hnl|simpl; lia].
Qed.

Lemma whole_header_text (s : cstring) : plain_section_name s -> whole_line (header_text s).
Proof.
  intros (_ & Hnl & Hlen). exists (LBRACKET :: s ++ [RBRACKET]). split.
  - unfold header_text. simpl. now rewrite <- app_assoc.
  - split.
    + apply (no_newline_app' [LBRACKET]); [reflexivity|].
      apply no_newline_app'; [exact Hnl|reflexivity].
    + simpl. rewrite length_app. unfold CFG_NAME_SIZE in Hlen. simpl. lia.
Qed.

Lemma whole_entry_text (kv : cstring * cstring) : plain_entry kv -> whole_line (entry_text kv).
Proof.
  destruct kv as [k v].
  intros ((_ & _ & _ & Hknl & _ & _ & Hklen) & (_ & Hvnl & _ & _ & Hvlen)).
  cbn [fst snd] in *. exists (k ++ cstr " = " ++ v). split.
  - unfold entry_text. cbn [fst snd]. now rewrite <- !app_assoc.
  - split.
    + apply no_newline_app'; [exact Hknl|].
      apply no_newline_app'; [reflexivity|exact Hvnl].
    + rewrite !length_app. unfold CFG_KEY_SIZE, CFG_VALUE_SIZE in *. simpl. lia.
Qed.

Lemma whole_file_lines comments secs :
  Forall plain_comment comments -> Forall plain_section secs ->
  Forall whole_line (file_lines comments secs).
Proof.
  intros Hc Hs. unfold file_lines. apply Forall_app. split.
  - apply Forall_map. eapply Forall_impl; [|exact Hc]. apply whole_comment_line.
  - induction Hs as [|sec secs (Hname & Hentries) Hsecs IH]; [constructor|].
    cbn [flat_map]. apply Forall_app. split; [|exact IH].
    unfold section_lines. constructor; [now apply whole_header_text|].
    apply Forall_app. split.
    + apply Forall_map. eapply Forall_impl; [|exact Hentries]. apply whole_entry_text.
    + repeat constructor. exists [].
      split; [reflexivity|split; [reflexivity|simpl; lia]].
Qed.

Lemma find_entry_unique (entries : list config_entry_t) (e : config_entry_t) :
  NoDup (map cfg_key entries) -> In e entries ->
  find_entry (cfg_key e) entries = Some (cfg_value e).
Proof.
  induction entries as [|x entries IH]; simpl; [contradiction|].
  intros Hnd [->|Hin]; [now rewrite TINYPKG_STREQ_refl|].
  inversion Hnd as [|? ? Hx Hnd']; subst.
  destruct (TINYPKG_STREQ (cfg_key x) (cfg_key e)) eqn:He; [|now apply IH].
  apply TINYPKG_STREQ_eq in He. exfalso. apply Hx. rewrite He. now apply in_map.
Qed.

Lemma get_value_unique (sections : list config_section_t) (x : config_section_t)
    (k : cstring) :
  NoDup (map cfg_name sections) -> In x sections ->
  config_parser_get_value sections (cfg_name x) k = find_entry k (cfg_entries x).
Proof.
  induction sections as [|y sections IH]; simpl; [contradiction|].
  intros Hnd [->|Hin]; [now rewrite TINYPKG_STREQ_refl|].
  inversion Hnd as [|? ? Hy Hnd']; subst.
  destruct (TINYPKG_STREQ (cfg_name y) (cfg_name x)) eqn:He; [|now apply IH].
  apply TINYPKG_STREQ_eq in He. exfalso. apply Hy. rewrite He. now apply in_map.
Qed.

Lemma load_file_lines (comments : list cstring)
    (secs : list (cstring * list (cstring * cstring))) :
  Forall plain_comment comments -> Forall plain_section secs ->
  config_parser_load_file [] (Some (concat (file_lines comments secs))) =
    (0, rev (map section_of secs)).
Proof.
  intros Hc Hs. unfold config_parser_load_file.
  rewrite fgets_lines_whole by now apply whole_file_lines.
  unfold file_lines. rewrite config_parse_lines_comments.
  rewrite <- (app_nil_r (flat_map section_lines secs)).
  destruct (config_parse_lines_sections secs [] None [] Hs)
    as (cur & sections & -> & Hch).
  cbn [config_parse_lines chain] in *. rewrite app_nil_r in Hch.
  f_equal. exact Hch.
Qed.

Lemma get_value_sections (secs : list (cstring * list (cstring * cstring)))
    (s : cstring) (kvs : list (cstring * cstring)) (k v : cstring) :
  NoDup (map fst secs) -> In (s, kvs) secs -> NoDup (map fst kvs) -> In (k, v) kvs ->
  config_parser_get_value (rev (map section_of secs)) s k = Some v.
Proof.
  intros Hnd Hsec Hkeys Hkv.
  assert (Hin : In (section_of (s, kvs)) (rev (map section_of secs)))
    by (apply in_rev; rewrite rev_involutive; now apply in_map).
  assert (Hnames : NoDup (map cfg_name (rev (map section_of secs)))).
  { rewrite map_rev, map_map. cbn [section_of cfg_name].
    now apply NoDup_rev. }
  pose proof (get_value_unique _ (section_of (s, kvs)) k Hnames Hin) as Hget.
  cbn [section_of cfg_name fst] in Hget. fold section_of in Hget. rewrite Hget.
  cbn [section_of cfg_entries fst snd].
  apply (find_entry_unique _ (mk_config_entry k v)).
  - rewrite map_rev, map_map. cbn [cfg_key]. now apply NoDup_rev.
  - apply in_rev. rewrite rev_involutive.
    now apply (in_map (fun kv => mk_config_entry (fst kv) (snd kv)) kvs (k, v)).
Qed.

(** X12.  A file of comment lines followed by sections, each a header,
    its entries as "key = value" and an empty line, with plain names,
    keys and values, is read without error into the sections of the
    file, latest first, each with its entries latest first. When no
    section name and no key of a section is repeated, every key is then
    found with its value. *)
Theorem config_parser_load_file_text (comments : list cstring)
    (secs : list (cstring * list (cstring * cstring))) :
  Forall plain_comment comments -> Forall plain_section secs ->
  config_parser_load_file [] (Some (concat (file_lines comments secs))) =
    (0, rev (map section_of secs)) /\
  (NoDup (map fst secs) ->
   forall s kvs k v,
     In (s, kvs) secs -> NoDup (map fst kvs) -> In (k, v) kvs ->
     config_parser_get_value (rev (map section_of secs)) s k = Some v).
Proof.
  intros Hc Hs. split; [now apply load_file_lines|].
  intros Hnd s kvs k v. now apply get_value_sections.
Qed.

Lemma config_parser_load_file_text_witness :
  config_parser_load_file []
    (Some (concat (file_lines [cstr " TinyPkg Configuration File"]
                     [(cstr "general", [(cstr "root_dir", cstr "/");
                                        (cstr "force_mode", cstr "false")]);
                      (cstr "build", [(cstr "install_prefix", cstr "/usr/local")])]))) =
  (0, [mk_config_section (cstr "build")
         [mk_config_entry (cstr "install_prefix") (cstr "/usr/local")];
       mk_config_section (cstr "general")
         [mk_config_entry (cstr "force_mode") (cstr "false");
          mk_config_entry (cstr "root_dir") (cstr "/")]]).
Proof.
  assert (Hc : Forall plain_comment [cstr " TinyPkg Configuration File"])
    by (repeat constructor; vm_compute; lia).
  assert (Hs : Forall plain_section
                 [(cstr "general", [(cstr "root_dir", cstr "/");
                                    (cstr "force_mode", cstr "false")]);
                  (cstr "build", [(cstr "install_prefix", cstr "/usr/local")])]).
  { repeat constructor; try discriminate; try reflexivity;
      try (vm_compute; lia); try (intros c [= <-]; reflexivity). }
  exact (proj1 (config_parser_load_file_text _ _ Hc Hs)).
Defined.

Lemma fgets_lines_whole_app (lines : list cstring) (rest : cstring) :
  Forall whole_line lines ->
  fgets_lines (concat lines ++ rest) = lines ++ fgets_lines rest.
Proof.
  induction 1 as [|l lines (b & -> & Hnl & Hlen) Hrest IH]; [reflexivity|].
  cbn [concat]. rewrite <- !app_assoc. cbn [app].
  now rewrite fgets_lines_line, IH.
Qed.

Lemma strchr_none (s : cstring) (c : ascii) : no_char c s -> strchr s c = None.
Proof.
  unfold no_char. induction s as [|x s IH]; simpl; [reflexivity|].
  intro H. apply andb_true_iff in H as [Hx Hs]. apply negb_true_iff in Hx.
  now rewrite Hx, IH.
Qed.

(** A line that is a bare word stops the loop. *)
Lemma config_parse_lines_word (w : cstring) (rest : list cstring)
    (cur : option config_section_t) (sections : list config_section_t) :
  plain_key w ->
  config_parse_lines ((w ++ [NEWLINE]) :: rest) cur sections = (-1, (cur, sections)).
Proof.
  intros (Hne & Hends & Heq & _ & Hhash & Hbr & _). cbn [config_parse_lines].
  assert (Ht : trim_whitespace (w ++ [NEWLINE]) = w)
    by (apply (trim_sandwich [] w [NEWLINE]); [reflexivity|reflexivity|exact Hne|exact Hends]).
  rewrite Ht. destruct w as [|c w']; [contradiction|].
  destruct (Ascii.eqb_spec c HASH) as [->|_]; [now contradiction Hhash|].
  destruct (Ascii.eqb_spec c LBRACKET) as [->|_]; [now contradiction Hbr|].
  now rewrite strchr_none.
Qed.

(** X13.  [config_parser_load_file] fails with -1 when the file cannot
    be opened, when an entry comes before any section header, and when a
    line that is neither comment nor header has no equals sign; what
    follows the offending line is not read, and the sections read before
    it stay in the parser. *)
Theorem config_parser_load_file_errors (sections : list config_section_t)
    (comments : list cstring) (secs : list (cstring * list (cstring * cstring)))
    (kv : cstring * cstring) (w rest : cstring) :
  Forall plain_comment comments -> Forall plain_section secs ->
  plain_entry kv -> plain_key w ->
  config_parser_load_file sections None = (-1, sections) /\
  config_parser_load_file []
    (Some (concat (map comment_line comments ++ [entry_text kv]) ++ rest)) = (-1, []) /\
  config_parser_load_file []
    (Some (concat (file_lines comments secs ++ [w ++ [NEWLINE]]) ++ rest)) =
    (-1, rev (map section_of secs)).
Proof.
  intros Hc Hs Hkv Hw. split; [reflexivity|]. split.
  - unfold config_parser_load_file. rewrite fgets_lines_whole_app.
    + rewrite <- app_assoc, config_parse_lines_comments. cbn [app].
      now rewrite config_parse_lines_entry_outside.
    + apply Forall_app. split.
      * apply Forall_map. eapply Forall_impl; [|exact Hc]. apply whole_comment_line.
      * constructor; [now apply whole_entry_text|constructor].
  - unfold config_parser_load_file. rewrite fgets_lines_whole_app.
    + unfold file_lines. rewrite <- !app_assoc, config_parse_lines_comments.
      destruct (config_parse_lines_sections secs
                  ([w ++ [NEWLINE]] ++ fgets_lines rest) None [] Hs)
        as (cur & sections' & He & Hch).
      match goal with
      | |- context [config_parse_lines ?l None []] =>
          change l with (flat_map section_lines secs ++
                         [w ++ [NEWLINE]] ++ fgets_lines rest)
      end.
      rewrite He. cbn [app]. rewrite config_parse_lines_word by exact Hw.
      cbn [chain] in Hch. rewrite app_nil_r in Hch. f_equal. exact Hch.
    + apply Forall_app. split; [now apply whole_file_lines|].
      constructor; [|constructor]. destruct Hw as (_ & _ & _ & Hnl & _ & _ & Hlen).
      exists w. split; [reflexivity|]. split; [exact Hnl|].
      unfold CFG_KEY_SIZE in Hlen. lia.
Qed.

Lemma config_parser_load_file_errors_witness :
  config_parser_load_file [] (Some (cstr "jobs = 4" ++ [NEWLINE] ++ cstr "[general]")) =
    (-1, []) /\
  config_parser_load_file []
    (Some (concat (file_lines [] [(cstr "general", [(cstr "jobs", cstr "4")])]
                   ++ [cstr "verbose" ++ [NEWLINE]]) ++ cstr "[build]")) =
    (-1, [mk_config_section (cstr "general") [mk_config_entry (cstr "jobs") (cstr "4")]]).
Proof.
  assert (Hk : forall k : cstring,
            k <> [] -> no_space_at_ends k -> no_char EQUALS k -> no_newline k ->
            hd_error k <> Some HASH -> hd_error k <> Some LBRACKET ->
            (length k < CFG_KEY_SIZE)%nat -> plain_key k)
    by (intros; repeat split; assumption || apply H0).
  assert (Hjobs : plain_entry (cstr "jobs", cstr "4")).
  { repeat split; try discriminate; try reflexivity; try (vm_compute; lia);
      intros c [= <-]; reflexivity. }
  assert (Hword : plain_key (cstr "verbose")).
  { repeat split; try discriminate; try reflexivity; try (vm_compute; lia);
      intros c [= <-]; reflexivity. }
  destruct (config_parser_load_file_errors [] []
              [(cstr "general", [(cstr "jobs", cstr "4")])]
              (cstr "jobs", cstr "4") (cstr "verbose") (cstr "[general]"))
    as (_ & H2 & _); [constructor| |exact Hjobs|exact Hword|].
  { repeat constructor; try (vm_compute; lia); try reflexivity; apply Hjobs. }
  destruct (config_parser_load_file_errors [] []
              [(cstr "general", [(cstr "jobs", cstr "4")])]
              (cstr "jobs", cstr "4") (cstr "verbose") (cstr "[build]"))
    as (_ & _ & H3); [constructor| |exact Hjobs|exact Hword|].
  { repeat constructor; try (vm_compute; lia); try reflexivity; apply Hjobs. }
  split; [exact H2|exact H3].
Defined.

(** ** The configuration the program runs with *)









(** ** Values read from the configuration file *)

Lemma atoi_fmt_d (n : Z) : - 2 ^ 31 <= n < 2 ^ 31 -> atoi (fmt_d n) = n.
Proof.
  intro Hn. unfold atoi. rewrite <- (app_nil_r (fmt_d n)).
  rewrite conv_int_fmt_d by reflexivity.
  unfold LONG_BITS, INT_BITS.
  rewrite Z.min_r, Z.max_r by lia. apply wrap_signed_small; lia.
Qed.

(** X15.  From a file of plain sections without repeated section names,
    [config_load_file] takes [force_mode], [skip_dependencies] (true for
    the word true in any case) and [parallel_jobs] (a number that is not
    positive counts as 4; a positive [int] printed in decimal is read
    back as it is) from the section general and [install_prefix] from
    the section build; [keep_build_dir] and [debug_symbols] stay unset
    whatever the file says. *)
Theorem config_load_file_reads (online : Z) (comments : list cstring)
    (secs : list (cstring * list (cstring * cstring))) :
  Forall plain_comment comments -> Forall plain_section secs ->
  NoDup (map fst secs) ->
  let c := config_load_file online (Some (concat (file_lines comments secs))) in
  (forall kvs, In (cstr "general", kvs) secs -> NoDup (map fst kvs) ->
     (forall v, In (cstr "force_mode", v) kvs ->
                force_mode c = strcasecmp_eq v (cstr "true")) /\
     (forall v, In (cstr "skip_dependencies", v) kvs ->
                skip_dependencies c = strcasecmp_eq v (cstr "true")) /\
     (forall v, In (cstr "parallel_jobs", v) kvs ->
                parallel_jobs c = if atoi v <=? 0 then DEFAULT_PARALLEL_JOBS else atoi v) /\
     (forall n, 1 <= n < 2 ^ 31 -> In (cstr "parallel_jobs", fmt_d n) kvs ->
                parallel_jobs c = n)) /\
  (forall kvs v, In (cstr "build", kvs) secs -> NoDup (map fst kvs) ->
     In (cstr "install_prefix", v) kvs -> install_prefix c = strncpy 255 v) /\
  keep_build_dir c = false /\ debug_symbols c = false.
Proof.
  intros Hc Hs Hnd. cbv zeta. unfold config_load_file.
  rewrite load_file_lines by assumption.
  change (negb (0 =? 0)) with false. cbv iota.
  cbn [force_mode skip_dependencies parallel_jobs install_prefix keep_build_dir
       debug_symbols].
  split; [|split; [|split; reflexivity]].
  - intros kvs Hgen Hkeys.
    assert (Hget : forall k v, In (k, v) kvs ->
              config_parser_get_value (rev (map section_of secs)) (cstr "general") k =
              Some v)
      by (intros k v; now apply get_value_sections).
    split; [intros v Hv; now rewrite (Hget _ _ Hv)|].
    split; [intros v Hv; now rewrite (Hget _ _ Hv)|].
    split; [intros v Hv; now rewrite (Hget _ _ Hv)|].
    intros n Hn Hv. rewrite (Hget _ _ Hv), atoi_fmt_d by lia.
    destruct (Z.leb_spec n 0); [lia|reflexivity].
  - intros kvs v Hbuild Hkeys Hv.
    now rewrite (get_value_sections secs (cstr "build") kvs _ v Hnd Hbuild Hkeys Hv).
Qed.

Lemma plain_example_sections : Forall plain_section example_sections.
Proof.
  repeat constructor; try discriminate; try reflexivity;
    try (vm_compute; lia); try (intros c [= <-]; reflexivity).
Qed.

Lemma config_load_file_reads_witness :
  parallel_jobs (config_load_file 2 (Some (concat (file_lines [] example_sections)))) = 8 /\
  force_mode (config_load_file 2 (Some (concat (file_lines [] example_sections)))) = true /\
  install_prefix (config_load_file 2 (Some (concat (file_lines [] example_sections)))) =
    cstr "/opt" /\
  keep_build_dir (config_load_file 2 (Some (concat (file_lines [] example_sections)))) =
    false.
Proof.
  assert (Hnd : NoDup (map fst example_sections)).
  { apply NoDup_cons; [intros [H|[]]; discriminate|].
    apply NoDup_cons; [intros []|apply NoDup_nil]. }
  assert (Hgen : NoDup (map fst [(cstr "parallel_jobs", cstr "8");
                                 (cstr "force_mode", cstr "TRUE")])).
  { apply NoDup_cons; [intros [H|[]]; discriminate|].
    apply NoDup_cons; [intros []|apply NoDup_nil]. }
  assert (Hbuild : NoDup (map fst [(cstr "keep_build_dir", cstr "true");
                                   (cstr "install_prefix", cstr "/opt")])).
  { apply NoDup_cons; [intros [H|[]]; discriminate|].
    apply NoDup_cons; [intros []|apply NoDup_nil]. }
  destruct (config_load_file_reads 2 [] example_sections (Forall_nil _)
              plain_example_sections Hnd) as (Hg & Hb & Hk & _).
  destruct (Hg _ (or_introl eq_refl) Hgen) as (Hforce & _ & _ & Hjobs).
  split; [apply (Hjobs 8); [lia|now left]|].
  split; [apply (Hforce (cstr "TRUE")); right; now left|].
  split; [|exact Hk].
  apply (Hb _ (cstr "/opt") (or_intror (or_introl eq_refl)) Hbuild). right. now left.
Defined.

(** ** What the resolver lists *)

Lemma kahn_loop_names fuel g a q s res r :
  kahn_loop fuel g a q s res = Some r ->
  forall y, In y r -> In y res \/ In y (node_names (nodes g)).
Proof.
  revert a q s res. induction fuel as [|fuel IH]; intros a q s res; simpl.
  - destruct (nth_error q s); [discriminate|]. intros [= <-] y Hy. now left.
  - destruct (nth_error q s) as [idx|]; [|intros [= <-] y Hy; now left].
    destruct (nth_error (nodes g) idx) as [cur|] eqn:Hcur; [|discriminate].
    destruct (release_dependencies g (node_dependencies cur) a q) as [[a' q']|];
      [|discriminate].
    intros Hk y Hy. destruct (IH _ _ _ _ Hk y Hy) as [Hin|Hin]; [|now right].
    apply in_app_or in Hin as [Hin|[<-|[]]]; [now left|right].
    unfold node_names. apply in_map. now apply nth_error_In with idx.
Qed.

Lemma topological_sort_names (g : dependency_graph_t) (order : list cstring) :
  dependency_graph_topological_sort g = Some (TINYPKG_SUCCESS, order) ->
  forall y, In y order -> In y (node_names (nodes g)).
Proof.
  unfold dependency_graph_topological_sort.
  destruct (node_count g) as [|c]; [intros [= <-] y []|].
  destruct (kahn_loop (S c) g (count_in_degrees g)
              (zero_in_degree (count_in_degrees g) (S c)) 0 []) as [r|] eqn:Hk;
    [|discriminate].
  destruct (length r =? S c)%nat; [|discriminate].
  intros [= <-] y Hy. destruct (kahn_loop_names _ _ _ _ _ _ _ Hk y Hy) as [[]|H].
  exact H.
Qed.

Section ResolverList.

Variable E : env.

Lemma resolve_graph_deps (x : cstring) :
  fits_name x -> Forall fits_name (declared_dependencies E x) ->
  let g := snd (dependency_graph_build E
                  (snd (dependency_graph_add_package dependency_graph_create x))) in
  exists news,
    skeleton (nodes g) = map leaf news ++ [(x, declared_dependencies E x)] /\
    (forall d, In d news -> In d (declared_dependencies E x)).
Proof.
  intros Hx Hdeps g. subst g. unfold declared_dependencies in *.
  rewrite dependency_graph_add_package_graph.
  cbn [find_node_from nodes dependency_graph_create].
  rewrite (dependency_node_create_fits x Hx).
  unfold dependency_graph_build.
  cbn [snd nodes graph_build_walk node_dependencies node_package_name node_count
       has_cycles].
  unfold package_load_info.
  destruct (json_parser_load_package E x) as [pkg|] eqn:Hl.
  2:{ exists []. split; [reflexivity|contradiction]. }
  destruct (pkg_dependencies pkg) as [|d D] eqn:HD.
  { exists []. split; [reflexivity|contradiction]. }
  rewrite <- HD in *. clear HD d D.
  cbn [length Nat.sub with_nodes nodes node_count has_cycles update_node].
  destruct (add_packages_shape (pkg_dependencies pkg)
              (mk_graph [set_dependencies (pkg_dependencies pkg) (mk_node x [] false false)]
                 1 false) Hdeps) as (news & Hs & Hc & Hnd & Hin).
  cbn [nodes node_count skeleton map set_dependencies node_package_name
       node_dependencies node_names] in Hs, Hc, Hin.
  exists news. unfold with_nodes, dependency_graph_create.
  cbn [nodes node_count has_cycles].
  split; [exact Hs|]. intros d Hd. now apply Hin.
Qed.

(** X16.  When [dependency_resolve] succeeds, with names that fit their
    arrays, the order it returns starts with the requested package, and
    every name in it is the requested package or one of the dependencies
    that package declares itself: what those depend on is not looked up. *)
Theorem dependency_resolve_lists_request_and_direct (x : cstring)
    (order : list cstring) :
  fits_name x -> Forall fits_name (declared_dependencies E x) ->
  dependency_resolve E x = Some (TINYPKG_SUCCESS, order) ->
  (exists rest, order = x :: rest) /\
  (forall y, In y order -> y = x \/ In y (declared_dependencies E x)).
Proof.
  intros Hx Hdeps Hres.
  assert (Hdeps' : forall pkg, json_parser_load_package E x = Some pkg ->
                               Forall fits_name (pkg_dependencies pkg)).
  { intros pkg Hp. unfold declared_dependencies in Hdeps. now rewrite Hp in Hdeps. }
  split; [now apply (dependency_resolve_head E x order)|].
  destruct (resolve_graph_deps x Hx Hdeps) as (news & Hs & HD).
  unfold dependency_resolve in Hres.
  pose proof (dependency_graph_add_package_code dependency_graph_create x) as Hadd.
  destruct (dependency_graph_add_package dependency_graph_create x) as [r0 g0].
  cbn [fst snd] in *. subst r0.
  change (negb (TINYPKG_SUCCESS =? TINYPKG_SUCCESS)) with false in Hres. cbv iota in Hres.
  unfold dependency_graph_build in Hres, Hs. cbn [snd] in Hs.
  change (negb (TINYPKG_SUCCESS =? TINYPKG_SUCCESS)) with false in Hres. cbv iota in Hres.
  destruct (dependency_detect_cycles (graph_build_walk E g0 (nodes g0)))
    as [[r g1]|] eqn:Hdet; [|discriminate].
  apply dependency_detect_cycles_skeleton in Hdet as [Hsk Hcount].
  destruct (r =? TINYPKG_SUCCESS); cbn [negb] in Hres; [|discriminate].
  intros y Hy. pose proof (topological_sort_names g1 order Hres y Hy) as Hin.
  rewrite node_names_skeleton, Hsk, Hs, map_app, map_fst_leaf in Hin.
  apply in_app_or in Hin as [Hin|[<-|[]]]; [right; now apply HD|now left].
Qed.

End ResolverList.

(** ** Installing a package that has dependencies *)

Section InstallLoop.

Variable E : env.

(** X17.  [package_install] of a package that has no row, loads,
    validates, conflicts with nothing installed and declares
    dependencies, when dependencies are not skipped and the resolver
    returns two names or more: the first name of the order is the
    package itself, it is not installed, and the call installs it by
    calling itself in the same state. No depth of calls is enough for it
    to return, and nothing is run or written on the way. *)
Theorem package_install_with_dependencies_never_returns
    (n : cstring) (pkg : package_t) (order : list cstring) (st : state) :
  fits_name n -> Forall fits_name (pkg_dependencies pkg) ->
  package_db_find n (package_db_head (snd (package_db_load st))) = None ->
  package_load_info E n = Some pkg ->
  package_validate pkg = TINYPKG_SUCCESS ->
  fst (package_check_conflicts pkg (snd (package_db_load st))) = TINYPKG_SUCCESS ->
  skip_dependencies (global_config E) = false ->
  pkg_dependencies pkg <> [] ->
  dependency_resolve E n = Some (TINYPKG_SUCCESS, order) ->
  (2 <= length order)%nat ->
  forall fuel,
    fst (package_install E fuel n st) = OutOfFuel /\
    trace (snd (package_install E fuel n st)) = trace st.
Proof.
  intros Hn Hdeps Hrow Hload Hval Hconf Hskip Hne Hres Hlen fuel.
  assert (Hdeps' : forall p, json_parser_load_package E n = Some p ->
                             Forall fits_name (pkg_dependencies p)).
  { intros p Hp. unfold package_load_info in Hload. congruence. }
  destruct (dependency_resolve_head E n order Hn Hdeps' Hres) as (rest & ->).
  destruct rest as [|y rest]; [simpl in Hlen; lia|].
  destruct fuel as [|fuel]; [now split|].
  set (st1 := snd (package_db_load st)) in *.
  assert (Hl : package_db_loaded st1 = true) by apply package_db_load_snd_loaded.
  assert (Hsame : package_install E (S fuel) n st = package_install E (S fuel) n st1).
  { cbn [package_install]. rewrite !package_is_installed_eq.
    fold st1. rewrite (package_db_load_loaded st1 Hl). reflexivity. }
  rewrite Hsame.
  rewrite (package_install_calls_itself E n pkg st1 y rest Hl Hrow Hload Hval Hconf
             Hskip Hne Hres (S fuel)).
  split; [reflexivity|]. apply package_db_load_trace.
Qed.

End InstallLoop.

(** ** The table of active builds *)

Lemma remove_first_addr_fresh (a : nat) (T : list build_context_t) :
  ~ In a (map ctx_addr T) -> remove_first_addr a T = T.
Proof.
  induction T as [|c T IH]; simpl; [reflexivity|]. intro H.
  destruct (Nat.eqb_spec (ctx_addr c) a) as [Heq|_]; [exfalso; apply H; now left|].
  rewrite IH; [reflexivity|]. intro Hin. apply H. now right.
Qed.

Lemma remove_first_addr_last (c : build_context_t) (T : list build_context_t) :
  ~ In (ctx_addr c) (map ctx_addr T) -> remove_first_addr (ctx_addr c) (T ++ [c]) = T.
Proof.
  induction T as [|x T IH]; simpl.
  - intros _. now rewrite Nat.eqb_refl.
  - intro H. destruct (Nat.eqb_spec (ctx_addr x) (ctx_addr c)) as [Heq|_];
      [exfalso; apply H; now left|].
    rewrite IH; [reflexivity|]. intro Hin. apply H. now right.
Qed.

Lemma fresh_addr_not_in (st : state) : ~ In (fresh_addr st) (map ctx_addr (active_builds st)).
Proof.
  unfold fresh_addr. intro H.
  assert (Hmax : forall l a, In a l -> (a <= fold_right Nat.max O l)%nat).
  { induction l as [|x l IH]; simpl; [contradiction|].
    intros a [->|Hin]; [lia|]. specialize (IH a Hin). lia. }
  apply Hmax in H. lia.
Qed.

(** X18.  [add_active_build] on a table with room succeeds, and the
    package of the context then counts as running, as every package that
    was running does; on a full table it fails and changes nothing; the
    table never grows beyond 16 entries; and [remove_active_build] after
    a successful add of a context at an unused address gives the former
    table back. *)
Theorem active_builds_table (ctx : build_context_t) (n : cstring) (st : state) :
  let r := fst (add_active_build ctx st) in
  let st' := snd (add_active_build ctx st) in
  ((length (active_builds st) < 16)%nat ->
     r = TINYPKG_SUCCESS /\
     build_is_running (pkg_name (ctx_package ctx)) st' = true /\
     (build_is_running n st = true -> build_is_running n st' = true) /\
     (~ In (ctx_addr ctx) (map ctx_addr (active_builds st)) ->
      active_builds (remove_active_build ctx st') = active_builds st)) /\
  ((16 <= length (active_builds st))%nat -> r = TINYPKG_ERROR /\ st' = st) /\
  ((length (active_builds st) <= 16)%nat -> (length (active_builds st') <= 16)%nat).
Proof.
  cbv zeta. unfold add_active_build.
  destruct (Nat.leb_spec 16 (length (active_builds st))) as [Hfull|Hroom];
    cbn [fst snd].
  - split; [intro; lia|]. split; [now split|]. auto.
  - split; [|split; [intro; lia|]].
    + intros _. split; [reflexivity|]. unfold build_is_running.
      cbn [set_active_builds active_builds]. rewrite !existsb_app. cbn [existsb].
      rewrite TINYPKG_STREQ_refl. split; [now rewrite orb_true_r|].
      split; [now intros ->|].
      intro Hfresh. unfold remove_active_build. cbn [set_active_builds active_builds].
      now apply remove_first_addr_last.
    + intros _. cbn [set_active_builds active_builds]. rewrite length_app. simpl. lia.
Qed.

Lemma active_builds_table_witness :
  fst (add_active_build (mk_ctx 1 (example_package "vim" []) [] [] []
                           BUILD_STATUS_INIT 0 0) initial_state) = TINYPKG_SUCCESS /\
  build_is_running (cstr "vim")
    (snd (add_active_build (mk_ctx 1 (example_package "vim" []) [] [] []
                              BUILD_STATUS_INIT 0 0) initial_state)) = true /\
  fst (add_active_build (mk_ctx 99 (example_package "vim" []) [] [] []
                           BUILD_STATUS_INIT 0 0) full_table_state) = TINYPKG_ERROR.
Proof.
  destruct (active_builds_table (mk_ctx 1 (example_package "vim" []) [] [] []
                                   BUILD_STATUS_INIT 0 0) (cstr "vim") initial_state)
    as (Hroom & _ & _).
  destruct (active_builds_table (mk_ctx 99 (example_package "vim" []) [] [] []
                                   BUILD_STATUS_INIT 0 0) (cstr "vim") full_table_state)
    as (_ & Hfull & _).
  destruct Hroom as (H1 & H2 & _); [vm_compute; lia|].
  destruct Hfull as (H3 & _); [vm_compute; lia|].
  split; [exact H1|]. split; [exact H2|exact H3].
Defined.

(** ** What a build leaves behind *)

Lemma table_with_same a T0 st st' :
  active_builds st' = active_builds st -> table_with a T0 st -> table_with a T0 st'.
Proof. unfold table_with. intros ->. auto. Qed.

Lemma table_with_write a T0 ctx st :
  ctx_addr ctx = a -> ~ In a (map ctx_addr T0) ->
  table_with a T0 st -> table_with a T0 (write_ctx ctx st).
Proof.
  intros Ha Hfresh H. unfold table_with, write_ctx in *.
  cbn [set_active_builds active_builds].
  assert (Hmap : map (fun c => if (ctx_addr c =? ctx_addr ctx)%nat then ctx else c) T0 = T0).
  { rewrite Ha. clear - Hfresh. induction T0 as [|x T0 IH]; [reflexivity|].
    simpl in *. destruct (Nat.eqb_spec (ctx_addr x) a) as [Heq|_];
      [exfalso; apply Hfresh; now left|].
    rewrite IH; [reflexivity|]. intro Hin. apply Hfresh. now right. }
  destruct H as [->|(c & Hc & ->)].
  - left. exact Hmap.
  - right. exists ctx. split; [exact Ha|].
    rewrite map_app, Hmap. cbn [map]. rewrite Hc, Ha, Nat.eqb_refl. reflexivity.
Qed.

Lemma table_with_remove a T0 ctx st :
  ctx_addr ctx = a -> ~ In a (map ctx_addr T0) ->
  table_with a T0 st -> active_builds (remove_active_build ctx st) = T0.
Proof.
  intros Ha Hfresh H. unfold remove_active_build.
  cbn [set_active_builds active_builds]. rewrite Ha.
  destruct H as [->|(c & Hc & ->)].
  - now apply remove_first_addr_fresh.
  - rewrite <- Hc in *. now apply remove_first_addr_last.
Qed.

Section BuildTables.

Variable E : env.

Lemma utils_run_command_table cmd dir st :
  active_builds (snd (utils_run_command E cmd dir st)) = active_builds st.
Proof. reflexivity. Qed.

Lemma utils_create_directory_recursive_table path st :
  active_builds (snd (utils_create_directory_recursive E path st)) = active_builds st.
Proof. unfold utils_create_directory_recursive. now destruct path. Qed.

Lemma build_context_create_table pkg st :
  active_builds (snd (build_context_create E pkg st)) = active_builds st.
Proof.
  unfold build_context_create, build_context_setup_directories. cbn [ctx_build_dir
    ctx_source_dir ctx_install_dir].
  repeat match goal with
         | |- context [utils_create_directory_recursive E ?p ?s] =>
             let H := fresh "H" in
             pose proof (utils_create_directory_recursive_table p s) as H;
             destruct (utils_create_directory_recursive E p s) as [? ?];
             cbn [snd] in H
         end.
  match goal with |- context [if ?b then _ else _] => destruct b end;
    cbn [snd]; congruence.
Qed.

Lemma build_download_source_table ctx st :
  active_builds (snd (build_download_source E ctx st)) = active_builds st.
Proof.
  unfold build_download_source.
  destruct (utils_get_basename E _); [|reflexivity].
  destruct (utils_file_exists E _ st); [reflexivity|].
  pose proof (utils_create_directory_recursive_table
                (snprintf MAX_PATH (CACHE_DIR ++ cstr "/sources")) st) as H.
  destruct (utils_create_directory_recursive E _ st) as [r st1]. exact H.
Qed.

Lemma build_extract_source_table ctx st :
  active_builds (snd (build_extract_source E ctx st)) = active_builds st.
Proof.
  unfold build_extract_source.
  destruct (utils_get_basename E _); [|reflexivity].
  destruct (negb (utils_file_exists E _ st)); [reflexivity|].
  now destruct (extract_command _ _ _).
Qed.

Lemma build_run_autotools_table ctx st :
  active_builds (snd (build_run_autotools E ctx st)) = active_builds st.
Proof.
  unfold build_run_autotools.
  now destruct (negb (utils_file_exists E _ st)).
Qed.

Lemma build_compile_package_table ctx st :
  active_builds (snd (build_compile_package E ctx st)) = active_builds st.
Proof. reflexivity. Qed.

Lemma build_configure_package_table a T0 ctx st :
  ctx_addr ctx = a -> ~ In a (map ctx_addr T0) -> table_with a T0 st ->
  table_with a T0 (snd (build_configure_package E ctx st)) /\
  ctx_addr (snd (fst (build_configure_package E ctx st))) = a.
Proof.
  intros Ha Hfresh H. unfold build_configure_package.
  set (pkg' := match pkg_build_system (ctx_package ctx), pkg_build_cmd (ctx_package ctx) with
               | BUILD_TYPE_AUTOTOOLS, [] =>
                   set_build_system (ctx_package ctx)
                     (build_detect_system E (ctx_source_dir ctx) st)
               | _, _ => ctx_package ctx
               end).
  assert (Hw : table_with a T0 (write_ctx (set_ctx_package ctx pkg') st))
    by (apply table_with_write; assumption).
  destruct (pkg_build_system pkg').
  - pose proof (build_run_autotools_table (set_ctx_package ctx pkg')
                  (write_ctx (set_ctx_package ctx pkg') st)) as Ht.
    destruct (build_run_autotools E _ _) as [r st1]. cbn [fst snd] in *.
    split; [now apply (table_with_same a T0 _ st1 Ht)|exact Ha].
  - destruct (build_run_cmake E _ _) as [r st1] eqn:Hr. cbn [fst snd].
    split; [|exact Ha]. apply (table_with_same a T0 (write_ctx (set_ctx_package ctx pkg') st));
      [|exact Hw].
    unfold build_run_cmake in Hr. now injection Hr as _ <-.
  - now split.
  - now split.
Qed.

Lemma build_steps_table a T0 ctx st :
  ctx_addr ctx = a -> ~ In a (map ctx_addr T0) -> table_with a T0 st ->
  table_with a T0 (snd (build_steps E ctx st)).
Proof.
  intros Ha Hfresh H. unfold build_steps, enter.
  assert (Hw : forall s c st0, ctx_addr c = a -> table_with a T0 st0 ->
                 table_with a T0 (write_ctx (set_status c s) st0))
    by (intros; apply table_with_write; assumption).
  pose proof (build_download_source_table (set_status ctx BUILD_STATUS_DOWNLOADING)
                (write_ctx (set_status ctx BUILD_STATUS_DOWNLOADING) st)) as H1.
  destruct (build_download_source E _ _) as [r1 st1]. cbn [snd] in H1.
  assert (T1 : table_with a T0 st1)
    by (apply (table_with_same a T0 _ st1 H1); now apply Hw).
  destruct (negb (r1 =? TINYPKG_SUCCESS)); [exact T1|].
  pose proof (build_extract_source_table (set_status (set_status ctx BUILD_STATUS_DOWNLOADING)
                                           BUILD_STATUS_EXTRACTING)
                (write_ctx (set_status (set_status ctx BUILD_STATUS_DOWNLOADING)
                              BUILD_STATUS_EXTRACTING) st1)) as H2.
  destruct (build_extract_source E _ _) as [r2 st2]. cbn [snd] in H2.
  assert (T2 : table_with a T0 st2)
    by (apply (table_with_same a T0 _ st2 H2); now apply Hw).
  destruct (negb (r2 =? TINYPKG_SUCCESS)); [exact T2|].
  set (c3 := set_status (set_status (set_status ctx BUILD_STATUS_DOWNLOADING)
                           BUILD_STATUS_EXTRACTING) BUILD_STATUS_CONFIGURING).
  assert (T3 : table_with a T0 (write_ctx c3 st2)) by now apply Hw.
  destruct (build_configure_package_table a T0 c3 (write_ctx c3 st2) Ha Hfresh T3)
    as (T4 & Ha4).
  destruct (build_configure_package E c3 (write_ctx c3 st2)) as [[r3 c4] st3].
  cbn [fst snd] in T4, Ha4.
  destruct (negb (r3 =? TINYPKG_SUCCESS)); [exact T4|].
  pose proof (build_compile_package_table (set_status c4 BUILD_STATUS_BUILDING)
                (write_ctx (set_status c4 BUILD_STATUS_BUILDING) st3)) as H5.
  destruct (build_compile_package E _ _) as [r5 st5]. cbn [snd] in H5.
  assert (T5 : table_with a T0 st5)
    by (apply (table_with_same a T0 _ st5 H5); now apply Hw).
  destruct (negb (r5 =? TINYPKG_SUCCESS)); [exact T5|].
  cbn [snd]. apply table_with_write; [exact Ha4|exact Hfresh|].
  now apply Hw.
Qed.

Lemma build_package_table (pkg : package_t) (st : state) :
  active_builds (snd (build_package E pkg st)) = active_builds st.
Proof.
  unfold build_package.
  pose proof (build_context_create_table pkg st) as Hc.
  assert (Hctx : forall ctx st0, build_context_create E pkg st = (Some ctx, st0) ->
                                 ctx_addr ctx = fresh_addr st).
  { unfold build_context_create. intros ctx st0.
    destruct (build_context_setup_directories E _ st) as [r s].
    destruct (negb (r =? TINYPKG_SUCCESS)); [discriminate|]. now intros [= <- _]. }
  destruct (build_context_create E pkg st) as [[ctx|] st0]; [|exact Hc].
  cbn [snd] in Hc. specialize (Hctx ctx st0 eq_refl).
  set (a := fresh_addr st) in *. set (T0 := active_builds st) in *.
  assert (Hfresh : ~ In a (map ctx_addr T0)) by apply fresh_addr_not_in.
  set (ctx1 := set_start_time ctx (time_now E (trace st0))).
  assert (Ha1 : ctx_addr ctx1 = a) by exact Hctx.
  assert (T1 : table_with a T0 (snd (add_active_build ctx1 st0))).
  { unfold add_active_build. destruct (16 <=? length (active_builds st0))%nat.
    - left. exact Hc.
    - right. exists ctx1. split; [exact Ha1|].
      cbn [snd set_active_builds active_builds]. now rewrite Hc. }
  destruct (add_active_build ctx1 st0) as [ra st1]. cbn [snd] in T1.
  pose proof (build_steps_table a T0 ctx1 st1 Ha1 Hfresh T1) as T2.
  pose proof (build_steps_steps E ctx1 st1) as (_ & _ & Ha2).
  destruct (build_steps E ctx1 st1) as [[result ctx2] st2]. cbn [fst snd] in T2, Ha2.
  rewrite Ha1 in Ha2.
  assert (T3 : exists ctx3 st3,
            (if negb (result =? TINYPKG_SUCCESS)
             then (set_end_time (set_status ctx2 BUILD_STATUS_FAILED)
                     (time_now E (trace st2)),
                   write_ctx (set_end_time (set_status ctx2 BUILD_STATUS_FAILED)
                                (time_now E (trace st2))) st2)
             else (ctx2, st2)) = (ctx3, st3) /\
            ctx_addr ctx3 = a /\ table_with a T0 st3).
  { destruct (negb (result =? TINYPKG_SUCCESS)).
    - eexists _, _. split; [reflexivity|]. split; [exact Ha2|].
      apply table_with_write; assumption.
    - exists ctx2, st2. now repeat split. }
  destruct T3 as (ctx3 & st3 & -> & Ha3 & T3).
  pose proof (table_with_remove a T0 ctx3 st3 Ha3 Hfresh T3) as Hrem.
  destruct (negb (keep_build_dir (global_config E)) ||
            negb (result =? TINYPKG_SUCCESS)); cbn [snd]; exact Hrem.
Qed.

(** X19.  [build_package] leaves the table of active builds and the
    installed-packages database, in memory and on disk, as it found
    them, whatever the outcome of the build; so no package counts as
    running because of a build that has returned. *)
Theorem build_package_leaves_tables (pkg : package_t) (n : cstring) (st : state) :
  active_builds (snd (build_package E pkg st)) = active_builds st /\
  build_is_running n (snd (build_package E pkg st)) = build_is_running n st /\
  package_db_head (snd (build_package E pkg st)) = package_db_head st /\
  installed_txt (snd (build_package E pkg st)) = installed_txt st.
Proof.
  pose proof (build_package_table pkg st) as Ht.
  split; [exact Ht|]. split; [unfold build_is_running; now rewrite Ht|].
  destruct (build_package_effect E pkg st) as (_ & Hh & _ & Hf). now split.
Qed.

End BuildTables.

(** ** Installing after the build directory is gone *)

Lemma snprintf_cons (size : nat) (c : ascii) (l : cstring) :
  (2 <= size)%nat -> exists t, snprintf size (c :: l) = c :: t.
Proof.
  intro H. unfold snprintf. destruct (size - 1)%nat as [|k] eqn:Hk; [lia|].
  now exists (firstn k l).
Qed.

Lemma MAX_PATH_large : (2 <= MAX_PATH)%nat.
Proof. unfold MAX_PATH. lia. Qed.

Lemma build_dir_of_cons (pkg : package_t) : exists c t, build_dir_of pkg = c :: t.
Proof.
  unfold build_dir_of, CACHE_DIR.
  destruct (snprintf_cons MAX_PATH "/"%char
              (cstr "var/cache/tinypkg" ++ cstr "/builds/" ++ pkg_name pkg ++ cstr "-"
               ++ pkg_version pkg) MAX_PATH_large) as (t & Ht).
  exists "/"%char, t. exact Ht.
Qed.

Lemma dir_under_cons (pkg : package_t) (sub : cstring) :
  exists c t, snprintf MAX_PATH (build_dir_of pkg ++ sub) = c :: t.
Proof.
  destruct (build_dir_of_cons pkg) as (c & t & ->).
  destruct (snprintf_cons MAX_PATH c (t ++ sub) MAX_PATH_large) as (u & Hu).
  exists c, u. exact Hu.
Qed.

Section InstallAfterBuild.

Variable E : env.

Lemma mkdir_event (path : cstring) (st : state) :
  path <> [] ->
  trace (snd (utils_create_directory_recursive E path st)) = trace st ++ [EvMkdir path].
Proof. destruct path; [contradiction|reflexivity]. Qed.

(** [build_context_create]: three directories are made, and the
    context, when there is one, holds their names. *)
Lemma build_context_create_events (pkg : package_t) (st : state) :
  trace (snd (build_context_create E pkg st)) =
    trace st ++ [EvMkdir (build_dir_of pkg); EvMkdir (source_dir_of pkg);
                 EvMkdir (install_dir_of pkg)] /\
  (forall ctx, fst (build_context_create E pkg st) = Some ctx ->
     ctx_package ctx = pkg /\ ctx_build_dir ctx = build_dir_of pkg /\
     ctx_source_dir ctx = source_dir_of pkg /\
     ctx_install_dir ctx = install_dir_of pkg /\ ctx_addr ctx = fresh_addr st).
Proof.
  unfold build_context_create, build_context_setup_directories.
  cbn [ctx_build_dir ctx_source_dir ctx_install_dir].
  fold (build_dir_of pkg). fold (source_dir_of pkg). fold (install_dir_of pkg).
  assert (Hb : build_dir_of pkg <> [])
    by (destruct (build_dir_of_cons pkg) as (c & t & ->); discriminate).
  assert (Hs : source_dir_of pkg <> [])
    by (unfold source_dir_of; destruct (dir_under_cons pkg (cstr "/source")) as (c & t & ->);
        discriminate).
  assert (Hi : install_dir_of pkg <> [])
    by (unfold install_dir_of; destruct (dir_under_cons pkg (cstr "/install")) as (c & t & ->);
        discriminate).
  pose proof (mkdir_event (build_dir_of pkg) st Hb) as H1.
  destruct (utils_create_directory_recursive E (build_dir_of pkg) st) as [r1 st1].
  pose proof (mkdir_event (source_dir_of pkg) st1 Hs) as H2.
  destruct (utils_create_directory_recursive E (source_dir_of pkg) st1) as [r2 st2].
  pose proof (mkdir_event (install_dir_of pkg) st2 Hi) as H3.
  destruct (utils_create_directory_recursive E (install_dir_of pkg) st2) as [r3 st3].
  cbn [snd] in *.
  assert (Ht : trace st3 = trace st ++ [EvMkdir (build_dir_of pkg);
                                        EvMkdir (source_dir_of pkg);
                                        EvMkdir (install_dir_of pkg)]).
  { rewrite H3, H2, H1, <- !app_assoc. reflexivity. }
  destruct (negb (_ =? TINYPKG_SUCCESS)); cbn [fst snd].
  - split; [exact Ht|discriminate].
  - split; [exact Ht|]. intros ctx [= <-]. now repeat split.
Qed.

Lemma build_configure_package_names (ctx : build_context_t) (st : state) :
  build_dir_of (ctx_package (snd (fst (build_configure_package E ctx st)))) =
  build_dir_of (ctx_package ctx).
Proof.
  unfold build_configure_package.
  set (pkg' := match pkg_build_system (ctx_package ctx), pkg_build_cmd (ctx_package ctx) with
               | BUILD_TYPE_AUTOTOOLS, [] =>
                   set_build_system (ctx_package ctx)
                     (build_detect_system E (ctx_source_dir ctx) st)
               | _, _ => ctx_package ctx
               end).
  assert (Hp : build_dir_of pkg' = build_dir_of (ctx_package ctx)).
  { subst pkg'. destruct (pkg_build_system (ctx_package ctx)); try reflexivity.
    now destruct (pkg_build_cmd (ctx_package ctx)). }
  destruct (pkg_build_system pkg').
  - now destruct (build_run_autotools E _ _).
  - now destruct (build_run_cmake E _ _).
  - exact Hp.
  - exact Hp.
Qed.

Lemma build_steps_names (ctx : build_context_t) (st : state) :
  build_dir_of (ctx_package (snd (fst (build_steps E ctx st)))) =
  build_dir_of (ctx_package ctx).
Proof.
  unfold build_steps, enter.
  destruct (build_download_source E _ _) as [r1 st1].
  destruct (negb (r1 =? TINYPKG_SUCCESS)); [reflexivity|].
  destruct (build_extract_source E _ _) as [r2 st2].
  destruct (negb (r2 =? TINYPKG_SUCCESS)); [reflexivity|].
  match goal with
  | |- context [build_configure_package E ?c ?s] =>
      pose proof (build_configure_package_names c s) as Hc;
      destruct (build_configure_package E c s) as [[r3 c4] st3]
  end.
  cbn [fst snd] in Hc.
  destruct (negb (r3 =? TINYPKG_SUCCESS)); [exact Hc|].
  destruct (build_compile_package E _ _) as [r5 st5].
  destruct (negb (r5 =? TINYPKG_SUCCESS)); exact Hc.
Qed.

Lemma build_package_names (pkg : package_t) (st : state) :
  build_dir_of (snd (fst (build_package E pkg st))) = build_dir_of pkg.
Proof.
  unfold build_package.
  destruct (build_context_create_events pkg st) as (_ & Hctx).
  destruct (build_context_create E pkg st) as [[ctx|] st0]; [|reflexivity].
  destruct (Hctx ctx eq_refl) as (Hp & _).
  destruct (add_active_build _ st0) as [ra st1].
  match goal with
  | |- context [build_steps E ?c ?s] =>
      pose proof (build_steps_names c s) as Hs;
      destruct (build_steps E c s) as [[result ctx2] st2]
  end.
  cbn [fst snd] in Hs. change (ctx_package (set_start_time ctx _)) with (ctx_package ctx) in Hs.
  rewrite Hp in Hs.
  destruct (negb (result =? TINYPKG_SUCCESS)); cbn [fst snd]; exact Hs.
Qed.

(** X20.  With [keep_build_dir] unset, as [main] always leaves it, the
    last thing [build_package] does once it has its context is to remove
    the build directory; [build_install_package], which
    [package_install] calls next, makes the three directories anew and,
    if that works, runs the install command in the new source directory:
    between the removal and the install command nothing is fetched,
    unpacked or built. *)
Theorem install_follows_removal_of_build_dir (pkg : package_t) (st : state) :
  keep_build_dir (global_config E) = false ->
  fst (build_context_create E pkg st) <> None ->
  let built := build_package E pkg st in
  let pkg' := snd (fst built) in
  let st1 := snd built in
  let made := [EvMkdir (build_dir_of pkg); EvMkdir (source_dir_of pkg);
               EvMkdir (install_dir_of pkg)] in
  (exists evs, trace st1 = trace st ++ made ++ evs ++ [EvRmdir (build_dir_of pkg)]) /\
  (trace (snd (build_install_package E pkg' st1)) = trace st1 ++ made /\
   fst (build_install_package E pkg' st1) = TINYPKG_ERROR_MEMORY \/
   exists cmd more,
     trace (snd (build_install_package E pkg' st1)) =
     trace st1 ++ made ++ EvRun cmd (Some (source_dir_of pkg)) :: more).
Proof.
  intros Hkeep Hsome. cbv zeta. split.
  - destruct (build_context_create_events pkg st) as (Ht & Hctx).
    destruct (build_context_create E pkg st) as [[ctx|] st0] eqn:Hc;
      [|now contradiction Hsome].
    destruct (Hctx ctx eq_refl) as (_ & Hb & _).
    destruct (build_package_trace E pkg st ctx st0 Hc) as (evs & _ & Htr).
    rewrite Hkeep in Htr. cbn [negb orb snd] in Htr, Ht.
    exists evs. rewrite Htr, Ht, Hb, <- !app_assoc. reflexivity.
  - pose proof (build_package_names pkg st) as Hn.
    set (pkg' := snd (fst (build_package E pkg st))) in *.
    set (st1 := snd (build_package E pkg st)).
    assert (Hs : source_dir_of pkg' = source_dir_of pkg)
      by (unfold source_dir_of; now rewrite Hn).
    assert (Hi : install_dir_of pkg' = install_dir_of pkg)
      by (unfold install_dir_of; now rewrite Hn).
    unfold build_install_package.
    destruct (build_context_create_events pkg' st1) as (Ht & Hctx).
    rewrite Hn, Hs, Hi in Ht.
    destruct (build_context_create E pkg' st1) as [[ctx2|] st2]; cbn [fst snd] in *.
    + right. destruct (Hctx ctx2 eq_refl) as (_ & _ & Hsrc & _).
      unfold build_install_files. cbn [ctx_package ctx_source_dir set_status].
      rewrite Hsrc, Hs.
      match goal with
      | |- context [utils_run_command E ?c (Some ?d) st2] =>
          set (cmd := c)
      end.
      unfold utils_run_command at 1.
      destruct (command_ok E (trace st2) cmd (Some (source_dir_of pkg))).
      * change (TINYPKG_SUCCESS =? TINYPKG_SUCCESS) with true. cbv iota.
        eexists cmd, _. unfold utils_run_command. cbn [snd emit trace].
        rewrite Ht, <- !app_assoc. cbn [app]. reflexivity.
      * change (TINYPKG_ERROR =? TINYPKG_SUCCESS) with false. cbv iota.
        exists cmd, []. cbn [snd emit trace]. rewrite Ht, <- !app_assoc. reflexivity.
    + left. split; [exact Ht|reflexivity].
Qed.

End InstallAfterBuild.

(** ** Conflicts *)

Lemma check_conflicts_from_spec (conflicts : list cstring) (st : state) :
  package_db_loaded st = true ->
  snd (check_conflicts_from conflicts st) = st /\
  (fst (check_conflicts_from conflicts st) = TINYPKG_SUCCESS /\
   Forall (fun c => package_db_find c (package_db_head st) = None) conflicts \/
   fst (check_conflicts_from conflicts st) = TINYPKG_ERROR_DEPENDENCY /\
   Exists (fun c => package_db_find c (package_db_head st) <> None) conflicts).
Proof.
  intro Hl. induction conflicts as [|c rest (IH1 & IH2)]; simpl.
  - split; [reflexivity|]. left. now split.
  - rewrite package_is_installed_eq, package_db_load_loaded by assumption.
    cbn [snd]. destruct (package_db_find c (package_db_head st)) as [e|] eqn:Hc.
    + split; [reflexivity|]. right. split; [reflexivity|].
      apply Exists_cons_hd. now rewrite Hc.
    + split; [exact IH1|]. destruct IH2 as [(H1 & H2)|(H1 & H2)].
      * left. split; [exact H1|]. now constructor.
      * right. split; [exact H1|]. now apply Exists_cons_tl.
Qed.

(** X21.  [package_check_conflicts] loads the database if it is not
    loaded and does nothing else to the state; it succeeds exactly when
    none of the names the package lists as conflicts has a row, and
    answers the dependency error otherwise. *)
Theorem package_check_conflicts_spec (pkg : package_t) (st : state) :
  let loaded := snd (package_db_load st) in
  let r := fst (package_check_conflicts pkg st) in
  (pkg_conflicts pkg <> [] -> snd (package_check_conflicts pkg st) = loaded) /\
  (pkg_conflicts pkg = [] -> snd (package_check_conflicts pkg st) = st) /\
  (r = TINYPKG_SUCCESS <->
   Forall (fun c => package_db_find c (package_db_head loaded) = None)
     (pkg_conflicts pkg)) /\
  (r <> TINYPKG_SUCCESS -> r = TINYPKG_ERROR_DEPENDENCY).
Proof.
  cbv zeta. unfold package_check_conflicts.
  destruct (pkg_conflicts pkg) as [|c rest] eqn:Hc.
  - split; [intro H; now contradiction H|]. split; [reflexivity|].
    split; [split; [constructor|reflexivity]|]. intro H. now contradiction H.
  - set (st1 := snd (package_db_load st)).
    assert (Hl : package_db_loaded st1 = true) by apply package_db_load_snd_loaded.
    assert (Hsame : check_conflicts_from (c :: rest) st =
                    check_conflicts_from (c :: rest) st1).
    { cbn [check_conflicts_from]. rewrite !package_is_installed_eq. fold st1.
      now rewrite (package_db_load_loaded st1 Hl). }
    rewrite Hsame.
    destruct (check_conflicts_from_spec (c :: rest) st1 Hl) as (Hs & Hr).
    split; [intros _; exact Hs|]. split; [discriminate|].
    destruct Hr as [(H1 & H2)|(H1 & H2)].
    + split; [split; [intros _; exact H2|intros _; exact H1]|].
      intro H. now contradiction H.
    + split; [|intros _; exact H1]. split.
      * rewrite H1. discriminate.
      * intro Hall. exfalso. apply Exists_exists in H2 as (x & Hx & Hrow).
        rewrite Forall_forall in Hall. now apply Hrow, Hall.
Qed.

(** ** Repositories *)

Lemma find_repository_app_none (name : cstring) (repos more : list repository_t) :
  find_repository name repos = None ->
  find_repository name (repos ++ more) = find_repository name more.
Proof.
  induction repos as [|r repos IH]; simpl; [reflexivity|].
  destruct (TINYPKG_STREQ (repo_name r) name); [discriminate|exact IH].
Qed.

Lemma find_repository_app_other (name m : cstring) (repos : list repository_t)
    (new_repo : repository_t) :
  repo_name new_repo = name -> m <> name ->
  find_repository m (repos ++ [new_repo]) = find_repository m repos.
Proof.
  intros Hn Hm. induction repos as [|r repos IH]; simpl.
  - destruct (TINYPKG_STREQ (repo_name new_repo) m) eqn:He; [|reflexivity].
    apply TINYPKG_STREQ_eq in He. congruence.
  - now destruct (TINYPKG_STREQ (repo_name r) m).
Qed.

Lemma take_repository_last (name : cstring) (repos : list repository_t)
    (new_repo : repository_t) :
  repo_name new_repo = name -> find_repository name repos = None ->
  take_repository name (repos ++ [new_repo]) = Some (new_repo, repos).
Proof.
  intros Hn. induction repos as [|r repos IH]; simpl.
  - intros _. now rewrite Hn, TINYPKG_STREQ_refl.
  - destruct (TINYPKG_STREQ (repo_name r) name); [discriminate|].
    intro H. now rewrite (IH H).
Qed.

(** X22.  Adding a repository under a name that fits its array and is
    not taken succeeds; the repository is then found under that name,
    with the given URL, the given branch or main, a directory of its own
    under the repository directory, priority 50 and enabled; other names
    find what they found before; adding the name again fails and changes
    nothing; and removing it gives the former list back. *)
Theorem repository_add_get_remove (E : env) (is_directory : cstring -> bool)
    (name url m : cstring) (branch : option cstring)
    (rs : repository_state) (st : state) :
  (length name < 128)%nat ->
  fst (repository_get_by_name name rs) = None ->
  let added := snd (repository_add name url branch rs) in
  fst (repository_add name url branch rs) = TINYPKG_SUCCESS /\
  fst (repository_get_by_name name added) = Some (added_repository name url branch) /\
  (m <> name ->
   fst (repository_get_by_name m added) = fst (repository_get_by_name m rs)) /\
  repository_add name url branch added = (TINYPKG_ERROR, added) /\
  fst (fst (repository_remove E is_directory name added st)) = TINYPKG_SUCCESS /\
  snd (fst (repository_remove E is_directory name added st)) =
    snd (load_repositories rs).
Proof.
  intros Hlen Hfree. cbv zeta.
  unfold repository_add, repository_get_by_name in *.
  destruct (load_repositories rs) as [r0 rs0] eqn:Hload.
  assert (Hr0 : r0 = TINYPKG_SUCCESS /\ repositories_loaded rs0 = true).
  { unfold load_repositories in Hload.
    destruct (repositories_loaded rs) eqn:Hl; injection Hload as <- <-; now split. }
  destruct Hr0 as (-> & Hl0).
  change (negb (TINYPKG_SUCCESS =? TINYPKG_SUCCESS)) with false in *. cbv iota in *.
  cbn [fst snd] in *. rewrite Hfree. cbn [fst snd].
  rewrite strncpy_short by lia. fold (added_repository name url branch).
  unfold load_repositories. cbn [repositories_loaded repositories]. rewrite Hl0.
  change (negb (TINYPKG_SUCCESS =? TINYPKG_SUCCESS)) with false. cbv iota.
  cbn [fst snd repositories repositories_loaded].
  assert (Hfound : find_repository name (repositories rs0 ++ [added_repository name url branch])
                   = Some (added_repository name url branch)).
  { rewrite find_repository_app_none by exact Hfree. simpl.
    now rewrite TINYPKG_STREQ_refl. }
  split; [reflexivity|]. split; [exact Hfound|]. split.
  { intro Hm. now apply (find_repository_app_other name). }
  split; [now rewrite Hfound|].
  unfold repository_remove. cbn [repositories repositories_loaded].
  rewrite take_repository_last by (reflexivity || exact Hfree).
  cbn [fst snd]. split; [reflexivity|]. destruct rs0 as [l b]. cbn in *. now subst b.
Qed.

Lemma repository_add_get_remove_witness :
  fst (repository_get_by_name (cstr "extra")
         (snd (repository_add (cstr "extra") (cstr "https://example.org/r.git") None
                 (mk_repository_state [] false)))) =
    Some (mk_repository (cstr "extra") (cstr "https://example.org/r.git") (cstr "main")
            (cstr "/var/lib/tinypkg/repo/extra") 50 true 0 []) /\
  fst (repository_get_by_name (cstr "main")
         (snd (repository_add (cstr "extra") (cstr "https://example.org/r.git") None
                 (mk_repository_state [] false)))) = Some default_repo.
Proof.
  destruct (repository_add_get_remove (example_env default_config [] [])
              (fun _ => false) (cstr "extra") (cstr "https://example.org/r.git")
              (cstr "main") None (mk_repository_state [] false) initial_state)
    as (_ & Hget & Hother & _); [vm_compute; lia | reflexivity |].
  split; [exact Hget|]. rewrite Hother by discriminate. reflexivity.
Defined.

(** ** Where a package definition is looked for *)

Lemma utils_join_path_sep (dir file : cstring) :
  dir <> [] -> (forall d, dir <> d ++ [SLASH]) ->
  fst (utils_join_path dir file) = dir ++ SLASH :: file.
Proof.
  intros Hne Hlast. unfold utils_join_path. cbn [fst].
  destruct dir as [|x dir] using rev_ind; [contradiction|].
  rewrite length_app. cbn [length].
  replace (length dir + 1 - 1)%nat with (length dir) by lia.
  rewrite app_nth2, Nat.sub_diag by lia. cbn [nth].
  replace (0 <? length dir + 1)%nat with true by (symmetry; apply Nat.ltb_lt; lia).
  destruct (Ascii.eqb_spec x SLASH) as [->|_]; [now contradiction (Hlast dir)|].
  reflexivity.
Qed.

Section PackagePath.

Variable E : env.

Lemma search_package_file_priority (p : repository_t -> Z) (repos : list repository_t)
    (name : cstring) (st : state) :
  search_package_file E (map (fun r => set_priority (p r) r) repos) name st =
  search_package_file E repos name st.
Proof.
  induction repos as [|r repos IH]; [reflexivity|].
  cbn [map search_package_file]. rewrite IH. reflexivity.
Qed.

Lemma search_package_file_found (repos : list repository_t) (name path : cstring)
    (st : state) :
  search_package_file E repos name st = Some path ->
  utils_file_exists E path st = true /\
  exists repo, In repo repos /\ repo_enabled repo = true /\
    (path = nested_package_file repo name \/ path = flat_package_file repo name).
Proof.
  induction repos as [|r repos IH]; simpl; [discriminate|].
  destruct (repo_enabled r) eqn:He; cbn [negb].
  - destruct (utils_file_exists E (nested_package_file r name) st) eqn:H1.
    + intros [= <-]. split; [exact H1|]. exists r. auto.
    + destruct (utils_file_exists E (flat_package_file r name) st) eqn:H2.
      * intros [= <-]. split; [exact H2|]. exists r. auto.
      * intro H. destruct (IH H) as (Hx & repo & Hin & Hen & Hp).
        split; [exact Hx|]. exists repo. auto.
  - intro H. destruct (IH H) as (Hx & repo & Hin & Hen & Hp).
    split; [exact Hx|]. exists repo. auto.
Qed.

(** X23.  For a package name that is not empty and does not end with a
    slash, [repository_get_package_path] in a repository at [dir] looks
    first for the file [.json] in [dir/name/name], then for
    [dir/name.json]. Before any repository is added it answers the first
    of the two that exists under the repository directory. What it
    answers is a file that exists in an enabled repository, the
    repositories being tried in the order of the list: their priorities
    play no part. *)
Theorem repository_get_package_path_places (name : cstring) (repo : repository_t)
    (p : repository_t -> Z) (rs : repository_state) (st : state) :
  plain_name name -> plain_name (repo_local_path repo) ->
  nested_package_file repo name =
    repo_local_path repo ++ cstr "/" ++ name ++ cstr "/" ++ name ++ cstr "/.json" /\
  flat_package_file repo name = repo_local_path repo ++ cstr "/" ++ name ++ cstr ".json" /\
  fst (repository_get_package_path E name (mk_repository_state [] false) st) =
    (if utils_file_exists E (nested_package_file default_repo name) st
     then Some (nested_package_file default_repo name)
     else if utils_file_exists E (flat_package_file default_repo name) st
     then Some (flat_package_file default_repo name)
     else None) /\
  (forall path, fst (repository_get_package_path E name rs st) = Some path ->
     utils_file_exists E path st = true /\
     exists r, In r (repositories (snd (load_repositories rs))) /\
               repo_enabled r = true /\
               (path = nested_package_file r name \/ path = flat_package_file r name)) /\
  (repositories_loaded rs = true ->
   fst (repository_get_package_path E name
          (mk_repository_state (map (fun r => set_priority (p r) r) (repositories rs)) true)
          st) =
   fst (repository_get_package_path E name rs st)).
Proof.
  intros (Hn & Hnl) (Hd & Hdl).
  split; [|split; [|split; [|split]]].
  - unfold nested_package_file.
    rewrite (utils_join_path_sep name (cstr ".json")) by assumption.
    rewrite (utils_join_path_sep name (name ++ SLASH :: cstr ".json")) by assumption.
    rewrite utils_join_path_sep by assumption.
    change (cstr "/") with [SLASH]. change (cstr "/.json") with (SLASH :: cstr ".json").
    cbn [app]. reflexivity.
  - unfold flat_package_file. rewrite utils_join_path_sep by assumption.
    change (cstr "/") with [SLASH]. cbn [app]. now rewrite <- app_assoc.
  - unfold repository_get_package_path, load_repositories.
    cbn [repositories_loaded repositories fst snd].
    change (negb (TINYPKG_SUCCESS =? TINYPKG_SUCCESS)) with false. cbv iota.
    cbn [fst search_package_file default_repo repo_enabled negb]. reflexivity.
  - intros path. unfold repository_get_package_path.
    destruct (load_repositories rs) as [r0 rs0] eqn:Hload.
    assert (Hr0 : r0 = TINYPKG_SUCCESS).
    { unfold load_repositories in Hload.
      destruct (repositories_loaded rs); now injection Hload as <- _. }
    subst r0. change (negb (TINYPKG_SUCCESS =? TINYPKG_SUCCESS)) with false. cbv iota.
    cbn [fst snd]. apply search_package_file_found.
  - intro Hl. unfold repository_get_package_path, load_repositories.
    cbn [repositories_loaded repositories]. rewrite Hl.
    change (negb (TINYPKG_SUCCESS =? TINYPKG_SUCCESS)) with false. cbv iota.
    cbn [fst repositories]. apply search_package_file_priority.
Qed.

End PackagePath.

(** ** Package definitions read from JSON *)

Lemma strncpy_cons (n : nat) (c : ascii) (s : cstring) :
  (1 <= n)%nat -> exists t, strncpy n (c :: s) = c :: t.
Proof.
  intro H. unfold strncpy. destruct n as [|k]; [lia|]. now exists (firstn k s).
Qed.

Lemma strncpy_length (n : nat) (s : cstring) : (length (strncpy n s) <= n)%nat.
Proof. unfold strncpy. rewrite length_firstn. lia. Qed.

Lemma strncpy_fits (n : nat) (s : cstring) : (length s <= n)%nat -> strncpy n s = s.
Proof. intro H. unfold strncpy. now apply firstn_all2. Qed.

Lemma strncpy_below (n : nat) (s : cstring) :
  (length s < n)%nat -> strncpy (n - 1) s = s.
Proof. intro H. apply strncpy_fits. lia. Qed.

Lemma json_parser_array_to_strings_nonempty (items : list json_t) :
  Forall (fun s => s <> []) (json_parser_array_to_strings items).
Proof.
  induction items as [|item items IH]; simpl; [constructor|].
  destruct item as [| | | | |[|c s]| |]; try exact IH.
  constructor; [discriminate|exact IH].
Qed.

Lemma strings_of_member_nonempty (root : json_t) (key : cstring) :
  Forall (fun s => s <> []) (strings_of_member root key).
Proof.
  unfold strings_of_member. destruct (json_parser_get_array root key).
  - apply json_parser_array_to_strings_nonempty.
  - constructor.
Qed.

Lemma required_field (root : json_t) (field : cstring) :
  match json_object_get root field with
  | Some (JsonString (_ :: _)) => true
  | _ => false
  end = true ->
  exists c s, json_parser_get_string root field [] = c :: s.
Proof.
  unfold json_parser_get_string.
  destruct (json_object_get root field) as [[| | | | |[|c s]| |]|]; try discriminate.
  intros _. now exists c, s.
Qed.

(** X24.  [json_parser_load_package_file] returns a package exactly when
    the file exists, parses, and passes
    [json_parser_validate_package_json]. The package it returns passes
    [package_validate]; its name, version and description fit the arrays
    of a database row; none of its dependencies, build dependencies,
    conflicts and provided names is an empty string; its size is a
    [size_t]; and it has no post-install command, pre-build command or
    signature, the unknown state and no install time, whatever the file
    says. *)
Theorem json_parser_load_package_file_valid (file_exists : bool)
    (root : option json_t) (json_file : cstring) :
  (json_parser_load_package_file file_exists root json_file <> None <->
   file_exists = true /\
   exists r, root = Some r /\ json_parser_validate_package_json r = TINYPKG_SUCCESS) /\
  (forall pkg more,
     json_parser_load_package_file file_exists root json_file = Some (pkg, more) ->
     package_validate pkg = TINYPKG_SUCCESS /\ package_fits pkg /\
     Forall (fun d => d <> []) (pkg_dependencies pkg) /\
     Forall (fun d => d <> []) (pkg_build_dependencies more) /\
     Forall (fun d => d <> []) (pkg_conflicts pkg) /\
     Forall (fun d => d <> []) (pkg_provides more) /\
     0 <= pkg_size_estimate pkg < 2 ^ 64 /\
     pkg_post_install_cmd pkg = [] /\ pkg_pre_build_cmd more = [] /\
     pkg_signature more = [] /\ pkg_state pkg = PKG_STATE_UNKNOWN /\
     pkg_install_time pkg = 0).
Proof.
  unfold json_parser_load_package_file.
  destruct file_exists; cbn [negb].
  2:{ split; [split; [intro H; now contradiction H|now intros (H & _)]|discriminate]. }
  destruct root as [r|].
  2:{ split; [split; [intro H; now contradiction H|now intros (_ & r & H & _)]|discriminate]. }
  destruct (json_parser_validate_package_json r =? TINYPKG_SUCCESS) eqn:Hv; cbn [negb].
  2:{ apply Z.eqb_neq in Hv. split; [|discriminate].
      split; [intro H; now contradiction H|]. intros (_ & r' & [= <-] & H). contradiction. }
  apply Z.eqb_eq in Hv.
  assert (Hreq : (exists c s, json_parser_get_string r (cstr "name") [] = c :: s) /\
                 (exists c s, json_parser_get_string r (cstr "version") [] = c :: s) /\
                 (exists c s, json_parser_get_string r (cstr "source_url") [] = c :: s)).
  { unfold json_parser_validate_package_json in Hv.
    destruct r; try discriminate.
    repeat match type of Hv with
           | (if negb ?b then _ else _) = _ =>
               let H := fresh "Hf" in destruct b eqn:H; cbn [negb] in Hv; [|discriminate]
           end.
    repeat split; now apply required_field. }
  destruct Hreq as ((c1 & s1 & Hname) & (c2 & s2 & Hver) & (c3 & s3 & Hurl)).
  cbv zeta. rewrite Hname, Hver, Hurl. cbn [length Nat.eqb orb].
  split.
  - split; [intros _; split; [reflexivity|now exists r]|discriminate].
  - intros pkg more [= <- <-].
    destruct (strncpy_cons 255 c1 s1) as (t1 & H1); [lia|].
    destruct (strncpy_cons 63 c2 s2) as (t2 & H2); [lia|].
    destruct (strncpy_cons 511 c3 s3) as (t3 & H3); [lia|].
    split.
    { unfold package_validate.
      cbv beta iota delta [pkg_name pkg_version pkg_source_url].
      now rewrite H1, H2, H3. }
    split.
    { unfold package_fits.
      cbv beta iota delta [pkg_name pkg_version pkg_description].
      repeat split; apply Nat.lt_succ_r, strncpy_length. }
    cbv beta iota delta [pkg_dependencies pkg_conflicts pkg_size_estimate
         pkg_post_install_cmd pkg_state pkg_install_time pkg_build_dependencies
         pkg_provides pkg_pre_build_cmd pkg_signature].
    repeat (split; [apply strings_of_member_nonempty|]).
    split; [|now repeat split].
    unfold wrap_unsigned, LONG_BITS. apply Z.mod_pos_bound. lia.
Qed.

(** ** Package definitions written to JSON and read back *)

Section JsonRoundTrip.

Variable utf8_valid : cstring -> bool.

Lemma strings_round_trip (strings : list cstring) :
  json_parser_array_to_strings (strings_to_items utf8_valid strings) =
  filter (fun s => negb (length s =? 0)%nat && utf8_valid s) strings.
Proof.
  induction strings as [|s strings IH]; [reflexivity|].
  destruct s as [|c s]; [exact IH|].
  cbn [strings_to_items filter length Nat.eqb negb andb]. unfold json_string.
  destruct (utf8_valid (c :: s)); [|exact IH].
  cbn [json_parser_array_to_strings]. now rewrite IH.
Qed.

Lemma strings_round_trip_all (strings : list cstring) :
  Forall (fun s => s <> [] /\ utf8_valid s = true) strings ->
  json_parser_array_to_strings (strings_to_items utf8_valid strings) = strings.
Proof.
  intro H. rewrite strings_round_trip.
  induction H as [|s strings [Hs Hv] _ IH]; [reflexivity|].
  destruct s as [|c s]; [now contradiction Hs|].
  cbn [filter length Nat.eqb negb andb]. now rewrite Hv, IH.
Qed.

(** X25.  The strings that [json_parser_array_to_strings] reads from the
    array that [json_parser_strings_to_array] makes are the strings that
    are not empty and are valid UTF-8, in their order; so an array of
    non-empty valid strings is read back as it was, and empty or invalid
    strings are lost without an error. *)
Theorem json_string_array_round_trip (strings : list cstring) :
  (forall items, json_parser_strings_to_array utf8_valid strings = JsonArray items ->
     json_parser_array_to_strings items =
     filter (fun s => negb (length s =? 0)%nat && utf8_valid s) strings) /\
  (Forall (fun s => s <> [] /\ utf8_valid s = true) strings ->
   json_parser_array_to_strings (strings_to_items utf8_valid strings) = strings).
Proof.
  split.
  - intros items [= <-]. apply strings_round_trip.
  - apply strings_round_trip_all.
Qed.

End JsonRoundTrip.

Lemma member_get_set (key : cstring) (value : json_t)
    (members : list (cstring * json_t)) (key' : cstring) :
  member_get key' (member_set key value members) =
  if TINYPKG_STREQ key key' then Some value else member_get key' members.
Proof.
  induction members as [|[k v] rest IH]; cbn [member_set member_get].
  - reflexivity.
  - destruct (TINYPKG_STREQ k key) eqn:Hk.
    + apply TINYPKG_STREQ_eq in Hk. subst k. cbn [member_get].
      now destruct (TINYPKG_STREQ key key').
    + cbn [member_get]. destruct (TINYPKG_STREQ k key') eqn:Hk'.
      * apply TINYPKG_STREQ_eq in Hk'. subst key'.
        apply TINYPKG_STREQ_neq in Hk.
        assert (Hn : TINYPKG_STREQ key k = false)
          by (apply TINYPKG_STREQ_neq; intro Heq; now apply Hk).
        now rewrite Hn.
      * exact IH.
Qed.

Lemma skip_set_new (obj : json_t) (k : cstring) (v : option json_t) (k' : cstring) :
  TINYPKG_STREQ k k' = false ->
  json_object_get (json_object_set_new obj k v) k' = json_object_get obj k'.
Proof.
  intro H. destruct obj, v; try reflexivity.
  cbn [json_object_set_new json_object_get]. now rewrite member_get_set, H.
Qed.

Lemma hit_set_new (obj : json_t) (k : cstring) (v : json_t) :
  is_object obj = true ->
  json_object_get (json_object_set_new obj k (Some v)) k = Some v.
Proof.
  intro H. destruct obj; try discriminate.
  cbn [json_object_set_new json_object_get].
  now rewrite member_get_set, TINYPKG_STREQ_refl.
Qed.

Lemma is_object_set_new (obj : json_t) (k : cstring) (v : option json_t) :
  is_object (json_object_set_new obj k v) = is_object obj.
Proof. now destruct obj, v. Qed.

Section SaveSteps.

Variable utf8_valid : cstring -> bool.

Lemma skip_set_if_nonempty (obj : json_t) (k s k' : cstring) :
  TINYPKG_STREQ k k' = false ->
  json_object_get (set_if_nonempty utf8_valid k s obj) k' = json_object_get obj k'.
Proof. intro H. destruct s; [reflexivity|]. now apply skip_set_new. Qed.

Lemma skip_set_if_positive (obj : json_t) (k : cstring) (v : Z) (k' : cstring) :
  TINYPKG_STREQ k k' = false ->
  json_object_get (set_if_positive k v obj) k' = json_object_get obj k'.
Proof.
  intro H. unfold set_if_positive. destruct (0 <? v); [|reflexivity].
  now apply skip_set_new.
Qed.

Lemma skip_set_if_any (obj : json_t) (k : cstring) (l : list cstring) (k' : cstring) :
  TINYPKG_STREQ k k' = false ->
  json_object_get (set_if_any utf8_valid k l obj) k' = json_object_get obj k'.
Proof. intro H. destruct l; [reflexivity|]. now apply skip_set_new. Qed.

Lemma is_object_set_if_nonempty (obj : json_t) (k s : cstring) :
  is_object (set_if_nonempty utf8_valid k s obj) = is_object obj.
Proof. destruct s; [reflexivity|]. apply is_object_set_new. Qed.

Lemma is_object_set_if_positive (obj : json_t) (k : cstring) (v : Z) :
  is_object (set_if_positive k v obj) = is_object obj.
Proof.
  unfold set_if_positive. destruct (0 <? v); [|reflexivity]. apply is_object_set_new.
Qed.

Lemma is_object_set_if_any (obj : json_t) (k : cstring) (l : list cstring) :
  is_object (set_if_any utf8_valid k l obj) = is_object obj.
Proof. destruct l; [reflexivity|]. apply is_object_set_new. Qed.

Lemma hit_set_text (obj : json_t) (k s : cstring) :
  is_object obj = true -> utf8_valid s = true ->
  json_object_get (json_object_set_new obj k (json_string utf8_valid s)) k =
  Some (JsonString s).
Proof. intros Ho Hv. unfold json_string. rewrite Hv. now apply hit_set_new. Qed.

Lemma hit_set_if_nonempty (obj : json_t) (k s : cstring) :
  is_object obj = true -> utf8_valid s = true -> json_object_get obj k = None ->
  json_object_get (set_if_nonempty utf8_valid k s obj) k = opt_text s.
Proof.
  intros Ho Hv Hn. destruct s as [|c s]; [exact Hn|].
  now apply hit_set_text.
Qed.

Lemma hit_set_if_positive (obj : json_t) (k : cstring) (v : Z) :
  is_object obj = true -> json_object_get obj k = None ->
  json_object_get (set_if_positive k v obj) k =
  if 0 <? v then Some (JsonInteger (wrap_signed LONG_BITS v)) else None.
Proof.
  intros Ho Hn. unfold set_if_positive. destruct (0 <? v); [|exact Hn].
  now apply hit_set_new.
Qed.

Lemma hit_set_if_any (obj : json_t) (k : cstring) (l : list cstring) :
  is_object obj = true -> json_object_get obj k = None ->
  json_object_get (set_if_any utf8_valid k l obj) k =
  match l with
  | [] => None
  | _ => Some (JsonArray (strings_to_items utf8_valid l))
  end.
Proof.
  intros Ho Hn. destruct l; [exact Hn|]. now apply hit_set_new.
Qed.

End SaveSteps.

Ltac skips :=
  repeat first [ rewrite skip_set_new by reflexivity
               | rewrite skip_set_if_nonempty by reflexivity
               | rewrite skip_set_if_positive by reflexivity
               | rewrite skip_set_if_any by reflexivity ].

Ltac objects :=
  repeat first [ rewrite is_object_set_new
               | rewrite is_object_set_if_nonempty
               | rewrite is_object_set_if_positive
               | rewrite is_object_set_if_any ];
  reflexivity.

Ltac lookup := unfold json_parser_save_package; cbv zeta; skips.

Section SavedMembers.

Variable utf8_valid : cstring -> bool.
Variable pkg : package_t.
Variable more : package_more_t.
Hypothesis Hstorable : storable utf8_valid pkg more.

Let saved := json_parser_save_package utf8_valid pkg more.

Lemma saved_is_object : is_object saved = true.
Proof. unfold saved, json_parser_save_package. cbv zeta. objects. Qed.

Ltac valid := apply (proj1 Hstorable); cbn [In]; tauto.

Ltac text := unfold saved; lookup; apply hit_set_text; [objects|valid].

Ltac optional := unfold saved; lookup; apply hit_set_if_nonempty; [objects|valid|skips; reflexivity].

Ltac number := unfold saved; lookup; apply hit_set_if_positive; [objects|skips; reflexivity].

Ltac array := unfold saved; lookup; apply hit_set_if_any; [objects|skips; reflexivity].

Lemma saved_name : json_object_get saved (cstr "name") = Some (JsonString (pkg_name pkg)).
Proof. text. Qed.

Lemma saved_version :
  json_object_get saved (cstr "version") = Some (JsonString (pkg_version pkg)).
Proof. text. Qed.

Lemma saved_description :
  json_object_get saved (cstr "description") = Some (JsonString (pkg_description pkg)).
Proof. text. Qed.

Lemma saved_source_url :
  json_object_get saved (cstr "source_url") = Some (JsonString (pkg_source_url pkg)).
Proof. text. Qed.

Lemma saved_source_type :
  json_object_get saved (cstr "source_type") = Some (JsonString (pkg_source_type more)).
Proof. text. Qed.

Lemma saved_build_system :
  json_object_get saved (cstr "build_system") =
  Some (JsonString (build_system_to_string (pkg_build_system pkg))).
Proof. text. Qed.

Lemma saved_maintainer :
  json_object_get saved (cstr "maintainer") = opt_text (pkg_maintainer more).
Proof. optional. Qed.

Lemma saved_homepage :
  json_object_get saved (cstr "homepage") = opt_text (pkg_homepage more).
Proof. optional. Qed.

Lemma saved_license :
  json_object_get saved (cstr "license") = opt_text (pkg_license more).
Proof. optional. Qed.

Lemma saved_category :
  json_object_get saved (cstr "category") = opt_text (pkg_category more).
Proof. optional. Qed.

Lemma saved_checksum :
  json_object_get saved (cstr "checksum") = opt_text (pkg_checksum pkg).
Proof. optional. Qed.

Lemma saved_build_cmd :
  json_object_get saved (cstr "build_cmd") = opt_text (pkg_build_cmd pkg).
Proof. optional. Qed.

Lemma saved_install_cmd :
  json_object_get saved (cstr "install_cmd") = opt_text (pkg_install_cmd pkg).
Proof. optional. Qed.

Lemma saved_configure_args :
  json_object_get saved (cstr "configure_args") = opt_text (pkg_configure_args pkg).
Proof. optional. Qed.

Lemma saved_size_estimate :
  json_object_get saved (cstr "size_estimate") =
  if 0 <? pkg_size_estimate pkg
  then Some (JsonInteger (wrap_signed LONG_BITS (pkg_size_estimate pkg))) else None.
Proof. number. Qed.

Lemma saved_build_time_estimate :
  json_object_get saved (cstr "build_time_estimate") =
  if 0 <? pkg_build_time_estimate more
  then Some (JsonInteger (wrap_signed LONG_BITS (pkg_build_time_estimate more)))
  else None.
Proof. number. Qed.

Lemma saved_dependencies :
  json_object_get saved (cstr "dependencies") =
  match pkg_dependencies pkg with
  | [] => None
  | _ => Some (JsonArray (strings_to_items utf8_valid (pkg_dependencies pkg)))
  end.
Proof. array. Qed.

Lemma saved_build_dependencies :
  json_object_get saved (cstr "build_dependencies") =
  match pkg_build_dependencies more with
  | [] => None
  | _ => Some (JsonArray (strings_to_items utf8_valid (pkg_build_dependencies more)))
  end.
Proof. array. Qed.

Lemma saved_conflicts :
  json_object_get saved (cstr "conflicts") =
  match pkg_conflicts pkg with
  | [] => None
  | _ => Some (JsonArray (strings_to_items utf8_valid (pkg_conflicts pkg)))
  end.
Proof. array. Qed.

Lemma saved_provides :
  json_object_get saved (cstr "provides") =
  match pkg_provides more with
  | [] => None
  | _ => Some (JsonArray (strings_to_items utf8_valid (pkg_provides more)))
  end.
Proof. array. Qed.

End SavedMembers.

Lemma get_string_text (root : json_t) (key s default_value : cstring) :
  json_object_get root key = Some (JsonString s) ->
  json_parser_get_string root key default_value = s.
Proof. intro H. unfold json_parser_get_string. now rewrite H. Qed.

Lemma get_string_opt_text (root : json_t) (key s : cstring) :
  json_object_get root key = opt_text s -> json_parser_get_string root key [] = s.
Proof. intro H. unfold json_parser_get_string. rewrite H. now destruct s. Qed.

Lemma get_int_saved (root : json_t) (key : cstring) (v : Z) :
  json_object_get root key =
    (if 0 <? v then Some (JsonInteger (wrap_signed LONG_BITS v)) else None) ->
  0 <= v < 2 ^ 31 ->
  json_parser_get_int root key 0 = v.
Proof.
  intros H Hv. unfold json_parser_get_int. rewrite H.
  destruct (0 <? v) eqn:Hc.
  - rewrite (wrap_signed_small LONG_BITS v); unfold LONG_BITS, INT_BITS; try lia.
    apply wrap_signed_small; lia.
  - apply Z.ltb_ge in Hc. lia.
Qed.

Lemma strings_of_member_saved (utf8_valid : cstring -> bool) (root : json_t)
    (key : cstring) (l : list cstring) :
  json_object_get root key =
    match l with
    | [] => None
    | _ => Some (JsonArray (strings_to_items utf8_valid l))
    end ->
  Forall (fun s => s <> [] /\ utf8_valid s = true) l ->
  strings_of_member root key = l.
Proof.
  intros H Hl. unfold strings_of_member, json_parser_get_array. rewrite H.
  destruct l as [|s l]; [reflexivity|].
  now apply strings_round_trip_all.
Qed.

Lemma validate_by_members (root : json_t) :
  is_object root = true ->
  (forall key, In key [cstr "name"; cstr "version"; cstr "source_url"] ->
     exists c s, json_object_get root key = Some (JsonString (c :: s))) ->
  (forall key,
     In key [cstr "dependencies"; cstr "build_dependencies"; cstr "conflicts";
             cstr "provides"] ->
     json_object_get root key = None \/
     exists items, json_object_get root key = Some (JsonArray items)) ->
  json_parser_validate_package_json root = TINYPKG_SUCCESS.
Proof.
  intros Ho Hreq Harr. destruct root; try discriminate.
  unfold json_parser_validate_package_json. cbv zeta.
  destruct (Hreq (cstr "name")) as (c1 & s1 & ->); [cbn [In]; tauto|].
  destruct (Hreq (cstr "version")) as (c2 & s2 & ->); [cbn [In]; tauto|].
  destruct (Hreq (cstr "source_url")) as (c3 & s3 & ->); [cbn [In]; tauto|].
  cbn [negb].
  destruct (Harr (cstr "dependencies")) as [->|(i1 & ->)]; [cbn [In]; tauto| |];
    (destruct (Harr (cstr "build_dependencies")) as [->|(i2 & ->)]; [cbn [In]; tauto| |]);
    (destruct (Harr (cstr "conflicts")) as [->|(i3 & ->)]; [cbn [In]; tauto| |]);
    (destruct (Harr (cstr "provides")) as [->|(i4 & ->)]; [cbn [In]; tauto| |]);
    reflexivity.
Qed.

Lemma build_system_round_trip (b : build_type_t) :
  build_system_of_string (build_system_to_string b) = b.
Proof. now destruct b. Qed.

(** X26.  A package that is [storable] is read back by
    [json_parser_load_package_file] from the object that
    [json_parser_save_package] wrote as it was, with the path of the
    file as its [json_file]. *)
Theorem json_parser_save_load_round_trip (utf8_valid : cstring -> bool)
    (pkg : package_t) (more : package_more_t) (json_file : cstring) :
  storable utf8_valid pkg more ->
  json_parser_load_package_file true
    (Some (json_parser_save_package utf8_valid pkg more)) json_file =
  Some (pkg, loaded_from more json_file).
Proof.
  intro Hs.
  pose proof Hs as (Hvalid & Hlists & (Hn & Hv & Hu) & Hfit & (Hsize & Htime) & Hrest).
  set (saved := json_parser_save_package utf8_valid pkg more).
  assert (Hvalidate : json_parser_validate_package_json saved = TINYPKG_SUCCESS).
  { apply validate_by_members.
    - now apply saved_is_object.
    - intros key [<-|[<-|[<-|[]]]].
      + destruct (pkg_name pkg) as [|c s] eqn:E; [now contradiction Hn|].
        exists c, s. rewrite <- E. now apply saved_name.
      + destruct (pkg_version pkg) as [|c s] eqn:E; [now contradiction Hv|].
        exists c, s. rewrite <- E. now apply saved_version.
      + destruct (pkg_source_url pkg) as [|c s] eqn:E; [now contradiction Hu|].
        exists c, s. rewrite <- E. now apply saved_source_url.
    - intros key [<-|[<-|[<-|[<-|[]]]]].
      + unfold saved. rewrite (saved_dependencies utf8_valid pkg more).
        destruct (pkg_dependencies pkg); [now left|right; eauto].
      + unfold saved. rewrite (saved_build_dependencies utf8_valid pkg more).
        destruct (pkg_build_dependencies more); [now left|right; eauto].
      + unfold saved. rewrite (saved_conflicts utf8_valid pkg more).
        destruct (pkg_conflicts pkg); [now left|right; eauto].
      + unfold saved. rewrite (saved_provides utf8_valid pkg more).
        destruct (pkg_provides more); [now left|right; eauto]. }
  unfold json_parser_load_package_file. cbv beta iota zeta delta [negb].
  rewrite Hvalidate, Z.eqb_refl. cbv beta iota.
  rewrite (get_string_text saved _ _ _ (saved_name _ _ _ Hs)).
  rewrite (get_string_text saved _ _ _ (saved_version _ _ _ Hs)).
  rewrite (get_string_text saved _ _ _ (saved_description _ _ _ Hs)).
  rewrite (get_string_text saved _ _ _ (saved_source_url _ _ _ Hs)).
  rewrite (get_string_text saved _ _ _ (saved_source_type _ _ _ Hs)).
  rewrite (get_string_text saved _ _ _ (saved_build_system _ _ _ Hs)).
  rewrite (get_string_opt_text saved _ _ (saved_maintainer _ _ _ Hs)).
  rewrite (get_string_opt_text saved _ _ (saved_homepage _ _ _ Hs)).
  rewrite (get_string_opt_text saved _ _ (saved_license _ _ _ Hs)).
  rewrite (get_string_opt_text saved _ _ (saved_category _ _ _ Hs)).
  rewrite (get_string_opt_text saved _ _ (saved_checksum _ _ _ Hs)).
  rewrite (get_string_opt_text saved _ _ (saved_build_cmd _ _ _ Hs)).
  rewrite (get_string_opt_text saved _ _ (saved_install_cmd _ _ _ Hs)).
  rewrite (get_string_opt_text saved _ _ (saved_configure_args _ _ _ Hs)).
  rewrite (get_int_saved saved _ _ (saved_size_estimate _ _ _) Hsize).
  rewrite (get_int_saved saved _ _ (saved_build_time_estimate _ _ _) Htime).
  rewrite (strings_of_member_saved utf8_valid saved _ _ (saved_dependencies _ _ _)).
  2:{ apply Hlists. cbn [In]. tauto. }
  rewrite (strings_of_member_saved utf8_valid saved _ _ (saved_build_dependencies _ _ _)).
  2:{ apply Hlists. cbn [In]. tauto. }
  rewrite (strings_of_member_saved utf8_valid saved _ _ (saved_conflicts _ _ _)).
  2:{ apply Hlists. cbn [In]. tauto. }
  rewrite (strings_of_member_saved utf8_valid saved _ _ (saved_provides _ _ _)).
  2:{ apply Hlists. cbn [In]. tauto. }
  rewrite build_system_round_trip.
  assert (Hl : ((length (pkg_name pkg) =? 0) || (length (pkg_version pkg) =? 0))%nat
               = false).
  { destruct (pkg_name pkg); [now contradiction Hn|].
    destruct (pkg_version pkg); [now contradiction Hv|]. reflexivity. }
  rewrite Hl.
  destruct Hfit as (F1 & F2 & F3 & F4 & F5 & F6 & F7 & F8 & F9 & F10 & F11 & F12 & F13).
  rewrite (strncpy_below MAX_NAME _ F1), (strncpy_below MAX_VERSION _ F2),
    (strncpy_below MAX_DESCRIPTION _ F3), (strncpy_below MAX_NAME _ F4),
    (strncpy_below MAX_URL _ F5), (strncpy_below MAX_URL _ F8),
    (strncpy_below MAX_CMD _ F11), (strncpy_below MAX_CMD _ F12),
    (strncpy_below MAX_CMD _ F13).
  rewrite !strncpy_fits by lia.
  unfold wrap_unsigned, LONG_BITS. rewrite Z.mod_small by lia.
  destruct Hrest as (R1 & R2 & R3 & R4 & R5 & R6 & R7).
  unfold loaded_from. destruct pkg, more.
  simpl in R1, R2, R3, R4, R5, R6, R7. now subst.
Qed.

(** ** Worked examples for the properties above *)

Lemma plain_name_vim : plain_name (cstr "vim").
Proof.
  split; [discriminate|]. intros d H.
  apply (f_equal (@rev ascii)) in H. rewrite rev_app_distr in H. discriminate.
Qed.

Lemma plain_name_REPO_DIR : plain_name REPO_DIR.
Proof.
  split; [discriminate|]. intros d H.
  apply (f_equal (@rev ascii)) in H. rewrite rev_app_distr in H. discriminate.
Qed.

Lemma dependency_resolve_lists_request_and_direct_witness :
  exists rest, [cstr "A"; cstr "B"] = cstr "A" :: rest.
Proof.
  refine (proj1 (dependency_resolve_lists_request_and_direct
                   (example_env default_config chain_catalogue [])
                   (cstr "A") [cstr "A"; cstr "B"] _ _ _)).
  - unfold fits_name. vm_compute. lia.
  - change (Forall fits_name [cstr "B"]).
    apply Forall_cons; [unfold fits_name; vm_compute; lia|apply Forall_nil].
  - vm_compute. reflexivity.
Defined.

Lemma package_install_with_dependencies_never_returns_witness :
  fst (package_install (example_env default_config chain_catalogue []) 5 (cstr "A")
         initial_state) = OutOfFuel.
Proof.
  refine (proj1 (package_install_with_dependencies_never_returns
                   (example_env default_config chain_catalogue [])
                   (cstr "A") (example_package "A" [cstr "B"]) [cstr "A"; cstr "B"]
                   initial_state _ _ _ _ _ _ _ _ _ _ 5%nat)).
  - unfold fits_name. vm_compute. lia.
  - change (Forall fits_name [cstr "B"]).
    apply Forall_cons; [unfold fits_name; vm_compute; lia|apply Forall_nil].
  - reflexivity.
  - reflexivity.
  - reflexivity.
  - reflexivity.
  - reflexivity.
  - discriminate.
  - vm_compute. reflexivity.
  - simpl. lia.
Defined.

Lemma install_follows_removal_of_build_dir_witness :
  exists evs,
    trace (snd (build_package (example_env default_config [example_package "P" []] [])
                  (example_package "P" []) initial_state)) =
    trace initial_state ++
    [EvMkdir (build_dir_of (example_package "P" []));
     EvMkdir (source_dir_of (example_package "P" []));
     EvMkdir (install_dir_of (example_package "P" []))] ++
    evs ++ [EvRmdir (build_dir_of (example_package "P" []))].
Proof.
  refine (proj1 (install_follows_removal_of_build_dir
                   (example_env default_config [example_package "P" []] [])
                   (example_package "P" []) initial_state _ _)).
  - reflexivity.
  - vm_compute. discriminate.
Defined.

Lemma repository_get_package_path_places_witness :
  nested_package_file default_repo (cstr "vim") =
  repo_local_path default_repo ++ cstr "/" ++ cstr "vim" ++ cstr "/" ++ cstr "vim" ++
  cstr "/.json".
Proof.
  exact (proj1 (repository_get_package_path_places (example_env default_config [] [])
                  (cstr "vim") default_repo (fun _ => 0) (mk_repository_state [] false)
                  initial_state plain_name_vim plain_name_REPO_DIR)).
Defined.

Lemma storable_full_package : storable (fun _ => true) full_package full_package_more.
Proof.
  split; [intros s _; reflexivity|].
  split.
  { intros strings Hin. apply Forall_forall. intros s Hs.
    split; [|reflexivity]. intro He. subst s.
    cbn [In full_package full_package_more pkg_dependencies pkg_build_dependencies
         pkg_conflicts pkg_provides] in Hin.
    destruct Hin as [<-|[<-|[<-|[<-|[]]]]]; cbn [In] in Hs;
      repeat (destruct Hs as [Hs|Hs]; [discriminate|]); exact Hs. }
  split; [repeat split; discriminate|].
  split; [repeat split; vm_compute; lia|].
  split; [split; vm_compute; split; congruence|].
  repeat split.
Qed.

Lemma json_parser_save_load_round_trip_witness :
  json_parser_load_package_file true
    (Some (json_parser_save_package (fun _ => true) full_package full_package_more))
    (cstr "/var/lib/tinypkg/repo/vim.json") =
  Some (full_package, loaded_from full_package_more (cstr "/var/lib/tinypkg/repo/vim.json")).
Proof.
  exact (json_parser_save_load_round_trip (fun _ => true) full_package full_package_more
           (cstr "/var/lib/tinypkg/repo/vim.json") storable_full_package).
Defined.

(** ** The builds in progress over whole commands *)

Section Commands.

Variable E : env.

























End Commands.

